(** * Frame & Camera Selector: batch render add-on

    A shallow embedding of [FrameAndCameraSelector.py] and the proofs of its
    specification.  The Python code runs inside a host application; the parts
    of the host that the add-on talks to (scene, render settings, output
    files, the [render_post] handler list, the render operator) are modelled
    as an explicit state that every method threads through.

    Conventions.
    - A Python [str] is a Rocq [string]; its characters are read as the code
      points 0..255.
    - A Python [int] is a [Z]; the optional digit limit of recent
      interpreters and the memory needed by huge ranges are not modelled.
    - A method that can raise returns an [Outcome]; printing appends a
      structured line ([Msg]) to the modelled standard output, and [show]
      gives the text of a line.
    - [RenderJob] objects live in a store ([heap]) and are named by
      references, because the operator and the host's handler list hold
      the same objects.
    - The host finishes a requested render at a later event of its own and
      then calls the registered [render_post] handlers; it changes nothing
      else.  The recursion limit of the interpreter and the range the host
      accepts for a frame number are not modelled. *)

From Stdlib Require Import ZArith List String Ascii Bool Lia DecimalString.
From Stdlib Require Import Sorted DecimalZ DecimalPos.
From stdpp Require Import base list.
Import ListNotations.

Local Open Scope Z_scope.
Local Open Scope list_scope.

(** ** Python built-ins used by the add-on *)

Module Py.

Inductive Exn : Type :=
| ValueError_invalid_literal (lit : string)   (* int(lit) failed *)
| ValueError_too_many_values                  (* a, b = <3 or more items> *)
| ValueError_not_enough_values (got : nat)    (* a, b = <0 or 1 item> *)
| ValueError_not_in_list                      (* list.remove(x), x absent *)
| AttributeError_None (attr : string)         (* None.attr *)
| TypeError_arguments (given : nat)           (* a method that takes one
                                                 argument called with more *)
| RecursionError                              (* the recursion limit of the
                                                 interpreter is exceeded *)
| Dangling.   (* not a Python exception: a reference outside the object
                 store; no state the add-on reaches holds one *)

Inductive Outcome (A : Type) : Type :=
| Return (a : A)
| Raise (e : Exn).
Arguments Return {A} a.
Arguments Raise {A} e.

(** [s.split(sep)] for a one-character separator: always at least one
    piece, empty pieces are kept. *)
Fixpoint split (sep : ascii) (s : string) : list string :=
  match s with
  | EmptyString => [EmptyString]
  | String c r =>
      if Ascii.eqb c sep then EmptyString :: split sep r
      else match split sep r with
           | piece :: pieces => String c piece :: pieces
           | [] => [String c EmptyString]
           end
  end.

(** [c in s] for a one-character [c]. *)
Fixpoint contains (c : ascii) (s : string) : bool :=
  match s with
  | EmptyString => false
  | String a r => Ascii.eqb a c || contains c r
  end.

(** *** [int(s)] in base 10 *)

Definition code (c : ascii) : N := N_of_ascii c.

(** White space recognised by the number scanner: TAB, LF, VT, FF, CR and
    the space. *)
Definition is_space (c : ascii) : bool :=
  ((9 <=? code c) && (code c <=? 13))%N || (code c =? 32)%N.

Definition digit_value (c : ascii) : option Z :=
  if ((48 <=? code c) && (code c <=? 57))%N
  then Some (Z.of_N (code c) - 48) else None.

(** Before scanning, [int] maps the non-ASCII white space (here NEL and
    the no-break space) to a space; any other character from 127 on that
    is not a decimal digit makes the literal invalid.  Characters below
    127 are kept. *)
Definition to_scanner_char (c : ascii) : option ascii :=
  if (code c <? 127)%N then Some c
  else if ((code c =? 133) || (code c =? 160))%N then Some " "%char
  else None.

Fixpoint to_scanner (s : string) : option string :=
  match s with
  | EmptyString => Some EmptyString
  | String c r =>
      match to_scanner_char c, to_scanner r with
      | Some c', Some r' => Some (String c' r')
      | _, _ => None
      end
  end.

Fixpoint skip_spaces (s : string) : string :=
  match s with
  | String c r => if is_space c then skip_spaces r else s
  | EmptyString => EmptyString
  end.

Definition take_sign (s : string) : bool * string :=
  match s with
  | String c r =>
      if Ascii.eqb c "+" then (false, r)
      else if Ascii.eqb c "-" then (true, r)
      else (false, s)
  | EmptyString => (false, s)
  end.

(** Digits with single underscores between them.  [prev_us] says that the
    previous character was an underscore, [n] counts the digits read.
    The result is the value, the digit count and the unread rest. *)
Fixpoint scan_digits (prev_us : bool) (acc : Z) (n : nat) (s : string)
  : option (Z * nat * string) :=
  match s with
  | EmptyString => if prev_us then None else Some (acc, n, s)
  | String c r =>
      if Ascii.eqb c "_" then
        if prev_us then None else scan_digits true acc n r
      else
        match digit_value c with
        | Some d => scan_digits false (10 * acc + d) (S n) r
        | None => if prev_us then None else Some (acc, n, s)
        end
  end.

Definition starts_with_underscore (s : string) : bool :=
  match s with
  | String c _ => Ascii.eqb c "_"
  | EmptyString => false
  end.

(** [int(s)]: [None] stands for [ValueError]. *)
Definition int (s : string) : option Z :=
  match to_scanner s with
  | None => None
  | Some b =>
      let (neg, body) := take_sign (skip_spaces b) in
      if starts_with_underscore body then None
      else
        match scan_digits false 0 0%nat body with
        | None => None
        | Some (v, n, rest) =>
            match n with
            | O => None
            | S _ =>
                match skip_spaces rest with
                | EmptyString => Some (if neg then - v else v)
                | String _ _ => None
                end
            end
        end
  end.

(** [list(range(start, stop))]. *)
Definition range (start stop : Z) : list Z :=
  map (fun i => start + Z.of_nat i) (seq 0 (Z.to_nat (stop - start))).

(** [str(n)], also what an f-string writes for [{n}]. *)
Definition str (n : Z) : string := NilZero.string_of_int (Z.to_int n).

(** [s.lower()] on the ASCII letters; the file formats of the host are
    ASCII identifiers. *)
Definition lower_char (c : ascii) : ascii :=
  if ((65 <=? code c) && (code c <=? 90))%N
  then ascii_of_N (code c + 32) else c.

Fixpoint lower (s : string) : string :=
  match s with
  | EmptyString => EmptyString
  | String c r => String (lower_char c) (lower r)
  end.

(** [a, b = map(int, parts)]: the items are converted one by one while
    they are unpacked; a third item is still converted before the
    unpacking fails. *)
Definition unpack_two_ints (parts : list string) : Outcome (Z * Z) :=
  match parts with
  | [] => Raise (ValueError_not_enough_values 0)
  | p0 :: ps =>
      match int p0 with
      | None => Raise (ValueError_invalid_literal p0)
      | Some a =>
          match ps with
          | [] => Raise (ValueError_not_enough_values 1)
          | p1 :: ps' =>
              match int p1 with
              | None => Raise (ValueError_invalid_literal p1)
              | Some b =>
                  match ps' with
                  | [] => Return (a, b)
                  | p2 :: _ =>
                      match int p2 with
                      | None => Raise (ValueError_invalid_literal p2)
                      | Some _ => Raise ValueError_too_many_values
                      end
                  end
              end
          end
      end
  end.

End Py.

Import Py.

Local Open Scope string_scope.

(** ** Data model *)

(** A camera object of the scene; the add-on only reads its name. *)
Record Camera : Type := { cam_name : string }.

(** [CameraSettings]: one configured camera / frame-range entry. *)
Record CameraSettings : Type := {
  camera : option Camera;
  frame_ranges : string;
  show_preview : bool
}.

(** The lines the add-on prints. *)
Inductive Msg : Type :=
| MsgInvalidRange (token : string)
| MsgNoCamera
| MsgStarting (name : string)
| MsgSkipping (frame : Z) (name : string)
| MsgFinishedFrame (frame : Z) (name : string)
| MsgFinishedAll (name : string)
| MsgJobsInit (jobs : list nat)
| MsgAllDone.

Definition tag : string := "CheeseOFcheese --- ".

(** The text of a printed line.  The list of job objects is printed by
    Python with their addresses; the model prints how many there are. *)
Definition show (m : Msg) : string :=
  match m with
  | MsgInvalidRange t => tag ++ "Invalid frame range: " ++ t
  | MsgNoCamera => tag ++ "No camera assigned to the setting. Skipping..."
  | MsgStarting n => tag ++ "Starting render for camera: " ++ n
  | MsgSkipping f n =>
      tag ++ "Skipping frame " ++ Py.str f ++ " with " ++ n
          ++ " because it has already been rendered"
  | MsgFinishedFrame f n =>
      tag ++ "Finished rendering frame " ++ Py.str f ++ " with " ++ n
  | MsgFinishedAll n => tag ++ "Finished rendering all frames with " ++ n
  | MsgJobsInit js =>
      tag ++ "Render jobs initialized: "
          ++ Py.str (Z.of_nat (length js)) ++ " job(s)"
  | MsgAllDone => tag ++ "All camera jobs completed."
  end.

(** A [RenderJob] object. *)
Record RenderJob : Type := {
  cam_setting : CameraSettings;
  frames : list Z;
  is_running : bool;
  is_cancelled : bool;
  original_filepath : string
}.

(** [scene.render]: the render settings the add-on reads or writes. *)
Record RenderSettings : Type := {
  filepath : string;
  use_overwrite : bool;
  file_format : string            (* scene.render.image_settings.file_format *)
}.

Record Scene : Type := {
  scene_camera : option Camera;   (* scene.camera *)
  frame_current : Z;
  render : RenderSettings;
  cam_settings : list CameraSettings
}.

(** How the render operator is called. *)
Inductive ExecContext : Type := INVOKE_DEFAULT | EXEC_DEFAULT.

(** One call of [bpy.ops.render.render(ctx, write_still=True)], with what
    the host reads from the scene at that moment. *)
Record RenderCall : Type := {
  rc_context : ExecContext;
  rc_camera : option Camera;
  rc_frame : Z;
  rc_filepath : string
}.

(** What the jobs do to the host, in the order it happens.  A job is named
    by its reference in the object store. *)
Inductive Action : Type :=
| FrameSet (job : nat) (frame : Z)          (* scene.frame_set(frame) *)
| Render (job : nat) (call : RenderCall)    (* bpy.ops.render.render(...) *)
| Finish (job : nat).                       (* job.finish() runs *)

Inductive OpStatus : Type :=
| RUNNING_MODAL | CANCELLED | FINISHED | PASS_THROUGH.

(** Host and operator state.  [heap] is the store of [RenderJob] objects: a
    reference is an index, and the operator's queue, its current job and
    the bound methods in [render_post] all hold references, so that a
    change made through one of them is seen through the others. *)
Record State : Type := {
  scene : Scene;
  disk : list string;             (* the files that exist, by absolute path *)
  render_post : list nat;         (* bpy.app.handlers.render_post: the jobs
                                     whose render_post_handler is registered *)
  in_flight : list RenderCall;    (* renders requested and not yet finished *)
  trace : list Action;            (* oldest first *)
  stdout : list Msg;              (* oldest first *)
  reports : list (string * string);  (* self.report({level}, text) *)
  modal_handler : bool;           (* the operator is a modal handler *)
  heap : list RenderJob;
  op_jobs : list nat;             (* RenderOperator._jobs *)
  op_current_job : option nat     (* RenderOperator._current_job *)
}.

(** The two places from which [render_next_frame] is entered: [start],
    called by [modal], and [render_post_handler], called by the host. *)
Inductive Entry : Type := from_start | from_handler.

(** The calls of [render_next_frame] that need a frame of the interpreter's
    stack; built-in functions and methods of the host's objects need
    none. *)
Inductive Callee : Type :=
| call_os_path_join
| call_bpy_path_abspath (path : string)
| call_os_path_isfile
| call_ops_render            (* bpy.ops.render.render(...) *)
| call_finish                (* self.finish() *)
| call_render_next_frame.    (* self.render_next_frame() *)

(** What the add-on takes from its host.
    - [os_path_join] and [bpy_path_abspath] are the functions of that
      name.
    - [handler_arguments] is the number of arguments with which the host
      calls a bound method it finds on a handler list: Blender 2.80 passes
      the scene; later versions pass the scene and the dependency graph
      to every handler that is not a plain function of one parameter.
    - [written_still format filepath] is the file the host writes for a
      render with [write_still], by its absolute path: the host adds the
      extension of the file format to [filepath] when it is not there.
    - [stack_cap entry callee]: [render_next_frame] calls itself for every
      frame it passes over, and the interpreter refuses a call that finds
      its stack full.  Counting the call that [start] or the handler
      makes as nesting 0 and each call the method makes of itself as one
      more, [stack_cap entry callee] is the deepest nesting at which
      [callee] can still be called.  A call at nesting 0 always fits. *)
Class Host : Type := {
  os_path_join : string -> string -> string;
  bpy_path_abspath : string -> string;
  handler_arguments : nat;
  written_still : string -> string -> string;
  stack_cap : Entry -> Callee -> nat
}.

(** *** Field updates *)

Definition set_frames (v : list Z) (j : RenderJob) : RenderJob :=
  {| cam_setting := cam_setting j; frames := v; is_running := is_running j;
     is_cancelled := is_cancelled j; original_filepath := original_filepath j |}.

Definition set_is_running (v : bool) (j : RenderJob) : RenderJob :=
  {| cam_setting := cam_setting j; frames := frames j; is_running := v;
     is_cancelled := is_cancelled j; original_filepath := original_filepath j |}.

Definition set_filepath (v : string) (r : RenderSettings) : RenderSettings :=
  {| filepath := v; use_overwrite := use_overwrite r;
     file_format := file_format r |}.

Definition set_scene_camera (v : option Camera) (sc : Scene) : Scene :=
  {| scene_camera := v; frame_current := frame_current sc;
     render := render sc; cam_settings := cam_settings sc |}.

Definition set_frame_current (v : Z) (sc : Scene) : Scene :=
  {| scene_camera := scene_camera sc; frame_current := v;
     render := render sc; cam_settings := cam_settings sc |}.

Definition set_render (v : RenderSettings) (sc : Scene) : Scene :=
  {| scene_camera := scene_camera sc; frame_current := frame_current sc;
     render := v; cam_settings := cam_settings sc |}.

Definition with_scene (v : Scene) (s : State) : State :=
  {| scene := v; disk := disk s; render_post := render_post s;
     in_flight := in_flight s; trace := trace s; stdout := stdout s;
     reports := reports s; modal_handler := modal_handler s; heap := heap s;
     op_jobs := op_jobs s; op_current_job := op_current_job s |}.

Definition with_disk (v : list string) (s : State) : State :=
  {| scene := scene s; disk := v; render_post := render_post s;
     in_flight := in_flight s; trace := trace s; stdout := stdout s;
     reports := reports s; modal_handler := modal_handler s; heap := heap s;
     op_jobs := op_jobs s; op_current_job := op_current_job s |}.

Definition with_render_post (v : list nat) (s : State) : State :=
  {| scene := scene s; disk := disk s; render_post := v;
     in_flight := in_flight s; trace := trace s; stdout := stdout s;
     reports := reports s; modal_handler := modal_handler s; heap := heap s;
     op_jobs := op_jobs s; op_current_job := op_current_job s |}.

Definition with_in_flight (v : list RenderCall) (s : State) : State :=
  {| scene := scene s; disk := disk s; render_post := render_post s;
     in_flight := v; trace := trace s; stdout := stdout s;
     reports := reports s; modal_handler := modal_handler s; heap := heap s;
     op_jobs := op_jobs s; op_current_job := op_current_job s |}.

Definition with_trace (v : list Action) (s : State) : State :=
  {| scene := scene s; disk := disk s; render_post := render_post s;
     in_flight := in_flight s; trace := v; stdout := stdout s;
     reports := reports s; modal_handler := modal_handler s; heap := heap s;
     op_jobs := op_jobs s; op_current_job := op_current_job s |}.

Definition with_stdout (v : list Msg) (s : State) : State :=
  {| scene := scene s; disk := disk s; render_post := render_post s;
     in_flight := in_flight s; trace := trace s; stdout := v;
     reports := reports s; modal_handler := modal_handler s; heap := heap s;
     op_jobs := op_jobs s; op_current_job := op_current_job s |}.

Definition with_reports (v : list (string * string)) (s : State) : State :=
  {| scene := scene s; disk := disk s; render_post := render_post s;
     in_flight := in_flight s; trace := trace s; stdout := stdout s;
     reports := v; modal_handler := modal_handler s; heap := heap s;
     op_jobs := op_jobs s; op_current_job := op_current_job s |}.

Definition with_modal_handler (v : bool) (s : State) : State :=
  {| scene := scene s; disk := disk s; render_post := render_post s;
     in_flight := in_flight s; trace := trace s; stdout := stdout s;
     reports := reports s; modal_handler := v; heap := heap s;
     op_jobs := op_jobs s; op_current_job := op_current_job s |}.

Definition with_heap (v : list RenderJob) (s : State) : State :=
  {| scene := scene s; disk := disk s; render_post := render_post s;
     in_flight := in_flight s; trace := trace s; stdout := stdout s;
     reports := reports s; modal_handler := modal_handler s; heap := v;
     op_jobs := op_jobs s; op_current_job := op_current_job s |}.

Definition with_op_jobs (v : list nat) (s : State) : State :=
  {| scene := scene s; disk := disk s; render_post := render_post s;
     in_flight := in_flight s; trace := trace s; stdout := stdout s;
     reports := reports s; modal_handler := modal_handler s; heap := heap s;
     op_jobs := v; op_current_job := op_current_job s |}.

Definition with_op_current_job (v : option nat) (s : State) : State :=
  {| scene := scene s; disk := disk s; render_post := render_post s;
     in_flight := in_flight s; trace := trace s; stdout := stdout s;
     reports := reports s; modal_handler := modal_handler s; heap := heap s;
     op_jobs := op_jobs s; op_current_job := v |}.

(** ** The state-and-exception monad of the methods *)

Definition M (A : Type) : Type := State -> State * Outcome A.

Definition ret {A : Type} (a : A) : M A := fun s => (s, Return a).

Definition raise {A : Type} (e : Exn) : M A := fun s => (s, Raise e).

Definition bind {A B : Type} (m : M A) (k : A -> M B) : M B :=
  fun s =>
    match m s with
    | (s', Return a) => k a s'
    | (s', Raise e) => (s', Raise e)
    end.

Notation "x <- m ;; k" := (bind m (fun x => k))
  (at level 100, m at next level, right associativity, only parsing).
Notation "m ;; k" := (bind m (fun _ => k))
  (at level 100, right associativity, only parsing).

Definition get : M State := fun s => (s, Return s).

Definition modify (f : State -> State) : M unit := fun s => (f s, Return tt).

(** [print(...)]. *)
Definition print (m : Msg) : M unit :=
  modify (fun s => with_stdout (stdout s ++ [m]) s).

(** Records an action of a job in the trace. *)
Definition record (a : Action) : M unit :=
  modify (fun s => with_trace (trace s ++ [a]) s).

(** Reading and writing the object a reference denotes. *)
Definition get_job (self : nat) : M RenderJob :=
  fun s =>
    match heap s !! self with
    | Some j => (s, Return j)
    | None => (s, Raise Dangling)
    end.

Definition put_job (self : nat) (j : RenderJob) : M unit :=
  modify (fun s => with_heap (<[self := j]> (heap s)) s).

(** [self.cam_setting.camera.name]. *)
Definition camera_name (j : RenderJob) : M string :=
  match camera (cam_setting j) with
  | Some cam => ret (cam_name cam)
  | None => raise (AttributeError_None "name")
  end.

(** ** [RenderJob] *)

(** The loop of [_parse_frame_ranges] over the comma-separated tokens;
    [acc] is the list [frames] built so far. *)
Fixpoint parse_tokens (tokens : list string) (acc : list Z) : M (list Z) :=
  match tokens with
  | [] => ret acc
  | frame_range :: rest =>
      if Py.contains "-" frame_range then
        match Py.unpack_two_ints (Py.split "-" frame_range) with
        | Return (start_frame, end_frame) =>
            parse_tokens rest (acc ++ Py.range start_frame (end_frame + 1))
        | Raise e => raise e
        end
      else
        match Py.int frame_range with
        | Some n => parse_tokens rest (acc ++ [n])
        | None => print (MsgInvalidRange frame_range) ;; parse_tokens rest acc
        end
  end.

Definition _parse_frame_ranges (frame_ranges : string) : M (list Z) :=
  parse_tokens (Py.split "," frame_ranges) [].

(** [RenderJob(cam_setting)]: builds the object, stores it and returns the
    reference to it. *)
Definition new_RenderJob (cs : CameraSettings) : M nat :=
  fs <- _parse_frame_ranges (frame_ranges cs) ;;
  s <- get ;;
  let job := {| cam_setting := cs; frames := fs; is_running := false;
                is_cancelled := false;
                original_filepath := filepath (render (scene s)) |} in
  modify (fun s => with_heap (heap s ++ [job]) s) ;;
  ret (length (heap s)).

Definition finish (self : nat) : M unit :=
  record (Finish self) ;;
  j <- get_job self ;;
  put_job self (set_is_running false j) ;;
  modify (fun s =>
    with_scene (set_render (set_filepath (original_filepath j)
                                         (render (scene s))) (scene s)) s) ;;
  name <- camera_name j ;;
  print (MsgFinishedAll name).

(** [os.path.isfile(p)]. *)
Definition isfile (p : string) (s : State) : bool :=
  existsb (String.eqb p) (disk s).

(** [bpy.ops.render.render(ctx, write_still=True)], called by job [self]:
    the host takes the request with the scene as it is now.  The render is
    finished by the host later, see [host_render_post]; with [EXEC_DEFAULT]
    it does so before the call returns, and since the call is the last
    thing its callers do, that is the schedule in which the [RenderPost]
    event comes next.  The stack that the nested calls take in that
    schedule is not counted in [stack_cap]. *)
Definition ops_render (self : nat) (ctx : ExecContext) : M unit :=
  s <- get ;;
  let call := {| rc_context := ctx; rc_camera := scene_camera (scene s);
                 rc_frame := frame_current (scene s);
                 rc_filepath := filepath (render (scene s)) |} in
  record (Render self call) ;;
  modify (fun s => with_in_flight (in_flight s ++ [call]) s).

(** The file name of a frame: [f"{name}_frame{frame}{file_extension}"]. *)
Definition frame_filename (name : string) (frame : Z) (format : string)
  : string :=
  name ++ "_frame" ++ Py.str frame ++ ("." ++ Py.lower format).

Section Methods.
Context {host : Host}.

(** A call made at the nesting [depth] of [render_next_frame]: it raises
    [RecursionError] when the stack has no room for [callee] there. *)
Definition enter (entry : Entry) (depth : nat) (callee : Callee) : M unit :=
  if (depth <=? stack_cap entry callee)%nat then ret tt
  else raise RecursionError.

(** [render_next_frame], by recursion on [self.frames] as read on entry
    ([fs]): the call on the popped list is the only recursive call, and
    nothing between the pop and that call touches the list.  [entry] and
    [depth] tell how deep in the interpreter's stack the call is.
    [render_next_frame_eq] below gives the equation of the source. *)
Fixpoint render_frames (entry : Entry) (depth : nat) (self : nat)
    (fs : list Z) : M unit :=
  j <- get_job self ;;
  match fs with
  | frame :: rest =>
      if is_cancelled j then
        enter entry depth call_finish ;;
        finish self
      else
        put_job self (set_frames rest j) ;;
        record (FrameSet self frame) ;;
        modify (fun s => with_scene (set_frame_current frame (scene s)) s) ;;
        s <- get ;;
        name <- camera_name j ;;
        enter entry depth call_os_path_join ;;
        let path :=
          os_path_join (original_filepath j)
            (frame_filename name frame (file_format (render (scene s)))) in
        modify (fun s =>
          with_scene (set_render (set_filepath path (render (scene s)))
                                 (scene s)) s) ;;
        there <- (if use_overwrite (render (scene s)) then ret false
                  else
                    enter entry depth (call_bpy_path_abspath path) ;;
                    enter entry depth call_os_path_isfile ;;
                    ret (isfile (bpy_path_abspath path) s)) ;;
        if there : bool
        then
          print (MsgSkipping frame name) ;;
          enter entry depth call_render_next_frame ;;
          render_frames entry (S depth) self rest
        else
          j' <- get_job self ;;
          put_job self (set_is_running true j') ;;
          modify (fun s => with_render_post (render_post s ++ [self]) s) ;;
          enter entry depth call_ops_render ;;
          ops_render self
            (if show_preview (cam_setting j) then INVOKE_DEFAULT
             else EXEC_DEFAULT)
  | [] =>
      enter entry depth call_finish ;;
      finish self
  end.

Definition render_next_frame (entry : Entry) (self : nat) : M unit :=
  j <- get_job self ;;
  render_frames entry 0 self (frames j).

Definition start (self : nat) : M unit :=
  j <- get_job self ;;
  match camera (cam_setting j) with
  | None => print MsgNoCamera ;; finish self
  | Some cam =>
      modify (fun s => with_scene (set_scene_camera (Some cam) (scene s)) s) ;;
      print (MsgStarting (cam_name cam)) ;;
      render_next_frame from_start self
  end.

(** [list.remove(x)]: drops the first occurrence. *)
Fixpoint list_remove (x : nat) (l : list nat) : option (list nat) :=
  match l with
  | [] => None
  | y :: r =>
      if Nat.eqb y x then Some r
      else match list_remove x r with
           | Some r' => Some (y :: r')
           | None => None
           end
  end.

(** [render_post_handler(scene)]; the argument is the scene of the state. *)
Definition render_post_handler (self : nat) : M unit :=
  s <- get ;;
  match list_remove self (render_post s) with
  | None => raise ValueError_not_in_list
  | Some l =>
      modify (with_render_post l) ;;
      j <- get_job self ;;
      name <- camera_name j ;;
      print (MsgFinishedFrame (frame_current (scene s)) name) ;;
      put_job self (set_is_running false j) ;;
      if negb (is_cancelled j) then render_next_frame from_handler self
      else ret tt
  end.

(** ** [RenderOperator] *)

(** The list comprehension of [execute]: a job for every setting that has
    a camera, in the order of the settings. *)
Fixpoint build_jobs (settings : list CameraSettings) : M (list nat) :=
  match settings with
  | [] => ret []
  | cs :: rest =>
      match camera cs with
      | Some _ =>
          j <- new_RenderJob cs ;;
          js <- build_jobs rest ;;
          ret (j :: js)
      | None => build_jobs rest
      end
  end.

Definition execute : M OpStatus :=
  s <- get ;;
  jobs <- build_jobs (cam_settings (scene s)) ;;
  modify (with_op_jobs jobs) ;;
  print (MsgJobsInit jobs) ;;
  match jobs with
  | [] =>
      modify (fun s =>
        with_reports
          (reports s ++
             [("WARNING",
               "No valid render jobs found. Please add camera settings.")])
          s) ;;
      ret CANCELLED
  | _ :: _ =>
      modify (with_modal_handler true) ;;
      ret RUNNING_MODAL
  end.

Definition cancel : M OpStatus :=
  s <- get ;;
  match op_current_job s with
  | Some cur => finish cur
  | None => ret tt
  end ;;
  print MsgAllDone ;;
  ret CANCELLED.

(** The kinds of event [modal] tells apart. *)
Inductive EventType : Type := TIMER | OTHER_EVENT.

(** [self._current_job is None or not self._current_job.is_running]. *)
Definition current_job_idle : M bool :=
  s <- get ;;
  match op_current_job s with
  | None => ret true
  | Some cur => j <- get_job cur ;; ret (negb (is_running j))
  end.

Definition modal (event : EventType) : M OpStatus :=
  match event with
  | TIMER =>
      idle <- current_job_idle ;;
      if idle then
        s <- get ;;
        match op_jobs s with
        | next :: rest =>
            modify (with_op_jobs rest) ;;
            modify (with_op_current_job (Some next)) ;;
            start next ;;
            ret PASS_THROUGH
        | [] => cancel
        end
      else ret PASS_THROUGH
  | OTHER_EVENT => ret PASS_THROUGH
  end.

(** ** The host's side of the event loop *)

(** The host calls the handler it finds on the list, the bound method
    [render_post_handler] of the job [h], with [handler_arguments]
    arguments; the method takes one, the scene. *)
Definition call_handler (h : nat) : M unit :=
  if (handler_arguments =? 1)%nat then render_post_handler h
  else raise (TypeError_arguments handler_arguments).

(** The host finishes the oldest render in flight: it writes the still
    image and calls the [render_post] handlers that are registered at that
    moment; an exception in a handler is printed by the host and dropped. *)
Definition call_handlers (hs : list nat) (s : State) : State :=
  fold_left (fun s h => fst (call_handler h s)) hs s.

Definition host_render_post (s : State) : State :=
  match in_flight s with
  | [] => s
  | call :: rest =>
      let s1 :=
        with_disk (written_still (file_format (render (scene s)))
                                 (rc_filepath call) :: disk s)
                  (with_in_flight rest s) in
      call_handlers (render_post s1) s1
  end.

Inductive HostEvent : Type :=
| Window (event : EventType)     (* an event of the window manager *)
| RenderPost.                    (* a render in flight is finished *)

(** One turn of the host's event loop.  A window event goes to [modal]
    while the operator is a modal handler; the operator stops being one
    when [modal] returns anything but PASS_THROUGH or raises. *)
Definition step (s : State) (ev : HostEvent) : State :=
  match ev with
  | RenderPost => host_render_post s
  | Window event =>
      if modal_handler s then
        match modal event s with
        | (s', Return PASS_THROUGH) => s'
        | (s', _) => with_modal_handler false s'
        end
      else s
  end.

Definition run (s : State) (evs : list HostEvent) : State :=
  fold_left step evs s.

End Methods.

(** ** Vocabulary of the specification *)

(** A decimal numeral: one or more of the digits 0..9. *)
Definition is_digit (c : ascii) : bool :=
  ((48 <=? Py.code c) && (Py.code c <=? 57))%N.

Fixpoint all_digits (s : string) : bool :=
  match s with
  | EmptyString => true
  | String c r => is_digit c && all_digits r
  end.

Definition is_decimal (s : string) : bool :=
  match s with
  | EmptyString => false
  | String _ _ => all_digits s
  end.

(** Its value, most significant digit first. *)
Fixpoint decimal_value_from (acc : Z) (s : string) : Z :=
  match s with
  | EmptyString => acc
  | String c r => decimal_value_from (10 * acc + (Z.of_N (Py.code c) - 48)) r
  end.

Definition decimal_value (s : string) : Z := decimal_value_from 0 s.

(** [count_up start n] is [start, start+1, ...], [n] numbers. *)
Fixpoint count_up (start : Z) (n : nat) : list Z :=
  match n with
  | O => []
  | S k => start :: count_up (start + 1) k
  end.

(** The inclusive ascending sequence [first, first+1, ..., last]; it is
    empty when [last < first]. *)
Definition inclusive (first last : Z) : list Z :=
  count_up first (Z.to_nat (last - first + 1)).

(** An integer written without a minus sign: a token with no dash in it
    that [int] reads, as [n].  The decimal numerals are such tokens, and so
    are the other spellings [int] accepts (white space around the digits, a
    plus sign, single underscores between digits). *)
Definition unsigned_integer (t : string) (n : Z) : Prop :=
  Py.contains "-" t = false /\ Py.int t = Some n.

(** The expansion of a well-formed token. *)
Inductive token_expands : string -> list Z -> Prop :=
| expands_single (t : string) (n : Z) :
    unsigned_integer t n ->
    token_expands t [n]
| expands_range (a b : string) (x y : Z) :
    unsigned_integer a x -> unsigned_integer b y ->
    x <= y ->
    token_expands (a ++ "-" ++ b) (inclusive x y).

(** A state with nothing in it, for closed examples. *)
Definition empty_scene : Scene :=
  {| scene_camera := None; frame_current := 0;
     render := {| filepath := ""; use_overwrite := false; file_format := "" |};
     cam_settings := [] |}.

Definition empty_state : State :=
  {| scene := empty_scene; disk := []; render_post := []; in_flight := [];
     trace := []; stdout := []; reports := []; modal_handler := false;
     heap := []; op_jobs := []; op_current_job := None |}.

(** The frame visits and the finished jobs of a trace. *)
Definition visits (tr : list Action) : list (nat * Z) :=
  flat_map (fun a => match a with FrameSet job f => [(job, f)] | _ => [] end) tr.

Definition finished (tr : list Action) : list nat :=
  flat_map (fun a => match a with Finish job => [job] | _ => [] end) tr.

Definition render_calls (tr : list Action) : list (nat * RenderCall) :=
  flat_map (fun a => match a with Render job c => [(job, c)] | _ => [] end) tr.

(** The frames a job still has to visit, tagged with the job. *)
Definition job_frames (s : State) (job : nat) : list (nat * Z) :=
  match heap s !! job with
  | Some j => map (pair job) (frames j)
  | None => []
  end.

(** The work left in a batch: the frames of the current job, then those of
    the queued jobs, in queue order. *)
Definition remaining (s : State) : list (nat * Z) :=
  (match op_current_job s with
   | Some cur => job_frames s cur
   | None => []
   end ++ flat_map (job_frames s) (op_jobs s))%list.

(** The current job is idle: there is none, or it is not running. *)
Definition current_idle (s : State) : bool :=
  match op_current_job s with
  | None => true
  | Some cur =>
      match heap s !! cur with
      | Some j => negb (is_running j)
      | None => true
      end
  end.

(** The settings of a scene that have a camera, and the jobs [execute]
    builds from them when the parsing of each succeeds. *)
Definition with_camera (settings : list CameraSettings) : list CameraSettings :=
  List.filter
    (fun cs => match camera cs with Some _ => true | None => false end)
    settings.

(** *** A concrete host and scene for closed examples *)

(** [os.path.join] of POSIX for two components. *)
Definition ends_with_slash (a : string) : bool :=
  String.eqb (substring (String.length a - 1) 1 a) "/".

Definition posix_join (a b : string) : string :=
  match b with
  | String "/" _ => b
  | _ =>
      match a with
      | EmptyString => b
      | String _ _ => if ends_with_slash a then a ++ b else a ++ "/" ++ b
      end
  end.

(** The file the host writes: the extension of the format is added to the
    path unless the path ends in it.  Of the formats, the examples use PNG
    and OPEN_EXR, whose files the host names [.png] and [.exr]. *)
Definition format_extension (format : string) : string :=
  if String.eqb format "OPEN_EXR" then ".exr" else "." ++ Py.lower format.

Definition ends_with (suffix s : string) : bool :=
  String.eqb
    (substring (String.length s - String.length suffix)
               (String.length suffix) s)
    suffix.

Definition ensure_extension (ext path : string) : string :=
  if ends_with ext path then path else path ++ ext.

(** A host with POSIX paths that calls handlers with the scene alone, as
    Blender 2.80 does, and has room for 990 nested calls. *)
Definition posix_host : Host :=
  {| os_path_join := posix_join; bpy_path_abspath := fun p => p;
     handler_arguments := 1;
     written_still := fun format path =>
                        ensure_extension (format_extension format) path;
     stack_cap := fun _ _ => 990%nat |}.

(** The same host calling handlers with the scene and the dependency
    graph, as Blender does from version 2.81 on. *)
Definition current_host : Host :=
  {| os_path_join := posix_join; bpy_path_abspath := fun p => p;
     handler_arguments := 2;
     written_still := fun format path =>
                        ensure_extension (format_extension format) path;
     stack_cap := fun _ _ => 990%nat |}.

Definition camA : Camera := {| cam_name := "CamA" |}.
Definition camB : Camera := {| cam_name := "CamB" |}.

Definition settingA : CameraSettings :=
  {| camera := Some camA; frame_ranges := "1,3-4"; show_preview := true |}.
Definition settingB : CameraSettings :=
  {| camera := Some camB; frame_ranges := "7,x, 8"; show_preview := false |}.
Definition setting_no_camera : CameraSettings :=
  {| camera := None; frame_ranges := "9"; show_preview := true |}.

(** Two cameras with a camera-less setting between them; frame 3 of the
    first camera is already on disk and overwriting is off. *)
Definition demo_state : State :=
  {| scene :=
       {| scene_camera := None; frame_current := 1;
          render := {| filepath := "/out"; use_overwrite := false;
                       file_format := "PNG" |};
          cam_settings := [settingA; setting_no_camera; settingB] |};
     disk := ["/out/CamA_frame3.png"]; render_post := []; in_flight := [];
     trace := []; stdout := []; reports := []; modal_handler := false;
     heap := []; op_jobs := []; op_current_job := None |}.

(** The same scene with no camera in any setting. *)
Definition no_camera_state : State :=
  with_scene
    {| scene_camera := None; frame_current := 1;
       render := {| filepath := "/out"; use_overwrite := false;
                    file_format := "PNG" |};
       cam_settings := [setting_no_camera; setting_no_camera] |}
    demo_state.

(** What [_parse_frame_ranges] returns, apart from what it prints. *)
Definition parsed_frames (frame_ranges : string) : Outcome (list Z) :=
  snd (_parse_frame_ranges frame_ranges empty_state).

(** The object [RenderJob(cs)] builds when the frames parse to [fs] and the
    scene's output path is [path]. *)
Definition new_job (cs : CameraSettings) (fs : list Z) (path : string)
  : RenderJob :=
  {| cam_setting := cs; frames := fs; is_running := false;
     is_cancelled := false; original_filepath := path |}.

(** The state [finish] leaves for a job with a camera. *)
Definition finished_state (self : nat) (j : RenderJob) (name : string)
    (s : State) : State :=
  with_stdout (stdout s ++ [MsgFinishedAll name])
    (with_scene (set_render (set_filepath (original_filepath j)
                                          (render (scene s))) (scene s))
       (with_heap (<[self := set_is_running false j]> (heap s))
          (with_trace (trace s ++ [Finish self]) s))).

(** The jobs built for the settings [css] whose frames parse to [fss]. *)
Definition make_jobs (path : string) (css : list CameraSettings)
    (fss : list (list Z)) : list RenderJob :=
  map (fun p => new_job (fst p) (snd p) path) (combine css fss).

(** The state [execute] leaves when it returns RUNNING_MODAL: the frames of
    the settings with a camera parsed to [fss], printing [msgs]. *)
Definition batch_state (s0 : State) (fss : list (list Z)) (msgs : list Msg)
  : State :=
  let ids := seq (length (heap s0)) (length fss) in
  with_modal_handler true
    (with_stdout ((stdout s0 ++ msgs) ++ [MsgJobsInit ids])
       (with_op_jobs ids
          (with_heap
             (heap s0 ++ make_jobs (filepath (render (scene s0)))
                           (with_camera (cam_settings (scene s0))) fss)
             s0))).

(** The warning of [execute]. *)
Definition no_jobs_warning : string * string :=
  ("WARNING", "No valid render jobs found. Please add camera settings.").

Section PathsOfFrames.
Context {host : Host}.

(** The output path of a frame of job [j], whose camera is called [name]. *)
Definition frame_path (j : RenderJob) (name : string) (frame : Z)
    (s : State) : string :=
  os_path_join (original_filepath j)
    (frame_filename name frame (file_format (render (scene s)))).

(** The output file of [path] is there and must not be overwritten. *)
Definition already_rendered (path : string) (s : State) : bool :=
  negb (use_overwrite (render (scene s)))
  && isfile (bpy_path_abspath path) s.

(** The state after job [self] has popped [frame], set it as the current
    frame and set the output path. *)
Definition visit_state (self : nat) (j : RenderJob) (rest : list Z)
    (frame : Z) (path : string) (s : State) : State :=
  with_scene
    (set_render (set_filepath path (render (scene s)))
                (set_frame_current frame (scene s)))
    (with_trace (trace s ++ [FrameSet self frame])
       (with_heap (<[self := set_frames rest j]> (heap s)) s)).

(** The call the host receives from the state [s]. *)
Definition render_call (ctx : ExecContext) (s : State) : RenderCall :=
  {| rc_context := ctx; rc_camera := scene_camera (scene s);
     rc_frame := frame_current (scene s);
     rc_filepath := filepath (render (scene s)) |}.

Definition job_context (j : RenderJob) : ExecContext :=
  if show_preview (cam_setting j) then INVOKE_DEFAULT else EXEC_DEFAULT.

(** The state after job [self] has asked for the render of the frame it
    visits in [s]. *)
Definition requested_state (self : nat) (j : RenderJob) (s : State) : State :=
  let call := render_call (job_context j) s in
  with_in_flight (in_flight s ++ [call])
    (with_trace (trace s ++ [Render self call])
       (with_render_post (render_post s ++ [self])
          (with_heap (<[self := set_is_running true j]> (heap s)) s))).

End PathsOfFrames.

(** What a job leaves alone while it goes through its frames. *)
Definition unchanged_by_job (s s' : State) : Prop :=
  scene_camera (scene s') = scene_camera (scene s) /\
  use_overwrite (render (scene s')) = use_overwrite (render (scene s)) /\
  file_format (render (scene s')) = file_format (render (scene s)) /\
  cam_settings (scene s') = cam_settings (scene s) /\
  disk s' = disk s /\
  reports s' = reports s /\
  modal_handler s' = modal_handler s /\
  op_jobs s' = op_jobs s /\
  op_current_job s' = op_current_job s.

Section FramesResult.
Context {host : Host}.

(** The two ways in which [render_next_frame] ends for job [self], whose
    object is [j] and whose camera is called [name], when its list is [fs]
    in state [s]: a render is requested for the first frame whose file is
    not to be kept, or every frame is passed over and the job finishes. *)
Inductive frames_result (self : nat) (j : RenderJob) (name : string)
    (fs : list Z) (s s' : State) : Prop :=
| result_running (skipped : list Z) (f : Z) (rest : list Z) :
    fs = (skipped ++ f :: rest)%list ->
    Forall (fun g => already_rendered (frame_path j name g s) s = true)
           skipped ->
    already_rendered (frame_path j name f s) s = false ->
    trace s'
    = (trace s ++ map (FrameSet self) (skipped ++ [f])
         ++ [Render self
               {| rc_context := job_context j;
                  rc_camera := scene_camera (scene s);
                  rc_frame := f;
                  rc_filepath := frame_path j name f s |}])%list ->
    heap s' = <[self := set_is_running true (set_frames rest j)]> (heap s) ->
    in_flight s'
    = (in_flight s
         ++ [ {| rc_context := job_context j;
                 rc_camera := scene_camera (scene s);
                 rc_frame := f;
                 rc_filepath := frame_path j name f s |} ])%list ->
    render_post s' = (render_post s ++ [self])%list ->
    frame_current (scene s') = f ->
    filepath (render (scene s')) = frame_path j name f s ->
    unchanged_by_job s s' ->
    frames_result self j name fs s s'
| result_finished :
    Forall (fun g => already_rendered (frame_path j name g s) s = true) fs ->
    trace s' = (trace s ++ map (FrameSet self) fs ++ [Finish self])%list ->
    heap s' = <[self := set_is_running false (set_frames [] j)]> (heap s) ->
    in_flight s' = in_flight s ->
    render_post s' = render_post s ->
    filepath (render (scene s')) = original_filepath j ->
    unchanged_by_job s s' ->
    frames_result self j name fs s s'.

(** The stack has room for every call made at the nesting [depth]. *)
Definition fits (entry : Entry) (depth : nat) : Prop :=
  forall callee, (depth <= stack_cap entry callee)%nat.

(** How deep [render_next_frame] can nest on the list [fs]: once for each
    frame it may pass over, and not at all when files are overwritten. *)
Definition nesting (s : State) (fs : list Z) : nat :=
  if use_overwrite (render (scene s)) then 0%nat else length fs.

(** All the ways in which [render_next_frame] ends: it returns in one of
    the two ways above, or a call finds the stack full.  Then the frames
    [visited] were popped and visited, no render was requested and the job
    has not finished; if the call that failed is the render ([asked]), the
    job is already marked running and its handler registered. *)
Inductive frames_outcome (self : nat) (j : RenderJob) (name : string)
    (fs : list Z) (s s' : State) : Outcome unit -> Prop :=
| outcome_returns :
    frames_result self j name fs s s' ->
    frames_outcome self j name fs s s' (Return tt)
| outcome_overflow (visited rest : list Z) (asked : bool) :
    fs = (visited ++ rest)%list ->
    (visited = [] -> s' = s) ->
    (asked = true -> visited <> []) ->
    trace s' = (trace s ++ map (FrameSet self) visited)%list ->
    heap s'
    = <[self := set_is_running (if asked then true else is_running j)
                  (set_frames rest j)]> (heap s) ->
    render_post s'
    = (render_post s ++ (if asked then [self] else []))%list ->
    in_flight s' = in_flight s ->
    (filepath (render (scene s')) = filepath (render (scene s)) \/
     exists g, In g visited /\
               filepath (render (scene s')) = frame_path j name g s) ->
    unchanged_by_job s s' ->
    frames_outcome self j name fs s s' (Raise RecursionError).

End FramesResult.

(** A store with two jobs made by hand: job 0 for [settingA] with the
    frames 3 and 4 left, job 1 for the setting without a camera. *)
Definition jobs_state : State :=
  with_heap [new_job settingA [3; 4] "/out";
             new_job setting_no_camera [9] "/out"]
            demo_state.

(** ** The invariant of a batch *)

(** The operator's current job after [k] jobs of a batch were started; the
    jobs of a batch have the references [base], [base + 1], ... *)
Definition cur_of (base k : nat) : option nat :=
  match k with
  | O => None
  | S k' => Some (base + k')%nat
  end.

(** The frames of a batch in the order in which they are to be visited:
    job after job, and for each job its parsed frames. *)
Definition batch_plan (base : nat) (fss : list (list Z)) : list (nat * Z) :=
  flat_map (fun p => map (pair (fst p)) (snd p))
           (combine (seq base (length fss)) fss).

(** The frame of each render of a trace, with the job that asked for it. *)
Definition rendered (tr : list Action) : list (nat * Z) :=
  map (fun p => (fst p, rc_frame (snd p))) (render_calls tr).

(** What holds of a batch at every moment, whatever the job in hand is
    doing, as long as no call has found the stack full.  [settings] are
    the settings with a camera, [P0] the output path, [O0] the overwrite
    switch and [tr0] the trace when the batch began, [k] the number of
    jobs started so far and [new] what the batch has added to the
    trace. *)
Record batch_core (base : nat) (settings : list CameraSettings)
    (P0 : string) (O0 : bool) (tr0 : list Action) (plan : list (nat * Z))
    (k : nat) (new : list Action) (s : State) : Prop := {
  core_started : (k <= length settings)%nat;
  core_overwrite : use_overwrite (render (scene s)) = O0;
  core_queue : op_jobs s = seq (base + k) (length settings - k);
  core_current : op_current_job s = cur_of base k;
  core_jobs :
    forall i cs, settings !! i = Some cs ->
      exists j cam,
        heap s !! (base + i)%nat = Some j /\ cam_setting j = cs /\
        camera cs = Some cam /\
        is_cancelled j = false /\ original_filepath j = P0;
  core_trace : trace s = (tr0 ++ new)%list;
  core_plan : (visits new ++ remaining s)%list = plan;
  core_renders : sublist (rendered new) (visits new);
  core_finished :
    forall job, In job (finished new) ->
      job_frames s job = [] /\ (job < base + k)%nat
}.

(** The job in hand is either idle, with its frames exhausted, finished,
    and the output path restored; or it is running: one render is in
    flight, for the frame visited last, the job's handler is the one
    registered, and the job has not finished; or it is stuck: the render
    has ended, but the host has called the handler with arguments it does
    not take, so that the job is still marked running and its handler
    still registered. *)
Inductive batch_status {host : Host} (base : nat) (P0 : string) (k : nat)
    (new : list Action) (s : State) : Prop :=
| status_idle :
    in_flight s = [] -> render_post s = [] ->
    filepath (render (scene s)) = P0 ->
    (forall cur, cur_of base k = Some cur ->
       exists j, heap s !! cur = Some j /\ is_running j = false /\
                 frames j = [] /\ In cur (finished new)) ->
    batch_status base P0 k new s
| status_running (cur : nat) (j : RenderJob) (call : RenderCall)
    (before : list (nat * Z)) :
    cur_of base k = Some cur -> heap s !! cur = Some j ->
    is_running j = true ->
    in_flight s = [call] -> render_post s = [cur] ->
    ~ In cur (finished new) ->
    visits new = (before ++ [(cur, rc_frame call)])%list ->
    batch_status base P0 k new s
| status_stuck (cur : nat) (j : RenderJob) (before : list (nat * Z))
    (frame : Z) :
    handler_arguments <> 1%nat ->
    cur_of base k = Some cur -> heap s !! cur = Some j ->
    is_running j = true ->
    in_flight s = [] -> render_post s = [cur] ->
    ~ In cur (finished new) ->
    visits new = (before ++ [(cur, frame)])%list ->
    batch_status base P0 k new s.

Definition batch_inv {host : Host} (base : nat)
    (settings : list CameraSettings) (P0 : string) (O0 : bool)
    (tr0 : list Action) (plan : list (nat * Z)) (s : State)
  : Prop :=
  exists k new,
    batch_core base settings P0 O0 tr0 plan k new s /\
    batch_status base P0 k new s /\
    (modal_handler s = false ->
     op_jobs s = [] /\ in_flight s = [] /\ render_post s = []).

(** The batch is started on an operator that has no job in hand, while no
    render is in flight and no handler of the add-on is registered. *)
Definition fresh (s : State) : Prop :=
  op_current_job s = None /\ in_flight s = [] /\ render_post s = [].

(** The number of frames of the batch that [execute] starts in [s0]: the
    frames of the settings with a camera. *)
Definition planned_frames (s0 : State) : nat :=
  length
    (flat_map (fun cs => match parsed_frames (frame_ranges cs) with
                         | Return fs => fs
                         | Raise _ => []
                         end)
              (with_camera (cam_settings (scene s0)))).

(** The stack has room for the batch that begins in [s0], whatever is on
    disk: [render_next_frame] nests once for each frame it passes over,
    which are at most the frames of the batch, and none when files are
    overwritten. *)
Definition stack_fits {host : Host} (s0 : State) : Prop :=
  forall entry,
    fits entry (if use_overwrite (render (scene s0)) then 0%nat
                else planned_frames s0).

(** The events of a complete run of [demo_state]: each job is started by a
    timer event and each render in flight is finished by the host. *)
Definition demo_events : list HostEvent :=
  [Window TIMER; Window TIMER; RenderPost; Window OTHER_EVENT; RenderPost;
   Window TIMER; RenderPost; Window TIMER; RenderPost; Window TIMER;
   Window TIMER].

Section BatchClaims.
Context {host : Host}.


End BatchClaims.

(** The output path of a batch that began in [s0], left [execute] in [s1]
    and is now in [s]: when [execute] returns no job has been started and
    each job has recorded the path of the beginning; each job still has
    it in [s]; the scene has it whenever the last thing a job did was to
    finish; and, if the stack has room for the frames to pass over, the
    scene has it once the operator has stopped. *)
Definition restores {host : Host} (s0 s1 s : State) : Prop :=
  let P0 := filepath (render (scene s0)) in
  (op_current_job s1 = None /\ trace s1 = trace s0 /\ scene s1 = scene s0) /\
  (forall job, In job (op_jobs s1) ->
     exists j, heap s1 !! job = Some j /\ original_filepath j = P0 /\
               is_running j = false) /\
  (forall job, In job (op_jobs s1) ->
     exists j, heap s !! job = Some j /\ original_filepath j = P0) /\
  (forall before job,
     trace s = (before ++ [Finish job])%list ->
     filepath (render (scene s)) = P0) /\
  (stack_fits s0 -> modal_handler s = false ->
   filepath (render (scene s)) = P0).

(** The render that job 0 of [jobs_state] asks for: frame 3 is passed
    over, frame 4 is rendered. *)
Definition demo_call : RenderCall :=
  {| rc_context := INVOKE_DEFAULT; rc_camera := None; rc_frame := 4;
     rc_filepath := "/out/CamA_frame4.png" |}.

(** ** Vocabulary of the further properties *)

(** What a token that does not make the parser raise contributes: its
    frames and the line printed for it, if any.  A range of two integers
    written without a minus sign contributes the inclusive sequence, which
    is empty when the range is descending; a token without a dash that is
    not an integer contributes a line of diagnostic. *)
Inductive token_yields : string -> list Z -> list Msg -> Prop :=
| yields_integer (t : string) (n : Z) :
    unsigned_integer t n ->
    token_yields t [n] []
| yields_range (a b : string) (x y : Z) :
    unsigned_integer a x -> unsigned_integer b y ->
    token_yields (a ++ "-" ++ b) (inclusive x y) []
| yields_nothing (t : string) :
    Py.contains "-" t = false -> Py.int t = None ->
    token_yields t [] [MsgInvalidRange t].

(** A token with a dash that is not two integers, written without a minus
    sign, around one dash. *)
Definition token_broken (t : string) : Prop :=
  Py.contains "-" t = true /\
  forall a b x y,
    unsigned_integer a x -> unsigned_integer b y -> t <> a ++ "-" ++ b.

(** The characters of a printed number: digits and the minus sign. *)
Definition numeric_char (c : ascii) : bool :=
  is_digit c || Ascii.eqb c "-".

(** A range that lacks its last frame, and the example scene with such a
    setting between its two cameras. *)
Definition setting_broken : CameraSettings :=
  {| camera := Some camB; frame_ranges := "5-"; show_preview := true |}.

Definition broken_state : State :=
  with_scene
    {| scene_camera := None; frame_current := 1;
       render := {| filepath := "/out"; use_overwrite := false;
                    file_format := "PNG" |};
       cam_settings := [settingA; setting_no_camera; setting_broken;
                        settingB] |}
    demo_state.

(** ** The operators of the settings list and the panel *)

Definition set_cam_settings (v : list CameraSettings) (sc : Scene) : Scene :=
  {| scene_camera := scene_camera sc; frame_current := frame_current sc;
     render := render sc; cam_settings := v |}.

(** The item [cam_settings.add()] appends: every property has the default
    of its declaration in [CameraSettings], and the pointer to the camera
    is empty. *)
Definition default_setting : CameraSettings :=
  {| camera := None; frame_ranges := ""; show_preview := true |}.

(** [SCENE_OT_AddCamSetting.execute]. *)
Definition SCENE_OT_AddCamSetting_execute : M OpStatus :=
  modify (fun s =>
    with_scene
      (set_cam_settings (cam_settings (scene s) ++ [default_setting])
                        (scene s)) s) ;;
  ret FINISHED.

(** [cam_settings.remove(index)] of the host: the item at [index] is taken
    out and the later items move up; an index outside the collection is
    ignored. *)
Definition collection_remove (index : Z) (items : list CameraSettings)
  : list CameraSettings :=
  if (0 <=? index)%Z then delete (Z.to_nat index) items else items.

(** [SCENE_OT_RemoveCamSetting.execute], for the operator property
    [index]. *)
Definition SCENE_OT_RemoveCamSetting_execute (index : Z) : M OpStatus :=
  modify (fun s =>
    with_scene
      (set_cam_settings (collection_remove index (cam_settings (scene s)))
                        (scene s)) s) ;;
  ret FINISHED.

(** What [draw] puts into the layout.  A property field names the item of
    the collection it edits; an operator button carries the [bl_idname] of
    its operator and the value given to the operator's [index], if any. *)
#[warnings="-register-all"] Inductive Layout : Type :=
| ui_prop (item : nat) (property text : string)
| ui_operator (idname text icon : string) (index : option Z)
| ui_row (items : list Layout)
| ui_box (items : list Layout).

(** The loop of [draw] over [enumerate(scene.cam_settings)], from the
    index [i] on. *)
Fixpoint draw_settings (i : nat) (settings : list CameraSettings)
  : list Layout :=
  match settings with
  | [] => []
  | _ :: rest =>
      ui_box
        [ui_row
           [ui_prop i "camera" ("Camera " ++ Py.str (Z.of_nat i + 1));
            ui_operator "scene.remove_cam_setting" "" "X"
                        (Some (Z.of_nat i))];
         ui_prop i "frame_ranges" "Frames or Frame Ranges";
         ui_prop i "show_preview" "Show Preview"]
      :: draw_settings (S i) rest
  end.

(** [CustomRenderPanel.draw]. *)
Definition CustomRenderPanel_draw (s : State) : list Layout :=
  (draw_settings 0 (cam_settings (scene s))
     ++ [ui_operator "scene.add_cam_setting" "Add Camera Setting" "NONE" None;
         ui_operator "render.cheese_batch_render" "Render Frames" "NONE"
                     None])%list.

(** The operator buttons of a layout, in the order they are drawn. *)
Fixpoint buttons (l : Layout) : list (string * option Z) :=
  match l with
  | ui_prop _ _ _ => []
  | ui_operator idname _ _ index => [(idname, index)]
  | ui_row items => flat_map buttons items
  | ui_box items => flat_map buttons items
  end.

(** Pressing a button: the host runs the operator registered under the
    [bl_idname], if there is one; [index] is 0 unless the button sets
    it. *)
Definition press (button : string * option Z) : option (M OpStatus) :=
  let index := match snd button with Some i => i | None => 0 end in
  if String.eqb (fst button) "scene.add_cam_setting"
  then Some SCENE_OT_AddCamSetting_execute
  else if String.eqb (fst button) "scene.remove_cam_setting"
  then Some (SCENE_OT_RemoveCamSetting_execute index)
  else if String.eqb (fst button) "render.cheese_batch_render"
  then Some execute
  else None.

(** ** The transitions of a batch *)




(** The state in which the operator has stopped, [s] being the state
    after the job in hand, if there is one, has finished. *)
Definition stopped_state (s : State) : State :=
  with_modal_handler false (with_stdout (stdout s ++ [MsgAllDone]) s).

(** ** The renders and the files of a batch *)

Section FilesOfABatch.
Context {host : Host}.


(** The output path of the frame [frame] of a camera called [name], for a
    batch that began with the output path [P0] and the file format [F0]. *)
Definition planned_path (P0 F0 name : string) (frame : Z) : string :=
  os_path_join P0 (frame_filename name frame F0).


(** A render as the batch plans it: asked for by the job of a setting with
    a camera, with that camera as the scene's camera, in the context the
    setting's preview box selects, and with the output path of the camera
    and the frame.  The jobs of the batch have the references [base],
    [base + 1], ..., in the order of [settings]. *)
Definition planned_call (base : nat) (settings : list CameraSettings)
    (P0 F0 : string) (job : nat) (call : RenderCall) : Prop :=
  exists i cs cam,
    job = (base + i)%nat /\ settings !! i = Some cs /\
    camera cs = Some cam /\
    rc_camera call = Some cam /\
    rc_context call
    = (if show_preview cs then INVOKE_DEFAULT else EXEC_DEFAULT) /\
    rc_filepath call = planned_path P0 F0 (cam_name cam) (rc_frame call).



End FilesOfABatch.


(** ** The end of a batch *)


(** The host finishing the render in flight and then delivering a timer
    event, [n] times over. *)
Fixpoint cycles (n : nat) : list HostEvent :=
  match n with
  | O => []
  | S n' => RenderPost :: Window TIMER :: cycles n'
  end.



(** A job with the frames 1 to 1000 of a camera, all of them rendered
    before: the store holds the job alone, and the files of its frames
    are there. *)
Definition many_frames : list Z := count_up 1 1000.

Definition setting_long : CameraSettings :=
  {| camera := Some camA; frame_ranges := "1-1000"; show_preview := true |}.

Definition skipping_state : State :=
  with_disk
    (map (fun f => posix_join "/out" (frame_filename "CamA" f "PNG"))
         many_frames)
    (with_heap [new_job setting_long many_frames "/out"] demo_state).

(** ** What holds of a batch on any host *)

Section SafetyOfABatch.
Context {host : Host}.

(** What holds of a batch at every moment on any host, whether or not a
    call has found the stack full or the host has called a handler with
    arguments it does not take.  The jobs are those of the settings with
    a camera and keep the path [P0]; the frames they have left are frames
    of the plan; every render asked for is planned; a handler is
    registered only for the job in hand, which is then marked running and
    whose camera is the scene's; and the scene has the path [P0] as long
    as the batch has done nothing, and whenever the last thing it did was
    to finish a job. *)
Record batch_safe (base : nat) (settings : list CameraSettings)
    (P0 F0 : string) (tr0 : list Action) (plan : list (nat * Z))
    (k : nat) (new : list Action) (s : State) : Prop := {
  safe_started : (k <= length settings)%nat;
  safe_queue : op_jobs s = seq (base + k) (length settings - k);
  safe_current : op_current_job s = cur_of base k;
  safe_jobs :
    forall i cs, settings !! i = Some cs ->
      exists j cam,
        heap s !! (base + i)%nat = Some j /\ cam_setting j = cs /\
        camera cs = Some cam /\
        is_cancelled j = false /\ original_filepath j = P0;
  safe_frames :
    forall i, (i < length settings)%nat ->
      incl (job_frames s (base + i)) plan;
  safe_trace : trace s = (tr0 ++ new)%list;
  safe_format : file_format (render (scene s)) = F0;
  safe_calls :
    Forall (fun p => planned_call base settings P0 F0 (fst p) (snd p) /\
                     In (fst p, rc_frame (snd p)) plan)
           (render_calls new);
  safe_handler :
    (render_post s = [] /\ in_flight s = []) \/
    (exists cur j,
       cur_of base k = Some cur /\ heap s !! cur = Some j /\
       is_running j = true /\ render_post s = [cur] /\
       (length (in_flight s) <= 1)%nat /\
       scene_camera (scene s) = camera (cam_setting j));
  safe_restored :
    new = [] \/ (exists before job, new = (before ++ [Finish job])%list) ->
    filepath (render (scene s)) = P0
}.

End SafetyOfABatch.

(** * Proofs *)

(** ** Python built-ins *)

Lemma split_no_sep (c : ascii) (s : string) :
  Py.contains c s = false -> Py.split c s = [s].
Proof.
  induction s as [|a r IH]; simpl; [reflexivity|].
  intros H. apply orb_false_iff in H as [Ha Hr].
  rewrite Ha, (IH Hr). reflexivity.
Qed.

Lemma split_at_sep (c : ascii) (a b : string) :
  Py.contains c a = false ->
  Py.split c (a ++ String c b) = a :: Py.split c b.
Proof.
  induction a as [|x r IH]; simpl.
  - intros _. rewrite Ascii.eqb_refl. reflexivity.
  - intros H. apply orb_false_iff in H as [Hx Hr].
    rewrite Hx, (IH Hr). reflexivity.
Qed.

Lemma contains_app (c : ascii) (a b : string) :
  Py.contains c (a ++ b) = Py.contains c a || Py.contains c b.
Proof.
  induction a as [|x r IH]; simpl; [reflexivity|].
  rewrite IH. apply orb_assoc.
Qed.

Lemma is_digit_code (c : ascii) :
  is_digit c = true -> (48 <= Py.code c <= 57)%N.
Proof.
  unfold is_digit. intros H. apply andb_true_iff in H as [H1 H2].
  apply N.leb_le in H1, H2. lia.
Qed.

Lemma digit_value_digit (c : ascii) :
  is_digit c = true -> Py.digit_value c = Some (Z.of_N (Py.code c) - 48).
Proof. unfold is_digit, Py.digit_value. intros ->. reflexivity. Qed.

Lemma digit_not_char (c x : ascii) :
  is_digit c = true -> is_digit x = false -> Ascii.eqb c x = false.
Proof.
  intros Hc Hx. destruct (Ascii.eqb_spec c x) as [->|]; congruence.
Qed.

Lemma digit_not_space (c : ascii) : is_digit c = true -> Py.is_space c = false.
Proof.
  intros H. apply is_digit_code in H. unfold Py.is_space.
  apply orb_false_iff. split.
  - apply andb_false_iff. right. apply N.leb_gt. lia.
  - apply N.eqb_neq. lia.
Qed.

Lemma digit_to_scanner (c : ascii) :
  is_digit c = true -> Py.to_scanner_char c = Some c.
Proof.
  intros H. apply is_digit_code in H. unfold Py.to_scanner_char.
  replace (Py.code c <? 127)%N with true; [reflexivity|].
  symmetry. apply N.ltb_lt. lia.
Qed.

Lemma all_digits_no_char (x : ascii) (s : string) :
  is_digit x = false -> all_digits s = true -> Py.contains x s = false.
Proof.
  intros Hx. induction s as [|c r IH]; simpl; [reflexivity|].
  intros H. apply andb_true_iff in H as [Hc Hr].
  rewrite (digit_not_char c x Hc Hx), (IH Hr). reflexivity.
Qed.

Lemma is_decimal_all_digits (s : string) :
  is_decimal s = true -> all_digits s = true.
Proof. destruct s; [discriminate|exact id]. Qed.

Lemma to_scanner_digits (s : string) :
  all_digits s = true -> Py.to_scanner s = Some s.
Proof.
  induction s as [|c r IH]; simpl; [reflexivity|].
  intros H. apply andb_true_iff in H as [Hc Hr].
  rewrite (digit_to_scanner c Hc), (IH Hr). reflexivity.
Qed.

Lemma scan_digits_digits (s : string) (acc : Z) (n : nat) :
  all_digits s = true ->
  Py.scan_digits false acc n s
  = Some (decimal_value_from acc s, (n + String.length s)%nat, EmptyString).
Proof.
  revert acc n. induction s as [|c r IH]; simpl; intros acc n H.
  - rewrite Nat.add_0_r. reflexivity.
  - apply andb_true_iff in H as [Hc Hr].
    rewrite (digit_not_char c "_" Hc eq_refl), (digit_value_digit c Hc).
    rewrite (IH _ _ Hr). do 3 f_equal. lia.
Qed.

(** [int] reads a decimal numeral as its value. *)
Lemma int_decimal (d : string) :
  is_decimal d = true -> Py.int d = Some (decimal_value d).
Proof.
  intros H. pose proof (is_decimal_all_digits d H) as Hall.
  unfold Py.int. rewrite (to_scanner_digits d Hall).
  destruct d as [|c r]; [discriminate|].
  simpl in Hall. apply andb_true_iff in Hall as [Hc Hr].
  cbn [Py.skip_spaces]. rewrite (digit_not_space c Hc).
  cbn [Py.take_sign].
  rewrite (digit_not_char c "+" Hc eq_refl), (digit_not_char c "-" Hc eq_refl).
  cbn [Py.starts_with_underscore].
  rewrite (digit_not_char c "_" Hc eq_refl).
  rewrite scan_digits_digits by (simpl; rewrite Hc, Hr; reflexivity).
  reflexivity.
Qed.

Lemma count_up_range (start : Z) (n : nat) :
  count_up start n = map (fun i => start + Z.of_nat i) (seq 0 n).
Proof.
  revert start. induction n as [|k IH]; intros start; [reflexivity|].
  cbn [count_up seq map]. rewrite IH, <- seq_shift, map_map.
  f_equal; [lia|]. apply map_ext. intros i. lia.
Qed.

(** [range(first, last + 1)] is the inclusive sequence. *)
Lemma range_inclusive (first last : Z) :
  Py.range first (last + 1) = inclusive first last.
Proof.
  unfold Py.range, inclusive. rewrite count_up_range.
  replace (last + 1 - first) with (last - first + 1) by lia. reflexivity.
Qed.

Lemma inclusive_descending (first last : Z) :
  first > last -> inclusive first last = [].
Proof.
  intros H. unfold inclusive.
  replace (Z.to_nat (last - first + 1)) with 0%nat by lia. reflexivity.
Qed.

(** ** [_parse_frame_ranges] *)

(** A decimal numeral is an integer written without a minus sign. *)
Lemma decimal_unsigned_integer (d : string) :
  is_decimal d = true -> unsigned_integer d (decimal_value d).
Proof.
  intros H. split.
  - apply (all_digits_no_char "-" d eq_refl (is_decimal_all_digits d H)).
  - apply (int_decimal d H).
Qed.

(** An integer alone is appended as one frame. *)
Lemma parse_tokens_single (t : string) (n : Z) (rest : list string)
    (acc : list Z) :
  unsigned_integer t n ->
  parse_tokens (t :: rest) acc = parse_tokens rest (acc ++ [n]).
Proof.
  intros [Hc Hi]. cbn [parse_tokens]. rewrite Hc, Hi. reflexivity.
Qed.

(** Two integers around a dash are appended as the inclusive sequence
    between them, whatever their order. *)
Lemma parse_tokens_range (a b : string) (x y : Z) (rest : list string)
    (acc : list Z) :
  unsigned_integer a x -> unsigned_integer b y ->
  parse_tokens ((a ++ "-" ++ b) :: rest) acc
  = parse_tokens rest (acc ++ inclusive x y).
Proof.
  intros [Na Hx] [Nb Hy]. cbn [parse_tokens].
  rewrite contains_app. cbn [String.append Py.contains].
  rewrite Ascii.eqb_refl, orb_true_r.
  rewrite (split_at_sep "-" a b Na), (split_no_sep "-" b Nb).
  cbn [Py.unpack_two_ints]. rewrite Hx, Hy.
  rewrite range_inclusive. reflexivity.
Qed.

Lemma parse_tokens_expands (tokens : list string) (outs : list (list Z))
    (acc : list Z) (st : State) :
  Forall2 token_expands tokens outs ->
  parse_tokens tokens acc st = (st, Return (acc ++ concat outs)%list).
Proof.
  intros H. revert acc. induction H as [|t out ts os Ht _ IH]; intros acc.
  - cbn. rewrite app_nil_r. reflexivity.
  - cbn [concat]. rewrite app_assoc.
    destruct Ht as [d n Hd | a b x y Ha Hb _].
    + rewrite (parse_tokens_single d n ts acc Hd). apply IH.
    + rewrite (parse_tokens_range a b x y ts acc Ha Hb). apply IH.
Qed.

(** C1 as stated fails: a negative integer is a single decimal integer,
    but its minus sign is taken for the dash of a range, and the conversion
    of the empty left side raises. *)
Lemma negative_integer_raises :
  Py.int "-5" = Some (-5) /\
  _parse_frame_ranges "-5" empty_state
  = (empty_state, Raise (ValueError_invalid_literal "")).
Proof. split; reflexivity. Qed.

(** C1, amended.  When every comma-separated token of the frame-range
    string is well formed (an integer written without a minus sign, or two
    such integers [start-end] with [start <= end]), parsing returns the
    concatenation, in token order, of the expansions of the tokens: the one
    frame of an integer, the inclusive ascending sequence of a range.
    Nothing is printed. *)
Theorem parse_well_formed_tokens (s : string) (outs : list (list Z))
    (st : State) :
  Forall2 token_expands (Py.split "," s) outs ->
  _parse_frame_ranges s st = (st, Return (concat outs)).
Proof.
  intros H. unfold _parse_frame_ranges.
  apply (parse_tokens_expands _ _ [] st H).
Qed.

Lemma parse_well_formed_tokens_witness :
  _parse_frame_ranges "11,25,250-252" empty_state
  = (empty_state, Return [11; 25; 250; 251; 252]).
Proof.
  apply (parse_well_formed_tokens "11,25,250-252"
           [[11]; [25]; [250; 251; 252]] empty_state).
  repeat (constructor 2; [|]); [ | | | constructor 1].
  - exact (expands_single "11" 11 (conj eq_refl eq_refl)).
  - exact (expands_single "25" 25 (conj eq_refl eq_refl)).
  - refine (expands_range "250" "252" 250 252 (conj eq_refl eq_refl)
              (conj eq_refl eq_refl) _).
    vm_compute. discriminate.
Defined.

(** The decimal numerals and the ranges of two of them are well formed. *)
Lemma decimal_tokens_expand (a b : string) :
  is_decimal a = true -> is_decimal b = true ->
  decimal_value a <= decimal_value b ->
  token_expands a [decimal_value a] /\
  token_expands (a ++ "-" ++ b)
                (inclusive (decimal_value a) (decimal_value b)).
Proof.
  intros Ha Hb Hle.
  pose proof (decimal_unsigned_integer a Ha) as Ua.
  pose proof (decimal_unsigned_integer b Hb) as Ub.
  split; [apply expands_single, Ua|apply expands_range; assumption].
Qed.

(** C2, at the input where it fails.  A token with a dash is converted
    outside the [try]: when one of its sides is not an integer the
    [ValueError] leaves [_parse_frame_ranges], and the frames of the tokens
    before it are lost with it. *)
Theorem parse_raises_on_malformed_range (st : State) :
  _parse_frame_ranges "1,a-b" st = (st, Raise (ValueError_invalid_literal "a")).
Proof. reflexivity. Qed.

(** A token without a dash that is not an integer is passed over with a
    line of diagnostic: the branch that has the [try]. *)
Lemma parse_tokens_skips_invalid (t : string) (rest : list string)
    (acc : list Z) (st : State) :
  Py.contains "-" t = false -> Py.int t = None ->
  parse_tokens (t :: rest) acc st
  = parse_tokens rest acc (with_stdout (stdout st ++ [MsgInvalidRange t]) st).
Proof. intros Hc Hi. cbn [parse_tokens]. rewrite Hc, Hi. reflexivity. Qed.

(** The other ways in which a token with a dash raises. *)
Example parse_raises_samples :
  map (fun s => snd (_parse_frame_ranges s empty_state))
      ["-5"; "10-"; "1-2-3"; "1-2-x"]
  = [Raise (ValueError_invalid_literal "");
     Raise (ValueError_invalid_literal "");
     Raise ValueError_too_many_values;
     Raise (ValueError_invalid_literal "x")].
Proof. reflexivity. Qed.

(** C3 as stated fails: a descending range does not raise. *)
Lemma descending_range_returns :
  unsigned_integer "5" 5 /\ unsigned_integer "3" 3 /\ 5 > 3 /\
  _parse_frame_ranges "5-3" empty_state = (empty_state, Return []).
Proof. repeat split. Qed.

(** C3, amended.  A token [start-end] of two integers written without a
    minus sign, with [start > end], raises nothing and contributes no
    frame: the loop goes on with the next token and the same list, and
    the token alone (a token has no comma in it) parses to the empty
    list. *)
Theorem parse_descending_range (a b : string) (x y : Z)
    (rest : list string) (acc : list Z) (st : State) :
  unsigned_integer a x -> unsigned_integer b y -> x > y ->
  Py.contains "," a = false -> Py.contains "," b = false ->
  parse_tokens ((a ++ "-" ++ b) :: rest) acc = parse_tokens rest acc /\
  _parse_frame_ranges (a ++ "-" ++ b) st = (st, Return []).
Proof.
  intros Ha Hb Hgt Na Nb.
  assert (Hstep : forall r c,
            parse_tokens ((a ++ "-" ++ b) :: r) c = parse_tokens r c).
  { intros r c. rewrite (parse_tokens_range a b x y r c Ha Hb).
    rewrite (inclusive_descending _ _ Hgt), app_nil_r. reflexivity. }
  split; [apply Hstep|].
  unfold _parse_frame_ranges. rewrite split_no_sep.
  - rewrite Hstep. reflexivity.
  - rewrite contains_app. cbn [String.append Py.contains].
    rewrite Na, Nb. reflexivity.
Qed.

Lemma parse_descending_range_witness :
  parse_tokens ["5-3"; "7"] [1] = parse_tokens ["7"] [1] /\
  _parse_frame_ranges "5-3" empty_state = (empty_state, Return []).
Proof.
  apply (parse_descending_range "5" "3" 5 3 ["7"] [1] empty_state);
    repeat split.
Defined.

(** ** [RenderJob.finish] *)

Lemma finish_with_camera (self : nat) (j : RenderJob) (cam : Camera)
    (s : State) :
  heap s !! self = Some j -> camera (cam_setting j) = Some cam ->
  finish self s = (finished_state self j (cam_name cam) s, Return tt).
Proof.
  intros Hj Hc.
  unfold finish, bind, record, modify, get_job, put_job, camera_name, print.
  cbn. rewrite Hj. cbn. rewrite Hc. reflexivity.
Qed.

(** Without a camera the line that [finish] prints cannot be built: the
    job is marked idle and the path restored, then [AttributeError]. *)
Lemma finish_without_camera (self : nat) (j : RenderJob) (s : State) :
  heap s !! self = Some j -> camera (cam_setting j) = None ->
  finish self s
  = (with_scene (set_render (set_filepath (original_filepath j)
                                          (render (scene s))) (scene s))
       (with_heap (<[self := set_is_running false j]> (heap s))
          (with_trace (trace s ++ [Finish self]) s)),
     Raise (AttributeError_None "name")).
Proof.
  intros Hj Hc.
  unfold finish, bind, record, modify, get_job, put_job, camera_name, print.
  cbn. rewrite Hj. cbn. rewrite Hc. reflexivity.
Qed.

(** ** Construction of the jobs *)

(** Parsing only prints. *)
Lemma parse_tokens_only_prints (tokens : list string) (acc : list Z)
    (s : State) :
  exists msgs,
    fst (parse_tokens tokens acc s) = with_stdout (stdout s ++ msgs) s.
Proof.
  revert acc s. induction tokens as [|t ts IH]; intros acc s.
  - exists []. cbn. rewrite app_nil_r. destruct s; reflexivity.
  - cbn [parse_tokens]. destruct (Py.contains "-" t).
    + destruct (Py.unpack_two_ints (Py.split "-" t)) as [[a b]|e].
      * apply IH.
      * exists []. cbn. rewrite app_nil_r. destruct s; reflexivity.
    + destruct (Py.int t) as [n|].
      * apply IH.
      * unfold bind, print, modify.
        destruct (IH acc (with_stdout (stdout s ++ [MsgInvalidRange t]) s))
          as [msgs Hm].
        exists (MsgInvalidRange t :: msgs).
        destruct (parse_tokens ts acc _) as [s' [r|e]] eqn:E;
          cbn in Hm |- *; rewrite Hm, <- app_assoc; reflexivity.
Qed.

(** What parsing returns does not depend on the state. *)
Lemma parse_tokens_outcome (tokens : list string) (acc : list Z)
    (s s' : State) :
  snd (parse_tokens tokens acc s) = snd (parse_tokens tokens acc s').
Proof.
  revert acc s s'. induction tokens as [|t ts IH]; intros acc s s'.
  - reflexivity.
  - cbn [parse_tokens]. destruct (Py.contains "-" t).
    + destruct (Py.unpack_two_ints (Py.split "-" t)) as [[a b]|e];
        [apply IH|reflexivity].
    + destruct (Py.int t) as [n|]; [apply IH|].
      unfold bind, print, modify.
      specialize (IH acc (with_stdout (stdout s ++ [MsgInvalidRange t]) s)
                     (with_stdout (stdout s' ++ [MsgInvalidRange t]) s')).
      destruct (parse_tokens ts acc (with_stdout (stdout s ++ _) s))
        as [s1 [r1|e1]];
      destruct (parse_tokens ts acc (with_stdout (stdout s' ++ _) s'))
        as [s2 [r2|e2]]; cbn in IH |- *; exact IH.
Qed.

Lemma new_RenderJob_returns (cs : CameraSettings) (s s' : State) (self : nat) :
  new_RenderJob cs s = (s', Return self) ->
  exists fs msgs,
    parsed_frames (frame_ranges cs) = Return fs /\
    self = length (heap s) /\
    s' = with_heap (heap s ++ [new_job cs fs (filepath (render (scene s)))])
           (with_stdout (stdout s ++ msgs) s).
Proof.
  unfold new_RenderJob, bind, get, modify, ret, _parse_frame_ranges, parsed_frames,
    _parse_frame_ranges.
  destruct (parse_tokens_only_prints (Py.split "," (frame_ranges cs)) [] s)
    as [msgs Hm].
  pose proof (parse_tokens_outcome (Py.split "," (frame_ranges cs)) [] s
                empty_state) as Ho.
  destruct (parse_tokens _ [] s) as [s1 [fs|e]]; [|discriminate].
  cbn in Hm, Ho. subst s1. intros [= <- <-].
  exists fs, msgs. split; [symmetry; exact Ho|]. split; reflexivity.
Qed.

Section MethodProofs.
Context {host : Host}.

Lemma build_jobs_returns (css : list CameraSettings) (s s' : State)
    (ids : list nat) :
  build_jobs css s = (s', Return ids) ->
  exists fss msgs,
    Forall2 (fun cs fs => parsed_frames (frame_ranges cs) = Return fs)
            (with_camera css) fss /\
    ids = seq (length (heap s)) (length fss) /\
    s' = with_heap (heap s ++ make_jobs (filepath (render (scene s)))
                                        (with_camera css) fss)
           (with_stdout (stdout s ++ msgs) s).
Proof.
  revert s s' ids. induction css as [|cs css IH]; intros s s' ids.
  - cbn. intros [= <- <-]. exists [], []. split; [constructor|].
    split; [reflexivity|]. cbn. rewrite !app_nil_r. destruct s; reflexivity.
  - cbn [build_jobs with_camera List.filter].
    destruct (camera cs) as [cam|]; [|apply IH].
    unfold bind at 1.
    destruct (new_RenderJob cs s) as [s1 [self|e]] eqn:E1; [|discriminate].
    apply new_RenderJob_returns in E1 as (fs & msgs1 & Hfs & -> & ->).
    unfold bind at 1.
    destruct (build_jobs css _) as [s2 [js|e]] eqn:E2; [|discriminate].
    apply IH in E2 as (fss & msgs2 & Hfss & -> & ->).
    cbn. intros [= <- <-].
    exists (fs :: fss), (msgs1 ++ msgs2)%list.
    split; [constructor; assumption|].
    rewrite length_app. cbn [length].
    split; [cbn [seq length]; f_equal; f_equal; lia|].
    unfold make_jobs. cbn. rewrite <- !app_assoc. reflexivity.
Qed.

Lemma build_jobs_no_camera (css : list CameraSettings) (s : State) :
  Forall (fun cs => camera cs = None) css ->
  build_jobs css s = (s, Return []).
Proof.
  induction 1 as [|cs css Hc _ IH]; [reflexivity|].
  cbn [build_jobs]. rewrite Hc. exact IH.
Qed.

Lemma execute_running (s0 s1 : State) :
  execute s0 = (s1, Return RUNNING_MODAL) ->
  exists fss msgs,
    Forall2 (fun cs fs => parsed_frames (frame_ranges cs) = Return fs)
            (with_camera (cam_settings (scene s0))) fss /\
    fss <> [] /\
    s1 = batch_state s0 fss msgs.
Proof.
  unfold execute, bind at 1, get. unfold bind at 1.
  destruct (build_jobs _ s0) as [s' [ids|e]] eqn:E; [|discriminate].
  apply build_jobs_returns in E as (fss & msgs & Hfss & -> & ->).
  destruct fss as [|fs fss]; [discriminate|].
  cbn. intros [= <-]. exists (fs :: fss), msgs.
  split; [assumption|]. split; [discriminate|]. reflexivity.
Qed.

(** ** [render_next_frame] *)

Lemma enter_fits (entry : Entry) (depth : nat) (callee : Callee) (s : State) :
  fits entry depth -> enter entry depth callee s = (s, Return tt).
Proof.
  intros Hf. unfold enter. specialize (Hf callee).
  apply Nat.leb_le in Hf. rewrite Hf. reflexivity.
Qed.

Lemma fits_0 (entry : Entry) : fits entry 0.
Proof. intros callee. lia. Qed.

Lemma fits_le (entry : Entry) (d d' : nat) :
  (d <= d')%nat -> fits entry d' -> fits entry d.
Proof. intros Hle Hf callee. specialize (Hf callee). lia. Qed.

(** One turn of [render_next_frame] on a job with a camera that is not
    cancelled, while the stack has room: the head of the list is popped
    and visited; then either the file is there and must be kept, and the
    method calls itself on the rest, or the render is requested. *)
Lemma render_frames_cons (entry : Entry) (depth : nat) (self : nat)
    (j : RenderJob) (cam : Camera) (frame : Z) (rest : list Z) (s : State) :
  heap s !! self = Some j -> is_cancelled j = false ->
  camera (cam_setting j) = Some cam -> fits entry depth ->
  let path := frame_path j (cam_name cam) frame s in
  let sv := visit_state self j rest frame path s in
  render_frames entry depth self (frame :: rest) s
  = if already_rendered path s
    then render_frames entry (S depth) self rest
           (with_stdout (stdout s ++ [MsgSkipping frame (cam_name cam)]) sv)
    else (requested_state self (set_frames rest j) sv, Return tt).
Proof.
  intros Hj Hc Hcam Hfit path sv.
  pose proof (lookup_lt_Some _ _ _ Hj) as Hlt.
  assert (Hleb : forall callee, (depth <=? stack_cap entry callee)%nat = true).
  { intros callee. apply Nat.leb_le, Hfit. }
  cbn [render_frames].
  unfold bind at 1. unfold get_job at 1. rewrite Hj, Hc.
  unfold bind, put_job, record, modify, get, camera_name, enter, ret.
  rewrite Hcam. unfold ret. rewrite !Hleb.
  unfold already_rendered, isfile. subst sv path. unfold frame_path.
  cbn -[render_frames Nat.leb].
  destruct (use_overwrite (render (scene s))); cbn -[render_frames Nat.leb].
  - unfold get_job, ops_render, bind, get, record, modify, ret.
    cbn -[Nat.leb].
    rewrite list_lookup_insert_eq by exact Hlt. rewrite ?Hleb. reflexivity.
  - rewrite ?Hleb. cbn -[render_frames Nat.leb].
    match goal with |- context [if ?c then _ else _] => destruct c end.
    + rewrite ?Hleb. reflexivity.
    + unfold get_job, ops_render, bind, get, record, modify, ret.
      cbn -[Nat.leb].
      rewrite list_lookup_insert_eq by exact Hlt. rewrite ?Hleb. reflexivity.
Qed.

Lemma render_frames_nil (entry : Entry) (depth : nat) (self : nat)
    (j : RenderJob) (s : State) :
  heap s !! self = Some j -> fits entry depth ->
  render_frames entry depth self [] s = finish self s.
Proof.
  intros Hj Hfit. cbn. unfold bind at 1. unfold get_job at 1. rewrite Hj.
  unfold bind at 1. rewrite (enter_fits _ _ _ _ Hfit). reflexivity.
Qed.

Lemma render_next_frame_frames (entry : Entry) (self : nat) (j : RenderJob)
    (s : State) :
  heap s !! self = Some j ->
  render_next_frame entry self s = render_frames entry 0 self (frames j) s.
Proof.
  intros Hj. unfold render_next_frame, bind, get_job. rewrite Hj.
  reflexivity.
Qed.

End MethodProofs.

Section FrameProofs.
Context {host : Host}.

Lemma set_frames_same (j : RenderJob) : set_frames (frames j) j = j.
Proof. destruct j; reflexivity. Qed.

Lemma unchanged_by_job_refl (s : State) : unchanged_by_job s s.
Proof. repeat split. Qed.

(** While the stack has room, [render_next_frame] returns. *)
Lemma render_frames_result (entry : Entry) (self : nat) (cam : Camera)
    (fs : list Z) :
  forall (depth : nat) (j : RenderJob) (s : State),
  heap s !! self = Some j -> is_cancelled j = false ->
  camera (cam_setting j) = Some cam -> frames j = fs ->
  fits entry (depth + nesting s fs) ->
  exists s',
    render_frames entry depth self fs s = (s', Return tt) /\
    frames_result self j (cam_name cam) fs s s'.
Proof.
  induction fs as [|f rest IH]; intros depth j s Hj Hc Hcam Hfs Hfit.
  - assert (Hfit0 : fits entry depth).
    { eapply fits_le; [|exact Hfit]. lia. }
    rewrite (render_frames_nil entry depth self j s Hj Hfit0).
    rewrite (finish_with_camera self j cam s Hj Hcam).
    eexists. split; [reflexivity|].
    apply result_finished; try reflexivity.
    + constructor.
    + cbn. rewrite <- Hfs, set_frames_same. reflexivity.
    + repeat split.
  - pose proof (lookup_lt_Some _ _ _ Hj) as Hlt.
    assert (Hfit0 : fits entry depth).
    { eapply fits_le; [|exact Hfit]. lia. }
    rewrite (render_frames_cons entry depth self j cam f rest s Hj Hc Hcam
               Hfit0).
    destruct (already_rendered (frame_path j (cam_name cam) f s) s) eqn:Hskip.
    + set (s2 := with_stdout _ _).
      assert (Hov : use_overwrite (render (scene s)) = false).
      { unfold already_rendered in Hskip.
        destruct (use_overwrite (render (scene s))); [discriminate|reflexivity]. }
      destruct (IH (S depth) (set_frames rest j) s2) as (s' & Hrun & Hres);
        try assumption; try reflexivity.
      { cbn. apply list_lookup_insert_eq. exact Hlt. }
      { unfold nesting in Hfit |- *.
        change (use_overwrite (render (scene s2)))
          with (use_overwrite (render (scene s))).
        rewrite Hov in Hfit |- *. cbn [length] in Hfit.
        eapply fits_le; [|exact Hfit]. lia. }
      exists s'. split; [exact Hrun|].
      destruct Hres as [sk g rest' Hsplit Hsk Hg Htr Hheap Hfl Hrp Hfc Hfp Hun
                       | Hsk Htr Hheap Hfl Hrp Hfp Hun].
      * apply (result_running _ _ _ _ _ _ (f :: sk) g rest').
        -- rewrite Hsplit. reflexivity.
        -- constructor; [exact Hskip|exact Hsk].
        -- exact Hg.
        -- rewrite Htr. cbn. rewrite <- app_assoc. reflexivity.
        -- rewrite Hheap. cbn. rewrite list_insert_insert_eq. reflexivity.
        -- exact Hfl.
        -- exact Hrp.
        -- exact Hfc.
        -- exact Hfp.
        -- exact Hun.
      * apply result_finished.
        -- constructor; [exact Hskip|exact Hsk].
        -- rewrite Htr. cbn. rewrite <- app_assoc. reflexivity.
        -- rewrite Hheap. cbn. rewrite list_insert_insert_eq. reflexivity.
        -- exact Hfl.
        -- exact Hrp.
        -- exact Hfp.
        -- exact Hun.
    + eexists. split; [reflexivity|].
      apply (result_running _ _ _ _ _ _ [] f rest); try reflexivity.
      * constructor.
      * exact Hskip.
      * cbn. rewrite <- app_assoc. reflexivity.
      * cbn. rewrite list_insert_insert_eq. reflexivity.
      * repeat split.
Qed.

End FrameProofs.

Section FrameOutcomes.
Context {host : Host}.

Lemma set_is_running_same (j : RenderJob) (fs : list Z) :
  set_is_running (is_running j) (set_frames fs j) = set_frames fs j.
Proof. destruct j; reflexivity. Qed.

(** Whatever room the stack has, [render_next_frame] ends in one of the
    ways of [frames_outcome]. *)
Ltac overflow_leaf f :=
  first [ reflexivity | discriminate
        | cbn; rewrite app_nil_r; reflexivity
        | left; reflexivity
        | right; exists f; split; [left; reflexivity|reflexivity]
        | solve [repeat split] ].

Lemma render_frames_outcome (entry : Entry) (self : nat) (cam : Camera)
    (fs : list Z) :
  forall (depth : nat) (j : RenderJob) (s : State),
  heap s !! self = Some j -> is_cancelled j = false ->
  camera (cam_setting j) = Some cam -> frames j = fs ->
  exists s' r,
    render_frames entry depth self fs s = (s', r) /\
    frames_outcome self j (cam_name cam) fs s s' r.
Proof.
  induction fs as [|f rest IH]; intros depth j s Hj Hc Hcam Hfs.
  - cbn [render_frames]. unfold bind at 1. unfold get_job at 1. rewrite Hj.
    unfold bind at 1, enter, ret, raise.
    destruct (depth <=? stack_cap entry call_finish)%nat; cbn beta iota.
    + rewrite (finish_with_camera self j cam s Hj Hcam).
      eexists _, _. split; [reflexivity|].
      apply outcome_returns, result_finished; try reflexivity.
      * constructor.
      * cbn. rewrite <- Hfs, set_frames_same. reflexivity.
      * repeat split.
    + exists s, (Raise RecursionError). split; [reflexivity|].
      apply (outcome_overflow _ _ _ _ _ _ [] [] false); try reflexivity.
      * discriminate.
      * rewrite app_nil_r. reflexivity.
      * rewrite set_is_running_same, <- Hfs, set_frames_same.
        symmetry. apply list_insert_id. exact Hj.
      * rewrite app_nil_r. reflexivity.
      * left. reflexivity.
      * repeat split.
  - pose proof (lookup_lt_Some _ _ _ Hj) as Hlt.
    cbn [render_frames].
    unfold bind at 1. unfold get_job at 1. rewrite Hj, Hc.
    unfold bind, put_job, record, modify, get, camera_name, enter, ret.
    rewrite Hcam. unfold ret, raise.
    cbn -[render_frames Nat.leb].
    destruct (depth <=? stack_cap entry call_os_path_join)%nat.
    2:{ eexists _, _. split; [reflexivity|].
        apply (outcome_overflow _ _ _ _ _ _ [f] rest false); overflow_leaf f. }
    cbn -[render_frames Nat.leb].
    set (path := os_path_join (original_filepath j)
                   (frame_filename (cam_name cam) f
                      (file_format (render (scene s))))).
    assert (Hask :
      exists s' r,
        (let (s'0, o) :=
           (if (depth <=? stack_cap entry call_ops_render)%nat
            then fun s0 : State => (s0, Return tt)
            else fun s0 : State => (s0, Raise RecursionError))
             (with_render_post
                (render_post s ++ [self])
                (with_heap
                   (<[self := set_is_running true (set_frames rest j)]>
                      (heap s))
                   (visit_state self j rest f path s))) in
         match o with
         | Return _ =>
             ops_render self
               (if show_preview (cam_setting j) then INVOKE_DEFAULT
                else EXEC_DEFAULT) s'0
         | Raise e => (s'0, Raise e)
         end) = (s', r) /\
        (already_rendered (frame_path j (cam_name cam) f s) s = false ->
         frames_outcome self j (cam_name cam) (f :: rest) s s' r)).
    { destruct (depth <=? stack_cap entry call_ops_render)%nat.
      - unfold ops_render, bind, get, record, modify. cbn beta iota.
        eexists _, _. split; [reflexivity|]. intros Hno.
        apply outcome_returns.
        apply (result_running _ _ _ _ _ _ [] f rest); try reflexivity.
        + constructor.
        + exact Hno.
        + cbn. rewrite <- app_assoc. reflexivity.
        + repeat split.
      - eexists _, _. split; [reflexivity|]. intros _.
        apply (outcome_overflow _ _ _ _ _ _ [f] rest true); overflow_leaf f. }
    assert (Hput : forall s0 : State,
              heap s0 = <[self := set_frames rest j]> (heap s) ->
              heap s0 !! self = Some (set_frames rest j)).
    { intros s0 ->. apply list_lookup_insert_eq. exact Hlt. }
    destruct (use_overwrite (render (scene s))) eqn:Hov;
      cbn -[render_frames Nat.leb].
    { unfold get_job, bind, modify. cbn -[Nat.leb ops_render].
      rewrite list_lookup_insert_eq by exact Hlt.
      cbn -[Nat.leb ops_render]. rewrite list_insert_insert_eq.
      destruct Hask as (s' & r & Hrun & Hout).
      exists s', r. split; [exact Hrun|]. apply Hout.
      unfold already_rendered. rewrite Hov. reflexivity. }
    destruct (depth <=? stack_cap entry (call_bpy_path_abspath path))%nat.
    2:{ eexists _, _. split; [reflexivity|].
        apply (outcome_overflow _ _ _ _ _ _ [f] rest false); overflow_leaf f. }
    cbn -[render_frames Nat.leb].
    destruct (depth <=? stack_cap entry call_os_path_isfile)%nat.
    2:{ eexists _, _. split; [reflexivity|].
        apply (outcome_overflow _ _ _ _ _ _ [f] rest false); overflow_leaf f. }
    cbn -[render_frames Nat.leb].
    destruct (existsb (String.eqb (bpy_path_abspath path)) (disk s))
      eqn:Hfile.
    2:{ unfold get_job, bind, modify. cbn -[Nat.leb ops_render].
        rewrite list_lookup_insert_eq by exact Hlt.
        cbn -[Nat.leb ops_render]. rewrite list_insert_insert_eq.
        destruct Hask as (s' & r & Hrun & Hout).
        exists s', r. split; [exact Hrun|]. apply Hout.
        unfold already_rendered. rewrite Hov. cbn. exact Hfile. }
    assert (Hskip : already_rendered (frame_path j (cam_name cam) f s) s
                    = true).
    { unfold already_rendered. rewrite Hov. cbn. exact Hfile. }
    destruct (depth <=? stack_cap entry call_render_next_frame)%nat.
    2:{ eexists _, _. split; [reflexivity|].
        apply (outcome_overflow _ _ _ _ _ _ [f] rest false); overflow_leaf f. }
    set (s2 := with_stdout _ _).
    destruct (IH (S depth) (set_frames rest j) s2) as (s' & r & Hrun & Hres);
      try assumption; try reflexivity.
    { cbn. apply list_lookup_insert_eq. exact Hlt. }
    exists s', r. split; [exact Hrun|].
    destruct Hres as [Hres | visited rest' asked Hsplit Hnil Hasked Htr Hheap
                                Hrp Hfl Hpath Hun].
    + apply outcome_returns.
      destruct Hres as [sk g rest' Hsplit Hsk Hg Htr Hheap Hfl Hrp Hfc Hfp Hun
                       | Hsk Htr Hheap Hfl Hrp Hfp Hun].
      * apply (result_running _ _ _ _ _ _ (f :: sk) g rest').
        -- rewrite Hsplit. reflexivity.
        -- constructor; [exact Hskip|exact Hsk].
        -- exact Hg.
        -- rewrite Htr. cbn. rewrite <- app_assoc. reflexivity.
        -- rewrite Hheap. cbn. rewrite list_insert_insert_eq. reflexivity.
        -- exact Hfl.
        -- exact Hrp.
        -- exact Hfc.
        -- exact Hfp.
        -- exact Hun.
      * apply result_finished.
        -- constructor; [exact Hskip|exact Hsk].
        -- rewrite Htr. cbn. rewrite <- app_assoc. reflexivity.
        -- rewrite Hheap. cbn. rewrite list_insert_insert_eq. reflexivity.
        -- exact Hfl.
        -- exact Hrp.
        -- exact Hfp.
        -- exact Hun.
    + apply (outcome_overflow _ _ _ _ _ _ (f :: visited) rest' asked).
      * cbn in Hsplit. rewrite Hsplit. reflexivity.
      * discriminate.
      * intros _. discriminate.
      * rewrite Htr. cbn. rewrite <- app_assoc. reflexivity.
      * rewrite Hheap. cbn. rewrite list_insert_insert_eq. reflexivity.
      * exact Hrp.
      * exact Hfl.
      * right. destruct Hpath as [Hp | (g & Hg & Hp)].
        -- exists f. split; [left; reflexivity|]. rewrite Hp. reflexivity.
        -- exists g. split; [right; exact Hg|]. rewrite Hp. reflexivity.
      * exact Hun.
Qed.

End FrameOutcomes.

Section ClaimsOfOneJob.
Context {host : Host}.

Lemma render_frames_cancelled (entry : Entry) (depth : nat) (self : nat)
    (j : RenderJob) (fs : list Z) (s : State) :
  heap s !! self = Some j -> is_cancelled j = true ->
  render_frames entry depth self fs s
  = (enter entry depth call_finish ;; finish self) s.
Proof.
  intros Hj Hc. destruct fs as [|f rest].
  - cbn. unfold bind at 1. unfold get_job at 1. rewrite Hj. reflexivity.
  - cbn [render_frames]. unfold bind at 1. unfold get_job at 1.
    rewrite Hj, Hc. reflexivity.
Qed.

Lemma finish_trace (self : nat) (j : RenderJob) (s : State) :
  heap s !! self = Some j ->
  trace (fst (finish self s)) = (trace s ++ [Finish self])%list.
Proof.
  intros Hj. destruct (camera (cam_setting j)) as [cam|] eqn:Hc.
  - rewrite (finish_with_camera self j cam s Hj Hc). reflexivity.
  - rewrite (finish_without_camera self j s Hj Hc). reflexivity.
Qed.

(** C6.  Every render that [render_next_frame] requests for a job with
    camera [cam] and recorded directory [original_filepath j] is requested
    with the output path [os.path.join(D, "C_frameF.E")], where [F] is the
    frame of the call, one of the job's frames, and [E] the lowercased
    file format; the path is the scene's output path when the call is
    made, and the frame its current frame. *)
Theorem output_path_of_render (entry : Entry) (self : nat) (j : RenderJob)
    (cam : Camera) (s : State) :
  heap s !! self = Some j -> camera (cam_setting j) = Some cam ->
  let s' := fst (render_next_frame entry self s) in
  forall job call,
    In (Render job call) (trace s') ->
    In (Render job call) (trace s) \/
    (job = self /\ In (rc_frame call) (frames j) /\
     rc_filepath call
     = os_path_join (original_filepath j)
         (cam_name cam ++ "_frame" ++ Py.str (rc_frame call)
            ++ "." ++ Py.lower (file_format (render (scene s)))) /\
     filepath (render (scene s')) = rc_filepath call /\
     frame_current (scene s') = rc_frame call /\
     In call (in_flight s')).
Proof.
  intros Hj Hcam s' job call Hin. subst s'.
  rewrite (render_next_frame_frames entry self j s Hj) in Hin |- *.
  destruct (is_cancelled j) eqn:Hc.
  - rewrite (render_frames_cancelled entry 0 self j _ s Hj Hc) in Hin.
    unfold bind at 1 in Hin. rewrite (enter_fits _ _ _ _ (fits_0 entry)) in Hin.
    rewrite (finish_trace self j s Hj) in Hin.
    apply in_app_or in Hin as [Hin|[[=]|[]]]. left. exact Hin.
  - destruct (render_frames_outcome entry self cam (frames j) 0 j s Hj Hc Hcam
                eq_refl) as (s' & r & Hrun & Hout).
    rewrite Hrun in Hin |- *. cbn [fst] in Hin |- *.
    destruct Hout as [Hres | visited rest asked _ _ _ Htr _ _ _ _ _].
    + destruct Hres as [sk g rest' Hsplit _ _ Htr _ Hfl _ Hfc Hfp _
                       | _ Htr _ _ _ _ _];
        rewrite Htr in Hin; apply in_app_or in Hin as [Hin|Hin];
        try (left; exact Hin); apply in_app_or in Hin as [Hin|Hin].
      * apply in_map_iff in Hin as (x & Hx & _). discriminate.
      * destruct Hin as [[= <- <-]|[]]. right. cbn [rc_frame rc_filepath].
        split; [reflexivity|]. split.
        { rewrite Hsplit. apply in_or_app. right. left. reflexivity. }
        split; [reflexivity|]. split; [exact Hfp|]. split; [exact Hfc|].
        rewrite Hfl. apply in_or_app. right. left. reflexivity.
      * apply in_map_iff in Hin as (x & Hx & _). discriminate.
      * destruct Hin as [[=]|[]].
    + rewrite Htr in Hin. apply in_app_or in Hin as [Hin|Hin];
        [left; exact Hin|].
      apply in_map_iff in Hin as (x & Hx & _). discriminate.
Qed.

(** X17.  When overwriting is off and the output file of the frame at the
    head of a job's list exists, [render_next_frame], at any nesting at
    which the stack has room, pops and visits the frame and goes on at
    once with the rest of the list, one call deeper; no render is
    requested for that frame number, however the call ends. *)
Theorem skip_existing_frame (entry : Entry) (depth : nat) (self : nat)
    (j : RenderJob) (cam : Camera) (frame : Z) (rest : list Z) (s : State) :
  heap s !! self = Some j -> frames j = frame :: rest ->
  is_cancelled j = false -> camera (cam_setting j) = Some cam ->
  use_overwrite (render (scene s)) = false ->
  isfile (bpy_path_abspath (frame_path j (cam_name cam) frame s)) s = true ->
  fits entry depth ->
  let skipped :=
    with_stdout (stdout s ++ [MsgSkipping frame (cam_name cam)])
      (visit_state self j rest frame (frame_path j (cam_name cam) frame s) s) in
  render_frames entry depth self (frame :: rest) s
  = render_frames entry (S depth) self rest skipped /\
  heap skipped !! self = Some (set_frames rest j) /\
  trace skipped = (trace s ++ [FrameSet self frame])%list /\
  in_flight skipped = in_flight s /\
  (forall job call,
     In (Render job call)
        (trace (fst (render_frames entry depth self (frame :: rest) s))) ->
     rc_frame call = frame -> In (Render job call) (trace s)).
Proof.
  intros Hj Hfs Hc Hcam Hov Hfile Hfit skipped.
  pose proof (lookup_lt_Some _ _ _ Hj) as Hlt.
  assert (Hskip : already_rendered (frame_path j (cam_name cam) frame s) s
                  = true).
  { unfold already_rendered. rewrite Hov, Hfile. reflexivity. }
  assert (Hj2 : heap skipped !! self = Some (set_frames rest j)).
  { cbn. apply list_lookup_insert_eq. exact Hlt. }
  split; [|split; [exact Hj2|split; [reflexivity|split; [reflexivity|]]]].
  - rewrite (render_frames_cons entry depth self j cam frame rest s Hj Hc Hcam
               Hfit), Hskip.
    reflexivity.
  - intros job call Hin Hframe.
    destruct (render_frames_outcome entry self cam (frame :: rest) depth j s
                Hj Hc Hcam Hfs) as (s' & r & Hrun & Hout).
    rewrite Hrun in Hin. cbn [fst] in Hin.
    destruct Hout as [Hres | visited rest' asked _ _ _ Htr _ _ _ _ _].
    + destruct Hres as [sk g rest' Hsplit Hsk Hg Htr _ _ _ _ _ _
                       | _ Htr _ _ _ _ _];
        rewrite Htr in Hin; apply in_app_or in Hin as [Hin|Hin];
        try exact Hin; apply in_app_or in Hin as [Hin|Hin].
      * apply in_map_iff in Hin as (x & Hx & _). discriminate.
      * destruct Hin as [[= <- <-]|[]]. cbn in Hframe. subst g. congruence.
      * apply in_map_iff in Hin as (x & Hx & _). discriminate.
      * destruct Hin as [[=]|[]].
    + rewrite Htr in Hin. apply in_app_or in Hin as [Hin|Hin];
        [exact Hin|].
      apply in_map_iff in Hin as (x & Hx & _). discriminate.
Qed.

End ClaimsOfOneJob.

Lemma skip_existing_frame_witness :
  let j := new_job settingA [3; 4] "/out" in
  let skipped :=
    with_stdout [MsgSkipping 3 "CamA"]
      (@visit_state 0 j [4] 3 "/out/CamA_frame3.png" jobs_state) in
  @render_frames posix_host from_start 0 0 [3; 4] jobs_state
  = @render_frames posix_host from_start 1 0 [4] skipped /\
  heap skipped !! 0%nat = Some (set_frames [4] j) /\
  trace skipped = [FrameSet 0 3] /\
  in_flight skipped = [] /\
  (forall job call,
     In (Render job call)
        (trace (fst (@render_frames posix_host from_start 0 0 [3; 4]
                       jobs_state))) ->
     rc_frame call = 3 -> In (Render job call) (trace jobs_state)).
Proof.
  exact (@skip_existing_frame posix_host from_start 0 0
           (new_job settingA [3; 4] "/out") camA 3 [4] jobs_state
           eq_refl eq_refl eq_refl eq_refl eq_refl eq_refl
           (@fits_0 posix_host from_start)).
Defined.

Lemma output_path_of_render_witness :
  let s' := fst (@render_next_frame posix_host from_start 0 jobs_state) in
  In (Render 0 demo_call) (trace jobs_state) \/
  (0%nat = 0%nat /\ In (rc_frame demo_call) [3; 4] /\
   rc_filepath demo_call
   = posix_join "/out"
       ("CamA" ++ "_frame" ++ Py.str (rc_frame demo_call)
          ++ "." ++ Py.lower "PNG") /\
   filepath (render (scene s')) = rc_filepath demo_call /\
   frame_current (scene s') = rc_frame demo_call /\
   In demo_call (in_flight s')).
Proof.
  assert (Hin : In (Render 0 demo_call)
                   (trace (fst (@render_next_frame posix_host from_start 0
                                  jobs_state)))).
  { vm_compute. right. right. left. reflexivity. }
  exact (@output_path_of_render posix_host from_start 0
           (new_job settingA [3; 4] "/out") camA jobs_state eq_refl eq_refl
           0%nat demo_call Hin).
Defined.

(** The render that is requested in the example, with its path. *)
Example output_path_sample :
  in_flight (fst (@render_next_frame posix_host from_start 0 jobs_state))
  = [ {| rc_context := INVOKE_DEFAULT; rc_camera := None; rc_frame := 4;
         rc_filepath := "/out/CamA_frame4.png" |} ].
Proof. reflexivity. Qed.

(** C7.  A job records the scene's output path when it is constructed, and
    [finish] writes that path back: afterwards the scene's output path is
    the recorded one, and the other render settings, the scene's camera
    and current frame, the files, the handlers and the renders in flight
    are as before, whether or not the closing line can be printed. *)
Theorem finish_restores_filepath (cs : CameraSettings) (s0 s1 : State)
    (self : nat) (j : RenderJob) (s : State) :
  new_RenderJob cs s0 = (s1, Return self) ->
  heap s !! self = Some j ->
  original_filepath j = filepath (render (scene s0)) ->
  (exists j0, heap s1 !! self = Some j0 /\
              original_filepath j0 = filepath (render (scene s0))) /\
  let s' := fst (finish self s) in
  filepath (render (scene s')) = filepath (render (scene s0)) /\
  use_overwrite (render (scene s')) = use_overwrite (render (scene s)) /\
  file_format (render (scene s')) = file_format (render (scene s)) /\
  scene_camera (scene s') = scene_camera (scene s) /\
  frame_current (scene s') = frame_current (scene s) /\
  cam_settings (scene s') = cam_settings (scene s) /\
  disk s' = disk s /\ render_post s' = render_post s /\
  in_flight s' = in_flight s /\
  heap s' = <[self := set_is_running false j]> (heap s).
Proof.
  intros Hnew Hj Horig. split.
  - apply new_RenderJob_returns in Hnew as (fs & msgs & _ & -> & ->).
    eexists. split.
    + cbn. rewrite lookup_app_r by reflexivity.
      rewrite Nat.sub_diag. reflexivity.
    + reflexivity.
  - destruct (camera (cam_setting j)) as [cam|] eqn:Hc.
    + rewrite (finish_with_camera self j cam s Hj Hc). cbn.
      rewrite Horig. repeat split.
    + rewrite (finish_without_camera self j s Hj Hc). cbn.
      rewrite Horig. repeat split.
Qed.

Lemma finish_restores_filepath_witness :
  (exists j0,
     heap (fst (new_RenderJob settingA demo_state)) !! 0%nat = Some j0 /\
     original_filepath j0 = "/out") /\
  let s' := fst (finish 0 jobs_state) in
  filepath (render (scene s')) = "/out" /\
  use_overwrite (render (scene s')) = false /\
  file_format (render (scene s')) = "PNG" /\
  scene_camera (scene s') = None /\
  frame_current (scene s') = 1 /\
  cam_settings (scene s') = [settingA; setting_no_camera; settingB] /\
  disk s' = ["/out/CamA_frame3.png"] /\ render_post s' = [] /\
  in_flight s' = [] /\
  heap s' = <[0%nat := set_is_running false (new_job settingA [3; 4] "/out")]>
              (heap jobs_state).
Proof.
  exact (finish_restores_filepath settingA demo_state
           (fst (new_RenderJob settingA demo_state)) 0
           (new_job settingA [3; 4] "/out") jobs_state
           eq_refl eq_refl eq_refl).
Defined.

Section ClaimsOfTheOperator.
Context {host : Host}.

(** A job without a camera that is started: the job is marked idle and the
    path restored, neither the scene's camera nor its frame is set and no
    render is requested, but [start] does not return: [finish] raises. *)
Lemma start_without_camera (self : nat) (j : RenderJob) (s : State) :
  heap s !! self = Some j -> camera (cam_setting j) = None ->
  start self s
  = (with_scene (set_render (set_filepath (original_filepath j)
                                          (render (scene s))) (scene s))
       (with_heap (<[self := set_is_running false j]> (heap s))
          (with_trace (trace s ++ [Finish self])
             (with_stdout (stdout s ++ [MsgNoCamera]) s))),
     Raise (AttributeError_None "name")).
Proof.
  intros Hj Hc. unfold start, bind at 1, get_job at 1. rewrite Hj, Hc.
  unfold bind at 1, print, modify. cbn -[finish].
  rewrite (finish_without_camera self j
             (with_stdout (stdout s ++ [MsgNoCamera]) s) Hj Hc).
  reflexivity.
Qed.

(** C9.  When no setting has a camera, [execute] builds no job, reports
    the warning and returns CANCELLED; the operator is not made a modal
    handler and the scene, the files, the object store, the handlers and
    the renders in flight are as before. *)
Theorem execute_without_cameras (s : State) :
  Forall (fun cs => camera cs = None) (cam_settings (scene s)) ->
  let s' := fst (execute s) in
  snd (execute s) = Return CANCELLED /\
  reports s' = (reports s ++ [no_jobs_warning])%list /\
  modal_handler s' = modal_handler s /\
  scene s' = scene s /\
  op_jobs s' = [] /\
  heap s' = heap s /\ disk s' = disk s /\ trace s' = trace s /\
  render_post s' = render_post s /\ in_flight s' = in_flight s.
Proof.
  intros Hnone s'. subst s'.
  assert (E : execute s
              = (with_reports (reports s ++ [no_jobs_warning])
                   (with_stdout (stdout s ++ [MsgJobsInit []])
                      (with_op_jobs [] s)), Return CANCELLED)).
  { unfold execute, bind at 1, get. unfold bind at 1.
    rewrite (build_jobs_no_camera _ s Hnone). reflexivity. }
  rewrite E. cbn. repeat split.
Qed.

End ClaimsOfTheOperator.

Lemma execute_without_cameras_witness :
  let s' := fst (execute no_camera_state) in
  snd (execute no_camera_state) = Return CANCELLED /\
  reports s' = [no_jobs_warning] /\
  modal_handler s' = false /\
  scene s' = scene no_camera_state /\
  op_jobs s' = [] /\
  heap s' = [] /\ disk s' = ["/out/CamA_frame3.png"] /\ trace s' = [] /\
  render_post s' = [] /\ in_flight s' = [].
Proof.
  apply (execute_without_cameras no_camera_state).
  repeat constructor.
Defined.

(** C8, at the input where it fails.  Job 1 of [jobs_state] has no camera.
    Started, it is marked idle, the output path is restored, the scene's
    camera and frame are left alone and no render is requested; but the
    call ends with [AttributeError], raised by the line [finish] prints
    with the name of the camera, instead of returning. *)
Theorem start_without_camera_raises :
  snd (@start posix_host 1 jobs_state) = Raise (AttributeError_None "name") /\
  let s' := fst (@start posix_host 1 jobs_state) in
  scene s' = scene jobs_state /\ in_flight s' = [] /\ render_post s' = [] /\
  trace s' = [Finish 1] /\ stdout s' = [MsgNoCamera].
Proof. repeat split. Qed.

(** ** Traces and remaining work *)

Lemma visits_app (a b : list Action) :
  visits (a ++ b) = (visits a ++ visits b)%list.
Proof. apply flat_map_app. Qed.

Lemma finished_app (a b : list Action) :
  finished (a ++ b) = (finished a ++ finished b)%list.
Proof. apply flat_map_app. Qed.

Lemma rendered_app (a b : list Action) :
  rendered (a ++ b) = (rendered a ++ rendered b)%list.
Proof. unfold rendered, render_calls. rewrite flat_map_app. apply map_app. Qed.

Lemma visits_frame_sets (job : nat) (fs : list Z) :
  visits (map (FrameSet job) fs) = map (pair job) fs.
Proof. induction fs as [|f fs IH]; [reflexivity|]. cbn. f_equal. exact IH. Qed.

Lemma finished_frame_sets (job : nat) (fs : list Z) :
  finished (map (FrameSet job) fs) = [].
Proof. induction fs as [|f fs IH]; [reflexivity|exact IH]. Qed.

Lemma rendered_frame_sets (job : nat) (fs : list Z) :
  rendered (map (FrameSet job) fs) = [].
Proof. induction fs as [|f fs IH]; [reflexivity|exact IH]. Qed.

Lemma job_frames_insert_ne (s s' : State) (self job : nat) (j : RenderJob) :
  heap s' = <[self := j]> (heap s) -> job <> self ->
  job_frames s' job = job_frames s job.
Proof.
  intros Hh Hne. unfold job_frames. rewrite Hh.
  rewrite list_lookup_insert_ne by congruence. reflexivity.
Qed.

Lemma job_frames_insert_eq (s s' : State) (self : nat) (j : RenderJob) :
  heap s' = <[self := j]> (heap s) -> (self < length (heap s))%nat ->
  job_frames s' self = map (pair self) (frames j).
Proof.
  intros Hh Hlt. unfold job_frames. rewrite Hh.
  rewrite list_lookup_insert_eq by exact Hlt. reflexivity.
Qed.

Lemma queued_frames_insert (s s' : State) (self : nat) (j : RenderJob)
    (lo m : nat) :
  heap s' = <[self := j]> (heap s) -> (self < lo)%nat ->
  flat_map (job_frames s') (seq lo m) = flat_map (job_frames s) (seq lo m).
Proof.
  intros Hh. revert lo. induction m as [|m IH]; intros lo Hlt; [reflexivity|].
  cbn [seq flat_map].
  rewrite (job_frames_insert_ne s s' self lo j Hh) by lia.
  rewrite IH by lia. reflexivity.
Qed.

Lemma cur_of_Some (base k cur : nat) :
  cur_of base k = Some cur -> exists k', k = S k' /\ cur = (base + k')%nat.
Proof. destruct k as [|k']; [discriminate|]. intros [= <-]. eauto. Qed.

Section BatchProofs.
Context {host : Host}.
Variables (base : nat) (settings : list CameraSettings) (P0 : string)
          (O0 : bool) (tr0 : list Action) (plan : list (nat * Z)).

(** The invariant does not read what the add-on prints, reports, or the
    files. *)
Lemma batch_core_same (k : nat) (new : list Action) (s s' : State) :
  scene s' = scene s ->
  op_jobs s' = op_jobs s -> op_current_job s' = op_current_job s ->
  heap s' = heap s -> trace s' = trace s ->
  batch_core base settings P0 O0 tr0 plan k new s ->
  batch_core base settings P0 O0 tr0 plan k new s'.
Proof.
  intros Hsc Hq Hc Hh Ht [H1 HO H2 H3 H4 H5 H6 H7 H8].
  assert (Hjf : forall job, job_frames s' job = job_frames s job).
  { intros job. unfold job_frames. rewrite Hh. reflexivity. }
  constructor; try assumption; try congruence.
  - intros i cs Hi. rewrite Hh. exact (H4 i cs Hi).
  - rewrite <- H6. unfold remaining. rewrite Hq, Hc. f_equal. f_equal.
    + destruct (op_current_job s); [apply Hjf|reflexivity].
    + apply flat_map_ext. exact Hjf.
  - intros job Hin. rewrite Hjf. exact (H8 job Hin).
Qed.

(** From a job in hand that is about to go through its frames, to the
    state [render_next_frame] leaves. *)
Lemma frames_result_inv (k' : nat) (new : list Action) (sb s' : State)
    (j : RenderJob) (cam : Camera) :
  batch_core base settings P0 O0 tr0 plan (S k') new sb ->
  heap sb !! (base + k')%nat = Some j ->
  camera (cam_setting j) = Some cam -> original_filepath j = P0 ->
  in_flight sb = [] -> render_post sb = [] ->
  ~ In (base + k')%nat (finished new) \/ frames j = [] ->
  frames_result (base + k') j (cam_name cam) (frames j) sb s' ->
  exists new',
    batch_core base settings P0 O0 tr0 plan (S k') new' s' /\
    batch_status base P0 (S k') new' s'.
Proof.
  intros [C1 CO C2 C3 C4 C5 C6 C7 C8] Hj Hcam Horig Hfl Hrp Hnf Hres.
  set (cur := (base + k')%nat) in *.
  pose proof (lookup_lt_Some _ _ _ Hj) as Hlt.
  assert (Hrem : remaining sb
                 = (map (pair cur) (frames j)
                      ++ flat_map (job_frames sb)
                           (seq (base + S k') (length settings - S k')))%list).
  { unfold remaining. rewrite C3, C2. cbn [cur_of]. fold cur.
    unfold job_frames at 1. rewrite Hj. reflexivity. }
  assert (Hjobs : forall j', heap s' = <[cur := j']> (heap sb) ->
            cam_setting j' = cam_setting j ->
            is_cancelled j' = is_cancelled j ->
            original_filepath j' = original_filepath j ->
            forall i cs, settings !! i = Some cs ->
              exists j1 cam1,
                heap s' !! (base + i)%nat = Some j1 /\ cam_setting j1 = cs /\
                camera cs = Some cam1 /\
                is_cancelled j1 = false /\ original_filepath j1 = P0).
  { intros j' Hh Hcs Hcn Hor i cs Hi.
    destruct (C4 i cs Hi) as (j1 & cam1 & Hl & H1 & H2 & H3 & H4).
    rewrite Hh. destruct (decide (base + i = cur)%nat) as [E|E].
    - rewrite E in Hl |- *. rewrite Hj in Hl. injection Hl as <-.
      rewrite list_lookup_insert_eq by exact Hlt.
      exists j', cam1. repeat split; congruence.
    - rewrite list_lookup_insert_ne by congruence.
      exists j1, cam1. repeat split; assumption. }
  assert (Hrem' : forall j', heap s' = <[cur := j']> (heap sb) ->
            op_jobs s' = op_jobs sb -> op_current_job s' = op_current_job sb ->
            remaining s'
            = (map (pair cur) (frames j')
                 ++ flat_map (job_frames sb)
                      (seq (base + S k') (length settings - S k')))%list).
  { intros j' Hh Hq Hc. unfold remaining. rewrite Hq, Hc, C3, C2.
    cbn [cur_of]. fold cur.
    rewrite (job_frames_insert_eq sb s' cur j' Hh Hlt).
    rewrite (queued_frames_insert sb s' cur j' _ _ Hh) by (unfold cur; lia).
    reflexivity. }
  destruct Hres as [sk f rest Hsplit _ _ Htr Hheap Hfl' Hrp' _ _ Hun
                   | _ Htr Hheap Hfl' Hrp' Hfp Hun];
    destruct Hun as (_ & Hov & _ & _ & _ & _ & _ & Hq & Hc).
  - assert (Hnf' : ~ In cur (finished new)).
    { destruct Hnf as [Hnf|Hnil]; [exact Hnf|].
      rewrite Hnil in Hsplit. destruct sk; discriminate. }
    clear Hnf. rename Hnf' into Hnf.
    eexists. split; [constructor|].
    + exact C1.
    + rewrite Hov. exact CO.
    + rewrite Hq. exact C2.
    + rewrite Hc. exact C3.
    + apply (Hjobs _ Hheap); reflexivity.
    + rewrite Htr, C5, <- app_assoc. reflexivity.
    + rewrite (Hrem' _ Hheap Hq Hc). cbn [frames set_is_running set_frames].
      rewrite <- C6, Hrem, Hsplit.
      rewrite !visits_app, visits_frame_sets. cbn [visits flat_map].
      rewrite !map_app, !app_nil_r, <- !app_assoc. reflexivity.
    + rewrite rendered_app, visits_app, rendered_app, visits_app.
      rewrite rendered_frame_sets, visits_frame_sets, map_app.
      cbn. rewrite app_nil_r. apply sublist_app; [exact C7|].
      apply sublist_inserts_l. reflexivity.
    + intros job Hin.
      rewrite !finished_app, finished_frame_sets in Hin.
      cbn in Hin. rewrite !app_nil_r in Hin.
      destruct (C8 job Hin) as [Hf Hb]. split; [|exact Hb].
      rewrite (job_frames_insert_ne sb s' cur job _ Hheap); [exact Hf|].
      intros ->. exact (Hnf Hin).
    + eapply (status_running base P0 (S k') _ s' cur _ _
                (visits new ++ map (pair cur) sk)).
      * reflexivity.
      * rewrite Hheap. apply list_lookup_insert_eq. exact Hlt.
      * reflexivity.
      * rewrite Hfl', Hfl. reflexivity.
      * rewrite Hrp', Hrp. reflexivity.
      * rewrite !finished_app, finished_frame_sets. cbn.
        rewrite !app_nil_r. exact Hnf.
      * rewrite !visits_app, visits_frame_sets, map_app. cbn.
        rewrite app_nil_r, <- app_assoc. reflexivity.
  - eexists. split; [constructor|].
    + exact C1.
    + rewrite Hov. exact CO.
    + rewrite Hq. exact C2.
    + rewrite Hc. exact C3.
    + apply (Hjobs _ Hheap); reflexivity.
    + rewrite Htr, C5, <- app_assoc. reflexivity.
    + rewrite (Hrem' _ Hheap Hq Hc). cbn [frames set_is_running set_frames].
      rewrite <- C6, Hrem.
      rewrite !visits_app, visits_frame_sets. cbn [visits flat_map map].
      rewrite !app_nil_r, <- !app_assoc. reflexivity.
    + rewrite rendered_app, visits_app, rendered_app, visits_app.
      rewrite rendered_frame_sets, visits_frame_sets.
      cbn. rewrite !app_nil_r. apply sublist_inserts_r. exact C7.
    + intros job Hin.
      rewrite !finished_app, finished_frame_sets in Hin.
      cbn in Hin. apply in_app_or in Hin as [Hin|[<-|[]]].
      * destruct (C8 job Hin) as [Hf Hb]. split; [|exact Hb].
        destruct (decide (job = cur)) as [->|Hne].
        -- rewrite (job_frames_insert_eq sb s' cur _ Hheap Hlt). reflexivity.
        -- rewrite (job_frames_insert_ne sb s' cur job _ Hheap Hne).
           exact Hf.
      * split; [|unfold cur; lia].
        rewrite (job_frames_insert_eq sb s' cur _ Hheap Hlt). reflexivity.
    + apply status_idle.
      * rewrite Hfl'. exact Hfl.
      * rewrite Hrp'. exact Hrp.
      * rewrite Hfp. exact Horig.
      * intros c [= <-]. eexists. split.
        { rewrite Hheap. apply list_lookup_insert_eq. exact Hlt. }
        split; [reflexivity|]. split; [reflexivity|].
        rewrite !finished_app. apply in_or_app. right.
        apply in_or_app. right. left. reflexivity.
Qed.

End BatchProofs.

Section BatchSteps.
Context {host : Host}.
Variables (base : nat) (settings : list CameraSettings) (P0 : string)
          (O0 : bool) (tr0 : list Action) (plan : list (nat * Z)).

(** The stack has room for the longest run of frames the batch can have
    to skip: none when files are overwritten, at most the whole plan
    otherwise. *)
Hypothesis Hroom :
  forall entry, fits entry (if O0 then 0%nat else length plan).

Lemma batch_core_put (k : nat) (new : list Action) (s s' : State)
    (self : nat) (j j' : RenderJob) :
  batch_core base settings P0 O0 tr0 plan k new s ->
  heap s !! self = Some j -> heap s' = <[self := j']> (heap s) ->
  cam_setting j' = cam_setting j -> is_cancelled j' = is_cancelled j ->
  original_filepath j' = original_filepath j -> frames j' = frames j ->
  op_jobs s' = op_jobs s -> op_current_job s' = op_current_job s ->
  trace s' = trace s -> scene s' = scene s ->
  batch_core base settings P0 O0 tr0 plan k new s'.
Proof.
  intros [C1 CO C2 C3 C4 C5 C6 C7 C8] Hj Hh Hcs Hcn Hor Hfr Hq Hc Ht Hsc.
  pose proof (lookup_lt_Some _ _ _ Hj) as Hlt.
  assert (Hjf : forall job, job_frames s' job = job_frames s job).
  { intros job. destruct (decide (job = self)) as [->|Hne].
    - rewrite (job_frames_insert_eq s s' self j' Hh Hlt).
      unfold job_frames. rewrite Hj, Hfr. reflexivity.
    - apply (job_frames_insert_ne s s' self job j' Hh Hne). }
  constructor; try assumption; try congruence.
  - intros i cs Hi.
    destruct (C4 i cs Hi) as (j1 & cam1 & Hl & H1 & H2 & H3 & H4).
    rewrite Hh. destruct (decide (base + i = self)%nat) as [E|E].
    + rewrite E in Hl |- *. rewrite Hj in Hl. injection Hl as <-.
      rewrite list_lookup_insert_eq by exact Hlt.
      exists j', cam1. repeat split; congruence.
    + rewrite list_lookup_insert_ne by congruence.
      exists j1, cam1. repeat split; assumption.
  - rewrite <- C6. unfold remaining. rewrite Hq, Hc. f_equal. f_equal.
    + destruct (op_current_job s); [apply Hjf|reflexivity].
    + apply flat_map_ext. exact Hjf.
  - intros job Hin. rewrite Hjf. exact (C8 job Hin).
Qed.

Lemma batch_status_same (k : nat) (new : list Action) (s s' : State) :
  in_flight s' = in_flight s -> render_post s' = render_post s ->
  filepath (render (scene s')) = filepath (render (scene s)) ->
  heap s' = heap s ->
  batch_status base P0 k new s -> batch_status base P0 k new s'.
Proof.
  intros Hfl Hrp Hfp Hh [I1 I2 I3 I4 | cur j call before R1 R2 R3 R4 R5 R6 R7
                        | cur j before f T0 T1 T2 T3 T4 T5 T6 T7].
  - apply status_idle; try congruence. rewrite Hh. exact I4.
  - eapply status_running; try eassumption; congruence.
  - eapply status_stuck; try eassumption; congruence.
Qed.

Lemma start_with_camera (self : nat) (j : RenderJob) (cam : Camera)
    (s : State) :
  heap s !! self = Some j -> camera (cam_setting j) = Some cam ->
  start self s
  = render_next_frame from_start self
      (with_stdout (stdout s ++ [MsgStarting (cam_name cam)])
         (with_scene (set_scene_camera (Some cam) (scene s)) s)).
Proof.
  intros Hj Hc. unfold start, bind at 1, get_job at 1. rewrite Hj, Hc.
  reflexivity.
Qed.

Lemma render_post_handler_with_camera (self : nat) (j : RenderJob)
    (cam : Camera) (l : list nat) (s : State) :
  heap s !! self = Some j -> camera (cam_setting j) = Some cam ->
  is_cancelled j = false -> list_remove self (render_post s) = Some l ->
  render_post_handler self s
  = render_next_frame from_handler self
      (with_heap (<[self := set_is_running false j]> (heap s))
         (with_stdout
            (stdout s ++ [MsgFinishedFrame (frame_current (scene s))
                                           (cam_name cam)])
            (with_render_post l s))).
Proof.
  intros Hj Hc Hn Hl. unfold render_post_handler, bind at 1, get.
  rewrite Hl. unfold bind, modify, get_job, camera_name, print, put_job.
  cbn -[render_next_frame]. rewrite Hj. cbn -[render_next_frame].
  rewrite Hc. cbn -[render_next_frame]. rewrite Hn. reflexivity.
Qed.

Lemma current_job_idle_eq (k : nat) (new : list Action) (s : State) :
  batch_core base settings P0 O0 tr0 plan k new s ->
  current_job_idle s = (s, Return (current_idle s)).
Proof.
  intros C. unfold current_job_idle, current_idle, bind, get.
  rewrite (core_current _ _ _ _ _ _ _ _ _ C).
  destruct k as [|k']; [reflexivity|]. cbn [cur_of].
  pose proof (core_started _ _ _ _ _ _ _ _ _ C) as Hk.
  destruct (lookup_lt_is_Some_2 settings k') as [cs Hcs]; [lia|].
  destruct (core_jobs _ _ _ _ _ _ _ _ _ C k' cs Hcs) as (j & cam & Hj & _).
  unfold get_job. rewrite Hj. reflexivity.
Qed.

(** The frames left to the job in hand are part of the plan, so that the
    stack has room for them. *)
Lemma core_room (entry : Entry) (k' : nat) (new : list Action) (s : State)
    (j : RenderJob) :
  batch_core base settings P0 O0 tr0 plan (S k') new s ->
  heap s !! (base + k')%nat = Some j ->
  fits entry (0 + nesting s (frames j)).
Proof.
  intros C Hj. eapply fits_le; [|exact (Hroom entry)].
  unfold nesting. rewrite (core_overwrite _ _ _ _ _ _ _ _ _ C).
  destruct O0; [lia|].
  pose proof (core_plan _ _ _ _ _ _ _ _ _ C) as Hp.
  unfold remaining in Hp. rewrite (core_current _ _ _ _ _ _ _ _ _ C) in Hp.
  cbn [cur_of] in Hp. unfold job_frames at 1 in Hp. rewrite Hj in Hp.
  rewrite <- Hp, !length_app, length_map. lia.
Qed.

(** Going through the frames of the job in hand keeps the invariant. *)
Lemma render_next_frame_inv (entry : Entry) (k' : nat) (new : list Action)
    (sb : State) (j : RenderJob) :
  batch_core base settings P0 O0 tr0 plan (S k') new sb ->
  heap sb !! (base + k')%nat = Some j ->
  in_flight sb = [] -> render_post sb = [] ->
  ~ In (base + k')%nat (finished new) \/ frames j = [] ->
  exists s' new',
    render_next_frame entry (base + k') sb = (s', Return tt) /\
    batch_core base settings P0 O0 tr0 plan (S k') new' s' /\
    batch_status base P0 (S k') new' s' /\
    modal_handler s' = modal_handler sb.
Proof.
  intros C Hj Hfl Hrp Hnf.
  pose proof (core_started _ _ _ _ _ _ _ _ _ C) as Hk.
  destruct (lookup_lt_is_Some_2 settings k') as [cs Hcs]; [lia|].
  destruct (core_jobs _ _ _ _ _ _ _ _ _ C k' cs Hcs)
    as (j1 & cam & Hj1 & Hcs1 & Hcam & Hcn & Hor).
  rewrite Hj in Hj1. injection Hj1 as <-. rewrite <- Hcs1 in Hcam.
  rewrite (render_next_frame_frames entry _ j sb Hj).
  destruct (render_frames_result entry (base + k') cam (frames j) 0 j sb
              Hj Hcn Hcam eq_refl (core_room entry k' new sb j C Hj))
    as (s' & Hrun & Hres).
  destruct (frames_result_inv base settings P0 O0 tr0 plan k' new sb s' j cam
              C Hj Hcam Hor Hfl Hrp Hnf Hres) as (new' & C' & S').
  exists s', new'. split; [exact Hrun|]. split; [exact C'|].
  split; [exact S'|].
  destruct Hres as [? ? ? _ _ _ _ _ _ _ _ _ Hun | _ _ _ _ _ _ Hun];
    apply Hun.
Qed.

(** [finish] on the job in hand when it is idle already, as [cancel] calls
    it. *)
Lemma finish_idle_inv (k' : nat) (new : list Action) (s : State)
    (j : RenderJob) :
  batch_core base settings P0 O0 tr0 plan (S k') new s ->
  heap s !! (base + k')%nat = Some j -> frames j = [] ->
  in_flight s = [] -> render_post s = [] ->
  exists s' new',
    finish (base + k') s = (s', Return tt) /\
    batch_core base settings P0 O0 tr0 plan (S k') new' s' /\
    batch_status base P0 (S k') new' s' /\
    modal_handler s' = modal_handler s /\
    in_flight s' = [] /\ op_jobs s' = op_jobs s /\ render_post s' = [].
Proof.
  intros C Hj Hfr Hfl Hrp.
  pose proof (core_started _ _ _ _ _ _ _ _ _ C) as Hk.
  destruct (lookup_lt_is_Some_2 settings k') as [cs Hcs]; [lia|].
  destruct (core_jobs _ _ _ _ _ _ _ _ _ C k' cs Hcs)
    as (j1 & cam & Hj1 & Hcs1 & Hcam & Hcn & Hor).
  rewrite Hj in Hj1. injection Hj1 as <-. rewrite <- Hcs1 in Hcam.
  rewrite <- (render_frames_nil from_start 0 (base + k') j s Hj
                (fits_0 from_start)).
  destruct (render_frames_result from_start (base + k') cam (frames j) 0 j s
              Hj Hcn Hcam eq_refl (core_room from_start k' new s j C Hj))
    as (s' & Hrun & Hres).
  destruct (frames_result_inv base settings P0 O0 tr0 plan k' new s s' j cam
              C Hj Hcam Hor Hfl Hrp (or_intror Hfr) Hres) as (new' & C' & S').
  rewrite Hfr in Hrun.
  exists s', new'. split; [exact Hrun|]. split; [exact C'|].
  split; [exact S'|].
  destruct Hres as [sk f rest Hsplit _ _ _ _ _ _ _ _ _
                   | _ _ _ Hfl' Hrp' _ Hun].
  - rewrite Hfr in Hsplit. destruct sk; discriminate.
  - split; [apply Hun|]. split; [congruence|].
    split; [apply Hun|congruence].
Qed.

(** [modal] keeps the invariant, never raises, and returns CANCELLED
    exactly on a timer event that finds the queue empty and the job in
    hand idle. *)
Lemma modal_inv (event : EventType) (k : nat) (new : list Action)
    (s : State) :
  batch_core base settings P0 O0 tr0 plan k new s ->
  batch_status base P0 k new s ->
  exists s' r k1 new1,
    modal event s = (s', Return r) /\
    batch_core base settings P0 O0 tr0 plan k1 new1 s' /\
    batch_status base P0 k1 new1 s' /\
    modal_handler s' = modal_handler s /\
    (r = PASS_THROUGH \/
     (r = CANCELLED /\ op_jobs s' = [] /\ in_flight s' = [] /\
      render_post s' = [])) /\
    (r = CANCELLED <->
     event = TIMER /\ op_jobs s = [] /\ current_idle s = true).
Proof.
  intros C St. destruct event.
  2:{ exists s, PASS_THROUGH, k, new.
      split; [reflexivity|]. split; [exact C|]. split; [exact St|].
      split; [reflexivity|]. split; [left; reflexivity|].
      split; [discriminate|]. intros (? & _). discriminate. }
  unfold modal, bind at 1. rewrite (current_job_idle_eq k new s C).
  pose proof (core_started _ _ _ _ _ _ _ _ _ C) as Hk.
  pose proof (core_queue _ _ _ _ _ _ _ _ _ C) as Hq.
  pose proof (core_current _ _ _ _ _ _ _ _ _ C) as Hc.
  destruct St as [I1 I2 I3 I4 | cur j call before R1 R2 R3 R4 R5 R6 R7
                 | cur j before f T0 T1 T2 T3 T4 T5 T6 T7].
  - assert (Hidle : current_idle s = true).
    { unfold current_idle. rewrite Hc.
      destruct (cur_of base k) as [cur|] eqn:E; [|reflexivity].
      destruct (I4 cur eq_refl) as (j & Hj & Hr & _). rewrite Hj, Hr.
      reflexivity. }
    rewrite Hidle. unfold bind at 1, get.
    destruct (length settings - k)%nat as [|m] eqn:Hm.
    + (* the queue is empty: cancel *)
      rewrite Hq. cbn [seq]. unfold cancel, bind at 1, get. rewrite Hc.
      destruct k as [|k']; cbn [cur_of].
      * eexists _, CANCELLED, 0%nat, new.
        split; [reflexivity|]. cbn.
        split; [eapply batch_core_same; [..|exact C]; reflexivity|].
        split; [apply status_idle; [assumption..|discriminate]|].
        split; [reflexivity|].
        split; [right; split; [reflexivity|];
                split; [rewrite Hq; reflexivity|split; [exact I1|exact I2]]|].
        split; [|reflexivity].
        intros _. split; [reflexivity|].
        split; reflexivity.
      * destruct (I4 (base + k')%nat eq_refl) as (j & Hj & Hr & Hfr & Hfin).
        destruct (finish_idle_inv k' new s j C Hj Hfr I1 I2)
          as (s' & new' & Hrun & C' & S' & Hm' & Hfl' & Hq' & Hrp').
        unfold bind at 1. unfold bind at 1. rewrite Hrun.
        eexists _, CANCELLED, (S k'), new'.
        split; [reflexivity|]. cbn.
        split; [eapply batch_core_same; [..|exact C']; reflexivity|].
        split; [eapply batch_status_same; [..|exact S']; reflexivity|].
        split; [exact Hm'|].
        split; [right; split; [reflexivity|];
                split; [rewrite Hq', Hq; reflexivity|
                        split; [exact Hfl'|exact Hrp']]|].
        split; [|reflexivity].
        intros _. split; [reflexivity|].
        split; reflexivity.
    + (* the next job is taken from the queue and started *)
      rewrite Hq. cbn [seq].
      assert (Hkn : (k < length settings)%nat) by lia.
      destruct (lookup_lt_is_Some_2 settings k Hkn) as [cs Hcs].
      destruct (core_jobs _ _ _ _ _ _ _ _ _ C k cs Hcs)
        as (j & cam & Hj & Hcs1 & Hcam & Hcn & Hor).
      rewrite <- Hcs1 in Hcam.
      unfold bind at 1, modify. unfold bind at 1. unfold bind at 1.
      cbn -[start].
      set (s1 := with_op_current_job _ _).
      assert (Hj1 : heap s1 !! (base + k)%nat = Some j) by exact Hj.
      rewrite (start_with_camera (base + k) j cam s1 Hj1 Hcam).
      set (sb := with_stdout _ _).
      assert (Cb : batch_core base settings P0 O0 tr0 plan (S k) new sb).
      { destruct C as [C1 CO C2 C3 C4 C5 C6 C7 C8]. constructor.
        - lia.
        - exact CO.
        - cbn. replace (length settings - S k)%nat with m by lia.
          f_equal. lia.
        - reflexivity.
        - exact C4.
        - exact C5.
        - rewrite <- C6. unfold remaining. cbn.
          rewrite C3, C2, Hm. cbn [seq flat_map].
          replace (match cur_of base k with
                   | Some cur => job_frames s cur
                   | None => []
                   end) with (@nil (nat * Z)).
          + reflexivity.
          + destruct (cur_of base k) as [cur|] eqn:E; [|reflexivity].
            destruct (I4 cur eq_refl) as (j0 & Hj0 & _ & Hfr0 & _).
            unfold job_frames. rewrite Hj0, Hfr0. reflexivity.
        - exact C7.
        - intros job Hin. destruct (C8 job Hin) as [Hf Hb].
          split; [exact Hf|lia]. }
      assert (Hnf : ~ In (base + k)%nat (finished new)).
      { intros Hin. destruct (core_finished _ _ _ _ _ _ _ _ _ C _ Hin). lia. }
      destruct (render_next_frame_inv from_start k new sb j Cb Hj I1 I2
                  (or_introl Hnf))
        as (s' & new' & Hrun & C' & S' & Hm').
      rewrite Hrun.
      eexists _, PASS_THROUGH, (S k), new'.
      split; [reflexivity|]. split; [exact C'|]. split; [exact S'|].
      split; [exact Hm'|]. split; [left; reflexivity|].
      split; [discriminate|]. intros (_ & Hq0 & _). discriminate Hq0.
  - (* a render is in flight: nothing to do *)
    assert (Hidle : current_idle s = false).
    { unfold current_idle. rewrite Hc, R1, R2, R3. reflexivity. }
    rewrite Hidle.
    exists s, PASS_THROUGH, k, new.
    split; [reflexivity|]. split; [exact C|].
    split; [eapply status_running; eassumption|].
    split; [reflexivity|]. split; [left; reflexivity|].
    split; [discriminate|]. intros (_ & _ & ?). discriminate.
  - (* the handler has not run: the job is still marked running *)
    assert (Hidle : current_idle s = false).
    { unfold current_idle. rewrite Hc, T1, T2, T3. reflexivity. }
    rewrite Hidle.
    exists s, PASS_THROUGH, k, new.
    split; [reflexivity|]. split; [exact C|].
    split; [eapply status_stuck; eassumption|].
    split; [reflexivity|]. split; [left; reflexivity|].
    split; [discriminate|]. intros (_ & _ & ?). discriminate.
Qed.

End BatchSteps.

Section BatchRuns.
Context {host : Host}.
Variables (base : nat) (settings : list CameraSettings) (P0 : string)
          (O0 : bool) (tr0 : list Action) (plan : list (nat * Z)).
Hypothesis Hroom :
  forall entry, fits entry (if O0 then 0%nat else length plan).

(** The host finishing the render in flight keeps the invariant. *)
Lemma host_render_post_inv (s : State) :
  batch_inv base settings P0 O0 tr0 plan s ->
  batch_inv base settings P0 O0 tr0 plan (host_render_post s).
Proof.
  intros (k & new & C & St & Hm).
  destruct St as [I1 I2 I3 I4 | cur j call before R1 R2 R3 R4 R5 R6 R7
                 | cur j before f T0 T1 T2 T3 T4 T5 T6 T7].
  3:{ unfold host_render_post. rewrite T4.
      exists k, new. split; [exact C|].
      split; [eapply status_stuck; eassumption|exact Hm]. }
  - unfold host_render_post. rewrite I1.
    exists k, new. split; [exact C|].
    split; [apply status_idle; assumption|exact Hm].
  - apply cur_of_Some in R1 as (k' & -> & ->).
    assert (Hmt : modal_handler s = true).
    { destruct (modal_handler s) eqn:E; [reflexivity|].
      destruct (Hm eq_refl) as (_ & Hfl & _). congruence. }
    pose proof (core_started _ _ _ _ _ _ _ _ _ C) as Hk.
    destruct (lookup_lt_is_Some_2 settings k') as [cs Hcs]; [lia|].
    destruct (core_jobs _ _ _ _ _ _ _ _ _ C k' cs Hcs)
      as (j1 & cam & Hj1 & Hcs1 & Hcam & Hcn & Hor).
    rewrite R2 in Hj1. injection Hj1 as <-. rewrite <- Hcs1 in Hcam.
    unfold host_render_post. rewrite R4.
    set (s1 := with_disk _ _).
    change (render_post s1) with (render_post s). rewrite R5.
    unfold call_handlers. cbn [fold_left]. unfold call_handler.
    destruct (handler_arguments =? 1)%nat eqn:Hargs.
    2:{ apply Nat.eqb_neq in Hargs. cbn [fst raise].
        exists (S k'), new.
        split; [eapply batch_core_same; [..|exact C]; reflexivity|].
        split; [|intros Hf; exfalso; cbn in Hf; congruence].
        eapply (status_stuck base P0 (S k') new s1 (base + k')%nat j before
                  (rc_frame call)); try eassumption; reflexivity. }
    assert (Hl : list_remove (base + k') (render_post s1) = Some []).
    { change (render_post s1) with (render_post s). rewrite R5. cbn.
      rewrite Nat.eqb_refl. reflexivity. }
    rewrite (render_post_handler_with_camera (base + k') j cam [] s1 R2 Hcam
               Hcn Hl).
    set (sb := with_heap _ _).
    assert (Hjb : heap sb !! (base + k')%nat = Some (set_is_running false j)).
    { cbn. apply list_lookup_insert_eq. exact (lookup_lt_Some _ _ _ R2). }
    assert (Cb : batch_core base settings P0 O0 tr0 plan (S k') new sb).
    { apply (batch_core_put base settings P0 O0 tr0 plan (S k') new s sb
               (base + k') j (set_is_running false j) C R2); reflexivity. }
    destruct (render_next_frame_inv base settings P0 O0 tr0 plan Hroom
                from_handler k' new sb _ Cb Hjb eq_refl eq_refl
                (or_introl R6))
      as (s' & new' & Hrun & C' & S' & Hm').
    rewrite Hrun. cbn [fst].
    exists (S k'), new'. split; [exact C'|]. split; [exact S'|].
    rewrite Hm'. cbn. rewrite Hmt. discriminate.
Qed.

Lemma batch_inv_stop (s : State) (k : nat) (new : list Action) :
  batch_core base settings P0 O0 tr0 plan k new s ->
  batch_status base P0 k new s ->
  op_jobs s = [] -> in_flight s = [] -> render_post s = [] ->
  batch_inv base settings P0 O0 tr0 plan (with_modal_handler false s).
Proof.
  intros C St Hq Hfl Hrp. exists k, new.
  split; [eapply batch_core_same; [..|exact C]; reflexivity|].
  split; [eapply batch_status_same; [..|exact St]; reflexivity|].
  intros _. repeat split; assumption.
Qed.

Lemma step_inv (s : State) (ev : HostEvent) :
  batch_inv base settings P0 O0 tr0 plan s ->
  batch_inv base settings P0 O0 tr0 plan (step s ev).
Proof.
  intros Hinv. destruct ev as [event|]; [|apply host_render_post_inv, Hinv].
  unfold step. destruct (modal_handler s) eqn:Hmt; [|exact Hinv].
  destruct Hinv as (k & new & C & St & Hm).
  destruct (modal_inv base settings P0 O0 tr0 plan Hroom event k new s C St)
    as (s' & r & k1 & new1 & Hrun & C' & S' & Hm' & Hr & _).
  rewrite Hrun. destruct Hr as [->|(-> & Hq & Hfl & Hrp)].
  - exists k1, new1. split; [exact C'|]. split; [exact S'|].
    rewrite Hm', Hmt. discriminate.
  - apply (batch_inv_stop s' k1 new1 C' S' Hq Hfl Hrp).
Qed.

Lemma run_inv (evs : list HostEvent) (s : State) :
  batch_inv base settings P0 O0 tr0 plan s ->
  batch_inv base settings P0 O0 tr0 plan (run s evs).
Proof.
  revert s. induction evs as [|ev evs IH]; intros s Hinv; [exact Hinv|].
  cbn [run fold_left]. apply IH, step_inv, Hinv.
Qed.

End BatchRuns.

(** ** The state in which a batch begins *)

Lemma with_camera_has_camera (css : list CameraSettings) (i : nat)
    (cs : CameraSettings) :
  with_camera css !! i = Some cs -> exists cam, camera cs = Some cam.
Proof.
  intros Hi. apply list_elem_of_lookup_2, list_elem_of_In in Hi.
  apply filter_In in Hi as [_ Hc].
  destruct (camera cs) as [cam|]; [eauto|discriminate].
Qed.

Lemma make_jobs_lookup (path : string) (css : list CameraSettings)
    (fss : list (list Z)) (i : nat) (cs : CameraSettings) :
  length css = length fss -> css !! i = Some cs ->
  exists fs, fss !! i = Some fs /\
             make_jobs path css fss !! i = Some (new_job cs fs path).
Proof.
  revert fss i. induction css as [|c css IH]; intros fss i Hlen Hi;
    [discriminate|].
  destruct fss as [|fs fss]; [discriminate|].
  destruct i as [|i].
  - injection Hi as <-. exists fs. split; reflexivity.
  - cbn in Hlen. injection Hlen as Hlen.
    destruct (IH fss i Hlen Hi) as (fs' & H1 & H2).
    exists fs'. split; assumption.
Qed.

Lemma make_jobs_length (path : string) (css : list CameraSettings)
    (fss : list (list Z)) :
  length css = length fss -> length (make_jobs path css fss) = length fss.
Proof.
  intros Hlen. unfold make_jobs.
  rewrite length_map, length_combine. lia.
Qed.

(** The frames of the jobs just built are the plan of the batch. *)
Lemma queued_frames_plan (path : string) (css : list CameraSettings)
    (fss : list (list Z)) (h0 : list RenderJob) (s : State) :
  length css = length fss ->
  heap s = (h0 ++ make_jobs path css fss)%list ->
  flat_map (job_frames s) (seq (length h0) (length fss))
  = batch_plan (length h0) fss.
Proof.
  intros Hlen Hh. unfold batch_plan.
  assert (G : forall (n : nat) (fss' : list (list Z)) (off : nat),
            (forall i fs, fss' !! i = Some fs ->
                          job_frames s (off + i)%nat
                          = map (pair (off + i)%nat) fs) ->
            n = length fss' ->
            flat_map (job_frames s) (seq off n)
            = flat_map (fun p => map (pair (fst p)) (snd p))
                       (combine (seq off n) fss')).
  { intros n. induction n as [|n IH]; intros fss' off Hjf Hn.
    - reflexivity.
    - destruct fss' as [|fs fss']; [discriminate|].
      cbn [seq combine flat_map fst snd].
      rewrite <- (Nat.add_0_r off) at 1.
      rewrite (Hjf 0%nat fs eq_refl), Nat.add_0_r. f_equal.
      apply IH.
      + intros i fs' Hi. replace (S off + i)%nat with (off + S i)%nat by lia.
        apply Hjf. exact Hi.
      + cbn in Hn. lia. }
  apply G; [|reflexivity].
  intros i fs Hi.
  destruct (lookup_lt_is_Some_2 css i) as [cs Hcs].
  { rewrite Hlen. exact (lookup_lt_Some _ _ _ Hi). }
  destruct (make_jobs_lookup path css fss i cs Hlen Hcs) as (fs' & H1 & H2).
  rewrite Hi in H1. injection H1 as <-.
  unfold job_frames. rewrite Hh, lookup_app_r by lia.
  replace (length h0 + i - length h0)%nat with i by lia.
  rewrite H2. reflexivity.
Qed.

(** [execute] establishes the invariant. *)
Lemma batch_state_inv {host : Host} (s0 : State) (fss : list (list Z)) (msgs : list Msg) :
  fresh s0 ->
  length (with_camera (cam_settings (scene s0))) = length fss ->
  batch_inv (length (heap s0)) (with_camera (cam_settings (scene s0)))
    (filepath (render (scene s0))) (use_overwrite (render (scene s0)))
    (trace s0) (batch_plan (length (heap s0)) fss)
    (batch_state s0 fss msgs).
Proof.
  intros (Hcur & Hfl & Hrp) Hlen.
  exists 0%nat, []. split; [constructor|split].
  - lia.
  - reflexivity.
  - cbn. rewrite Nat.add_0_r, Nat.sub_0_r, Hlen. reflexivity.
  - exact Hcur.
  - intros i cs Hi.
    destruct (with_camera_has_camera _ i cs Hi) as [cam Hcam].
    destruct (make_jobs_lookup (filepath (render (scene s0))) _ fss i cs Hlen
                Hi) as (fs & _ & Hjob).
    exists (new_job cs fs (filepath (render (scene s0)))), cam.
    split; [|repeat split; assumption].
    cbn. rewrite lookup_app_r by lia.
    replace (length (heap s0) + i - length (heap s0))%nat with i by lia.
    exact Hjob.
  - cbn. rewrite app_nil_r. reflexivity.
  - cbn [visits flat_map app]. unfold remaining.
    change (op_current_job (batch_state s0 fss msgs))
      with (op_current_job s0).
    rewrite Hcur. cbn [app].
    change (op_jobs (batch_state s0 fss msgs))
      with (seq (length (heap s0)) (length fss)).
    apply (queued_frames_plan (filepath (render (scene s0)))
             (with_camera (cam_settings (scene s0))) fss (heap s0) _ Hlen).
    reflexivity.
  - constructor.
  - intros job [].
  - apply status_idle; [exact Hfl|exact Hrp|reflexivity|discriminate].
  - discriminate.
Qed.

(** The plan has as many frames as the settings with a camera list. *)
Lemma batch_plan_length (css : list CameraSettings) (fss : list (list Z)) :
  Forall2 (fun cs fs => parsed_frames (frame_ranges cs) = Return fs) css fss ->
  forall base,
  length (batch_plan base fss)
  = length
      (flat_map (fun cs => match parsed_frames (frame_ranges cs) with
                           | Return fs => fs
                           | Raise _ => []
                           end) css).
Proof.
  unfold batch_plan.
  induction 1 as [|cs fs css fss Hcs _ IH]; intros base; [reflexivity|].
  cbn [length seq combine flat_map fst snd].
  rewrite !length_app, length_map, Hcs. f_equal. apply (IH (S base)).
Qed.

Section BatchTheorems.
Context {host : Host}.

(** Every state of a batch satisfies the invariant, when the stack has
    room for the frames to pass over. *)
Lemma batch_reachable (s0 s1 : State) (evs : list HostEvent) :
  fresh s0 -> execute s0 = (s1, Return RUNNING_MODAL) ->
  stack_fits s0 ->
  exists fss msgs,
    Forall2 (fun cs fs => parsed_frames (frame_ranges cs) = Return fs)
            (with_camera (cam_settings (scene s0))) fss /\
    fss <> [] /\ s1 = batch_state s0 fss msgs /\
    batch_inv (length (heap s0)) (with_camera (cam_settings (scene s0)))
      (filepath (render (scene s0))) (use_overwrite (render (scene s0)))
      (trace s0) (batch_plan (length (heap s0)) fss) (run s1 evs).
Proof.
  intros Hfresh Hex Hroom.
  apply execute_running in Hex as (fss & msgs & Hfss & Hne & ->).
  exists fss, msgs. split; [exact Hfss|]. split; [exact Hne|].
  split; [reflexivity|].
  apply run_inv.
  - intros entry. rewrite (batch_plan_length _ _ Hfss). apply Hroom.
  - apply batch_state_inv; [exact Hfresh|].
    exact (Forall2_length _ _ _ Hfss).
Qed.

End BatchTheorems.

(** ** Supplements *)

Section Supplements.
Context {host : Host}.

(** The equation of [render_next_frame] as the source has it, for a job
    with a camera and while the stack has room: [render_frames] is the
    method, and [depth] counts the calls of the method that have not
    returned. *)
Lemma render_next_frame_eq (entry : Entry) (depth : nat) (self : nat)
    (j : RenderJob) (cam : Camera) (s : State) :
  heap s !! self = Some j -> camera (cam_setting j) = Some cam ->
  fits entry depth ->
  render_frames entry depth self (frames j) s
  = match frames j with
    | frame :: rest =>
        if is_cancelled j then finish self s
        else
          let path := frame_path j (cam_name cam) frame s in
          let sv := visit_state self j rest frame path s in
          if already_rendered path s
          then render_frames entry (S depth) self rest
                 (with_stdout (stdout s ++ [MsgSkipping frame (cam_name cam)])
                              sv)
          else (requested_state self (set_frames rest j) sv, Return tt)
    | [] => finish self s
    end.
Proof.
  intros Hj Hcam Hfit.
  destruct (frames j) as [|frame rest] eqn:Hfs.
  - apply (render_frames_nil entry depth self j s Hj Hfit).
  - destruct (is_cancelled j) eqn:Hc.
    + rewrite (render_frames_cancelled entry depth self j _ s Hj Hc).
      unfold bind. rewrite (enter_fits _ _ _ _ Hfit). reflexivity.
    + apply (render_frames_cons entry depth self j cam frame rest s Hj Hc
               Hcam Hfit).
Qed.

End Supplements.

(** Whatever [execute] returns, every job it has queued has a camera: a
    setting without one gets no job. *)
Lemma execute_queues_cameras (s0 s1 : State) (r : OpStatus) :
  execute s0 = (s1, Return r) ->
  length (op_jobs s1) = length (with_camera (cam_settings (scene s0))) /\
  forall job, In job (op_jobs s1) ->
    exists j cam, heap s1 !! job = Some j /\
                  camera (cam_setting j) = Some cam.
Proof.
  unfold execute, bind at 1, get. unfold bind at 1.
  destruct (build_jobs _ s0) as [s' [ids|e]] eqn:E; [|discriminate].
  apply build_jobs_returns in E as (fss & msgs & Hfss & -> & ->).
  pose proof (Forall2_length _ _ _ Hfss) as Hlen.
  intros Hex.
  assert (Hq : op_jobs s1 = seq (length (heap s0)) (length fss) /\
               heap s1 = (heap s0 ++ make_jobs (filepath (render (scene s0)))
                            (with_camera (cam_settings (scene s0))) fss)%list).
  { destruct fss as [|fs fss]; cbn in Hex; injection Hex as <- _;
      split; reflexivity. }
  destruct Hq as [Hq Hh]. rewrite Hq, Hh. split.
  - rewrite length_seq. symmetry. exact Hlen.
  - intros job Hin. apply in_seq in Hin.
    destruct (lookup_lt_is_Some_2 (with_camera (cam_settings (scene s0)))
                (job - length (heap s0))) as [cs Hcs]; [lia|].
    destruct (with_camera_has_camera _ _ cs Hcs) as [cam Hcam].
    destruct (make_jobs_lookup (filepath (render (scene s0))) _ fss _ cs Hlen
                Hcs) as (fs & _ & Hjob).
    exists (new_job cs fs (filepath (render (scene s0)))), cam.
    split; [|exact Hcam].
    rewrite lookup_app_r by lia. exact Hjob.
Qed.

(** ** Samples of the built-ins *)

Example int_samples :
  map Py.int ["5"; " 5 "; "+5"; "-5"; "1_0"; "_1"; "1_"; "1__0"; "007"; "";
              " + 5"; "a"; "3 "]
  = [Some 5; Some 5; Some 5; Some (-5); Some 10; None; None; None; Some 7; None;
     None; None; Some 3].
Proof. reflexivity. Qed.

Example split_samples :
  (Py.split "," "", Py.split "," ",", Py.split "," "a,,b", Py.split "-" "-5")
  = ([""], [""; ""], ["a"; ""; "b"], [""; "5"]).
Proof. reflexivity. Qed.

Example str_samples : map Py.str [0; 7; 120; -3] = ["0"; "7"; "120"; "-3"].
Proof. reflexivity. Qed.


(** * Further properties *)

(** ** The pieces of [split] *)

Lemma split_nonempty (c : ascii) (s : string) : Py.split c s <> [].
Proof.
  destruct s as [|x r]; cbn; [discriminate|].
  destruct (Ascii.eqb x c); [discriminate|].
  destruct (Py.split c r); discriminate.
Qed.

Lemma split_one (c : ascii) (s b : string) :
  Py.split c s = [b] -> s = b /\ Py.contains c b = false.
Proof.
  revert b. induction s as [|x r IH]; intros b; cbn.
  - intros [= <-]. split; reflexivity.
  - destruct (Ascii.eqb x c) eqn:E.
    + intros [= _ H]. destruct (split_nonempty c r H).
    + destruct (Py.split c r) as [|p ps] eqn:Hs; [intros [= <-]|].
      * destruct (split_nonempty c r Hs).
      * intros [= <- ->]. destruct (IH p eq_refl) as [-> Hp].
        split; [reflexivity|]. cbn. rewrite E, Hp. reflexivity.
Qed.

Lemma split_two (c : ascii) (s a b : string) :
  Py.split c s = [a; b] ->
  s = a ++ String c b /\ Py.contains c a = false /\ Py.contains c b = false.
Proof.
  revert a. induction s as [|x r IH]; intros a; cbn; [discriminate|].
  destruct (Ascii.eqb_spec x c) as [->|Hne].
  - intros [= <- H]. destruct (split_one c r b H) as [-> Hb].
    repeat split. exact Hb.
  - destruct (Py.split c r) as [|p ps] eqn:Hs; [discriminate|].
    intros [= <- ->]. destruct (IH p eq_refl) as (-> & Hp & Hb).
    split; [reflexivity|]. split; [|exact Hb].
    cbn. rewrite Hp. destruct (Ascii.eqb_spec x c); [contradiction|].
    reflexivity.
Qed.

(** The unpacking succeeds exactly on two integers around one dash. *)
Lemma unpack_two_ints_returns (t : string) (x y : Z) :
  Py.unpack_two_ints (Py.split "-" t) = Return (x, y) ->
  exists a b, t = a ++ "-" ++ b /\
              unsigned_integer a x /\ unsigned_integer b y.
Proof.
  destruct (Py.split "-" t) as [|a [|b [|c rest]]] eqn:Hs; cbn.
  - discriminate.
  - destruct (Py.int a); discriminate.
  - destruct (Py.int a) as [x'|] eqn:Ha; [|discriminate].
    destruct (Py.int b) as [y'|] eqn:Hb; [|discriminate].
    intros [= <- <-]. destruct (split_two "-" t a b Hs) as (-> & Na & Nb).
    exists a, b. repeat split; assumption.
  - destruct (Py.int a); [|discriminate].
    destruct (Py.int b); [|discriminate].
    destruct (Py.int c); discriminate.
Qed.

(** A broken token makes the loop raise, with the list built so far and
    the rest of the tokens dropped. *)
Lemma parse_tokens_broken (t : string) (rest : list string) (acc : list Z)
    (st : State) :
  token_broken t ->
  exists e, parse_tokens (t :: rest) acc st = (st, Raise e).
Proof.
  intros [Hc Hno]. cbn [parse_tokens]. rewrite Hc.
  destruct (Py.unpack_two_ints (Py.split "-" t)) as [[x y]|e] eqn:Hu.
  - apply unpack_two_ints_returns in Hu as (a & b & -> & Ha & Hb).
    destruct (Hno a b x y Ha Hb eq_refl).
  - exists e. reflexivity.
Qed.

(** Every token either contributes or is broken. *)
Lemma token_yields_or_broken (t : string) :
  (exists fs msgs, token_yields t fs msgs) \/ token_broken t.
Proof.
  destruct (Py.contains "-" t) eqn:Hc.
  - destruct (Py.unpack_two_ints (Py.split "-" t)) as [[x y]|e] eqn:Hu.
    + apply unpack_two_ints_returns in Hu as (a & b & -> & Ha & Hb).
      left. eexists _, _. apply (yields_range a b x y Ha Hb).
    + right. split; [exact Hc|]. intros a b x y Ha Hb ->.
      destruct Ha as [Na Hx], Hb as [Nb Hy].
      change (a ++ "-" ++ b) with (a ++ String "-" b) in Hu.
      rewrite (split_at_sep "-" a b Na), (split_no_sep "-" b Nb) in Hu.
      cbn in Hu. rewrite Hx, Hy in Hu. discriminate.
  - left. destruct (Py.int t) as [n|] eqn:Hi.
    + eexists _, _. apply (yields_integer t n). split; assumption.
    + eexists _, _. apply (yields_nothing t Hc Hi).
Qed.

Lemma token_yields_not_broken (t : string) (fs : list Z) (msgs : list Msg) :
  token_yields t fs msgs -> ~ token_broken t.
Proof.
  intros Hy [Hc Hno]. destruct Hy as [t n [Nt _] | a b x y Ha Hb | t Nt _].
  - congruence.
  - exact (Hno a b x y Ha Hb eq_refl).
  - congruence.
Qed.

Lemma parse_tokens_yields (t : string) (fs : list Z) (msgs : list Msg)
    (rest : list string) (acc : list Z) (st : State) :
  token_yields t fs msgs ->
  parse_tokens (t :: rest) acc st
  = parse_tokens rest (acc ++ fs) (with_stdout (stdout st ++ msgs) st).
Proof.
  assert (E : with_stdout (stdout st ++ []) st = st).
  { rewrite app_nil_r. destruct st; reflexivity. }
  intros [t' n Hn | a b x y Ha Hb | t' Nt Hi].
  - rewrite (parse_tokens_single t' n rest acc Hn), E. reflexivity.
  - rewrite (parse_tokens_range a b x y rest acc Ha Hb), E. reflexivity.
  - rewrite app_nil_r. apply (parse_tokens_skips_invalid t' rest acc st Nt Hi).
Qed.

Lemma parse_tokens_all_yield (tokens : list string)
    (rs : list (list Z * list Msg)) (acc : list Z) (st : State) :
  Forall2 (fun t r => token_yields t (fst r) (snd r)) tokens rs ->
  parse_tokens tokens acc st
  = (with_stdout (stdout st ++ concat (map snd rs)) st,
     Return (acc ++ concat (map fst rs))%list).
Proof.
  intros H. revert acc st.
  induction H as [|t r ts rs Ht _ IH]; intros acc st.
  - cbn. rewrite !app_nil_r. destruct st; reflexivity.
  - rewrite (parse_tokens_yields t _ _ ts acc st Ht), IH. cbn.
    rewrite <- !app_assoc. reflexivity.
Qed.

(** X1.  When no token of the frame-range string is broken, that is, when
    each token is an integer written without a minus sign, a range
    [start-end] of two such integers in either order, or a token without a
    dash that is not an integer, parsing returns: the result is the
    concatenation, in token order, of what the tokens contribute (one
    frame, the inclusive sequence, nothing), one line of diagnostic is
    printed for each token that is not an integer, in token order, and
    nothing else of the state changes. *)
Theorem parse_returns_when_no_token_is_broken (s : string)
    (rs : list (list Z * list Msg)) (st : State) :
  Forall2 (fun t r => token_yields t (fst r) (snd r)) (Py.split "," s) rs ->
  _parse_frame_ranges s st
  = (with_stdout (stdout st ++ concat (map snd rs)) st,
     Return (concat (map fst rs))).
Proof.
  intros H. unfold _parse_frame_ranges.
  apply (parse_tokens_all_yield _ rs [] st H).
Qed.

Lemma parse_returns_when_no_token_is_broken_witness :
  _parse_frame_ranges "4, x,5-3,,2-3" empty_state
  = (with_stdout [MsgInvalidRange " x"; MsgInvalidRange ""] empty_state,
     Return [4; 2; 3]).
Proof.
  apply (parse_returns_when_no_token_is_broken "4, x,5-3,,2-3"
           [([4], []); ([], [MsgInvalidRange " x"]); ([], []);
            ([], [MsgInvalidRange ""]); ([2; 3], [])] empty_state).
  repeat (constructor 2; [|]); [ | | | | | constructor 1].
  - exact (yields_integer "4" 4 (conj eq_refl eq_refl)).
  - exact (yields_nothing " x" eq_refl eq_refl).
  - exact (yields_range "5" "3" 5 3 (conj eq_refl eq_refl)
             (conj eq_refl eq_refl)).
  - exact (yields_nothing "" eq_refl eq_refl).
  - exact (yields_range "2" "3" 2 3 (conj eq_refl eq_refl)
             (conj eq_refl eq_refl)).
Defined.

Lemma parse_tokens_raises_iff (tokens : list string) (acc : list Z)
    (st : State) :
  (exists e, snd (parse_tokens tokens acc st) = Raise e) <->
  Exists token_broken tokens.
Proof.
  revert acc st. induction tokens as [|t ts IH]; intros acc st.
  - cbn. split; [intros [e [=]]|intros H; inversion H].
  - destruct (token_yields_or_broken t) as [(fs & msgs & Hy)|Hb].
    + rewrite (parse_tokens_yields t fs msgs ts acc st Hy), IH.
      split; [intros H; right; exact H|].
      intros H. inversion H as [? ? Hb|]; subst; [|assumption].
      destruct (token_yields_not_broken t fs msgs Hy Hb).
    + destruct (parse_tokens_broken t ts acc st Hb) as [e He].
      rewrite He. cbn. split; [intros _; left; exact Hb|].
      intros _. exists e. reflexivity.
Qed.

(** X2.  Parsing raises exactly when some token is broken: it has a dash
    and is not two integers, written without a minus sign, around one
    dash.  When it raises, what was printed before stays printed and
    nothing else of the state has changed. *)
Theorem parse_raises_iff_some_token_is_broken (s : string) (st : State) :
  ((exists e, snd (_parse_frame_ranges s st) = Raise e) <->
   Exists token_broken (Py.split "," s)) /\
  exists msgs,
    fst (_parse_frame_ranges s st) = with_stdout (stdout st ++ msgs) st.
Proof.
  split.
  - apply parse_tokens_raises_iff.
  - apply parse_tokens_only_prints.
Qed.

(** ** The frames of a range *)

Lemma count_up_in (start : Z) (n : nat) (z : Z) :
  In z (count_up start n) <-> start <= z < start + Z.of_nat n.
Proof.
  revert start. induction n as [|n IH]; intros start; cbn [count_up].
  - cbn. lia.
  - cbn [In]. rewrite IH. lia.
Qed.

Lemma count_up_sorted (start : Z) (n : nat) :
  StronglySorted Z.lt (count_up start n).
Proof.
  revert start. induction n as [|n IH]; intros start; cbn [count_up].
  - constructor.
  - constructor; [apply IH|].
    apply List.Forall_forall. intros z Hz. apply count_up_in in Hz. lia.
Qed.

Lemma count_up_length (start : Z) (n : nat) : length (count_up start n) = n.
Proof.
  revert start. induction n as [|n IH]; intros start; [reflexivity|].
  cbn. f_equal. apply IH.
Qed.

(** X3.  A range token [start-end] of two integers written without a minus
    sign appends to the list of frames exactly the integers from [start]
    to [end], both included, each once and in ascending order; there are
    [end - start + 1] of them, none when the range is descending. *)
Theorem range_token_frames (a b : string) (x y : Z) :
  unsigned_integer a x -> unsigned_integer b y ->
  exists fs,
    (forall rest acc,
       parse_tokens ((a ++ "-" ++ b) :: rest) acc
       = parse_tokens rest (acc ++ fs)) /\
    (forall z, In z fs <-> x <= z <= y) /\
    StronglySorted Z.lt fs /\
    Z.of_nat (length fs) = Z.max 0 (y - x + 1).
Proof.
  intros Ha Hb. exists (inclusive x y). split; [|split; [|split]].
  - intros rest acc. apply (parse_tokens_range a b x y rest acc Ha Hb).
  - intros z. unfold inclusive. rewrite count_up_in. lia.
  - apply count_up_sorted.
  - unfold inclusive. rewrite count_up_length. lia.
Qed.

Lemma range_token_frames_witness :
  exists fs,
    (forall rest acc,
       parse_tokens ("250-252" :: rest) acc = parse_tokens rest (acc ++ fs)) /\
    (forall z, In z fs <-> 250 <= z <= 252) /\
    StronglySorted Z.lt fs /\
    Z.of_nat (length fs) = Z.max 0 (252 - 250 + 1).
Proof.
  exact (range_token_frames "250" "252" 250 252 (conj eq_refl eq_refl)
           (conj eq_refl eq_refl)).
Defined.

(** ** The names of the output files *)

Lemma chars_append (a b : string) :
  list_ascii_of_string (a ++ b)
  = (list_ascii_of_string a ++ list_ascii_of_string b)%list.
Proof. induction a as [|c a IH]; [reflexivity|]. cbn. f_equal. exact IH. Qed.

Lemma chars_inj (a b : string) :
  list_ascii_of_string a = list_ascii_of_string b -> a = b.
Proof.
  intros H. rewrite <- (string_of_list_ascii_of_string a),
    <- (string_of_list_ascii_of_string b), H. reflexivity.
Qed.

Lemma string_of_uint_numeric (d : Decimal.uint) :
  List.Forall (fun c => numeric_char c = true)
    (list_ascii_of_string (NilEmpty.string_of_uint d)).
Proof.
  induction d; cbn; constructor; try assumption; reflexivity.
Qed.

Lemma str_numeric (n : Z) :
  List.Forall (fun c => numeric_char c = true)
    (list_ascii_of_string (Py.str n)).
Proof.
  unfold Py.str. destruct (Z.to_int n) as [d|d]; cbn [NilZero.string_of_int].
  - destruct d; try apply string_of_uint_numeric.
    cbn. constructor; [reflexivity|constructor].
  - cbn. constructor; [reflexivity|].
    destruct d; try apply string_of_uint_numeric.
    cbn. constructor; [reflexivity|constructor].
Qed.

Lemma str_inj (n m : Z) : Py.str n = Py.str m -> n = m.
Proof.
  unfold Py.str. intros H. apply DecimalZ.to_int_inj.
  assert (G : forall z, Z.to_int z <> Decimal.Pos Decimal.Nil /\
                        Z.to_int z <> Decimal.Neg Decimal.Nil).
  { intros [|p|p]; cbn; split; try discriminate;
      intros [= E]; exact (DecimalPos.Unsigned.to_uint_nonnil p E). }
  destruct (G n) as [G1 G2], (G m) as [G3 G4].
  pose proof (NilZero.isi _ G1 G2) as E1.
  pose proof (NilZero.isi _ G3 G4) as E2.
  rewrite H in E1. rewrite E1 in E2. injection E2 as E2. exact E2.
Qed.

Lemma last_char_numeric (l : list ascii) (x : ascii) (pre rest : list ascii) :
  List.Forall (fun c => numeric_char c = true) (pre ++ x :: rest) ->
  numeric_char x = true.
Proof.
  intros H. apply List.Forall_app in H as [_ H]. inversion H. assumption.
Qed.

(** Two lists that end in the letter e, each followed by a printed number:
    equal wholes have equal parts. *)
Lemma number_after_e (u v d1 d2 : list ascii) :
  List.Forall (fun c => numeric_char c = true) d1 ->
  List.Forall (fun c => numeric_char c = true) d2 ->
  ((u ++ ["e"%char]) ++ d1 = (v ++ ["e"%char]) ++ d2)%list ->
  u = v /\ d1 = d2.
Proof.
  intros H1 H2 E.
  apply app_eq_app in E as [l [[Eu Ed]|[Ev Ed]]].
  - assert (l = []).
    { destruct l as [|c l]; [reflexivity|exfalso].
      destruct (exists_last (l:=c :: l)) as (l' & x & El); [discriminate|].
      rewrite El in Eu, Ed. rewrite app_assoc in Eu.
      apply app_inj_tail in Eu as [_ <-].
      rewrite Ed, <- app_assoc in H2. cbn in H2.
      pose proof (last_char_numeric [] _ _ _ H2) as Hx. discriminate. }
    subst l. rewrite app_nil_r in Eu. cbn in Ed.
    apply app_inj_tail in Eu as [-> _]. split; [reflexivity|congruence].
  - assert (l = []).
    { destruct l as [|c l]; [reflexivity|exfalso].
      destruct (exists_last (l:=c :: l)) as (l' & x & El); [discriminate|].
      rewrite El in Ev, Ed. rewrite app_assoc in Ev.
      apply app_inj_tail in Ev as [_ <-].
      rewrite Ed, <- app_assoc in H1. cbn in H1.
      pose proof (last_char_numeric [] _ _ _ H1) as Hx. discriminate. }
    subst l. rewrite app_nil_r in Ev. cbn in Ed.
    apply app_inj_tail in Ev as [-> _]. split; [reflexivity|congruence].
Qed.

(** X4.  For one file format, the file name of a frame determines the
    camera name and the frame number: two cameras with different names, or
    two different frames of one camera, never get the same file name. *)
Theorem frame_filename_inj (name1 name2 : string) (frame1 frame2 : Z)
    (format : string) :
  frame_filename name1 frame1 format = frame_filename name2 frame2 format ->
  name1 = name2 /\ frame1 = frame2.
Proof.
  unfold frame_filename. intros E.
  apply (f_equal list_ascii_of_string) in E.
  rewrite !chars_append in E.
  change (list_ascii_of_string "_frame")
    with (["_"; "f"; "r"; "a"; "m"]%char ++ ["e"%char])%list in E.
  rewrite !app_assoc in E. apply app_inv_tail in E. apply app_inv_tail in E.
  apply number_after_e in E as [Eu Ed]; try apply str_numeric.
  apply app_inv_tail in Eu. apply chars_inj in Eu, Ed.
  split; [exact Eu|apply str_inj, Ed].
Qed.

Lemma frame_filename_inj_witness :
  frame_filename "CamA" 4 "PNG" = "CamA_frame4.png" /\
  ("CamA" = "CamA" /\ 4 = 4).
Proof.
  split; [reflexivity|].
  exact (frame_filename_inj "CamA" "CamA" 4 4 "PNG" eq_refl).
Defined.

(** ** What [execute] does, by the ranges of the settings *)

Lemma new_RenderJob_parsed (cs : CameraSettings) (fs : list Z) (s : State) :
  parsed_frames (frame_ranges cs) = Return fs ->
  exists msgs,
    new_RenderJob cs s
    = (with_heap (heap s ++ [new_job cs fs (filepath (render (scene s)))])
         (with_stdout (stdout s ++ msgs) s),
       Return (length (heap s))).
Proof.
  unfold parsed_frames, new_RenderJob, _parse_frame_ranges. intros Hp.
  destruct (parse_tokens_only_prints (Py.split "," (frame_ranges cs)) [] s)
    as [msgs Hm].
  pose proof (parse_tokens_outcome (Py.split "," (frame_ranges cs)) [] s
                empty_state) as Ho.
  rewrite Hp in Ho. exists msgs. unfold bind at 1.
  destruct (parse_tokens _ [] s) as [s1 r]. cbn in Hm, Ho. subst s1 r.
  reflexivity.
Qed.

Lemma new_RenderJob_raises (cs : CameraSettings) (e : Exn) (s : State) :
  parsed_frames (frame_ranges cs) = Raise e ->
  exists msgs,
    new_RenderJob cs s = (with_stdout (stdout s ++ msgs) s, Raise e).
Proof.
  unfold parsed_frames, new_RenderJob, _parse_frame_ranges. intros Hp.
  destruct (parse_tokens_only_prints (Py.split "," (frame_ranges cs)) [] s)
    as [msgs Hm].
  pose proof (parse_tokens_outcome (Py.split "," (frame_ranges cs)) [] s
                empty_state) as Ho.
  rewrite Hp in Ho. exists msgs. unfold bind at 1.
  destruct (parse_tokens _ [] s) as [s1 r]. cbn in Hm, Ho. subst s1 r.
  reflexivity.
Qed.

(** The jobs are built for the settings with a camera (those are [css]
    here, the others are passed over) up to the first whose range makes
    the parser raise. *)
Lemma build_jobs_prefix (settings pre : list CameraSettings)
    (fss : list (list Z)) (s : State) :
  Forall2 (fun cs fs => parsed_frames (frame_ranges cs) = Return fs) pre fss ->
  (with_camera settings = pre ->
   exists msgs,
     build_jobs settings s
     = (with_heap (heap s ++ make_jobs (filepath (render (scene s))) pre fss)
          (with_stdout (stdout s ++ msgs) s),
        Return (seq (length (heap s)) (length fss)))) /\
  (forall cs post e,
     with_camera settings = (pre ++ cs :: post)%list ->
     parsed_frames (frame_ranges cs) = Raise e ->
     exists msgs,
       build_jobs settings s
       = (with_heap (heap s ++ make_jobs (filepath (render (scene s))) pre fss)
            (with_stdout (stdout s ++ msgs) s),
          Raise e)).
Proof.
  revert pre fss s.
  induction settings as [|c settings IH]; intros pre fss s Hpre.
  - split.
    + cbn. intros <-. inversion Hpre; subst. exists [].
      cbn. rewrite !app_nil_r. destruct s; reflexivity.
    + intros cs post e H. destruct pre; discriminate.
  - cbn [build_jobs with_camera List.filter].
    destruct (camera c) as [cam|] eqn:Hc; [|apply IH, Hpre].
    destruct Hpre as [|c' fs pre' fss' Hfs Hpre'].
    + split; [discriminate|]. cbn [app]. intros cs post e [= <- _] He.
      destruct (new_RenderJob_raises c e s He) as [msgs Hn].
      exists msgs. unfold bind at 1. rewrite Hn. cbn.
      rewrite app_nil_r. destruct s; reflexivity.
    + destruct (new_RenderJob_parsed c' fs s Hfs) as [m1 Hn].
      set (s1 := with_heap _ _) in Hn.
      destruct (IH pre' fss' s1 Hpre') as [IH1 IH2].
      assert (Hst : forall msgs,
                with_heap (heap s1 ++ make_jobs (filepath (render (scene s1)))
                                                pre' fss')
                  (with_stdout (stdout s1 ++ msgs) s1)
                = with_heap (heap s ++ make_jobs (filepath (render (scene s)))
                                                 (c' :: pre') (fs :: fss'))
                    (with_stdout (stdout s ++ (m1 ++ msgs)) s)).
      { intros msgs. unfold s1, make_jobs. cbn.
        rewrite <- !app_assoc. reflexivity. }
      assert (Hlen : length (heap s1) = S (length (heap s))).
      { unfold s1. cbn. rewrite length_app. cbn. lia. }
      split.
      * intros [= -> Hw]. destruct (IH1 Hw) as [m2 Hb].
        exists (m1 ++ m2)%list. unfold bind at 1. rewrite Hn.
        unfold bind at 1. rewrite Hb. cbn [ret]. rewrite Hst, Hlen.
        reflexivity.
      * intros cs post e [= -> Hw] He. destruct (IH2 cs post e Hw He) as [m2 Hb].
        exists (m1 ++ m2)%list. unfold bind at 1. rewrite Hn.
        unfold bind at 1. rewrite Hb. rewrite Hst. reflexivity.
Qed.

(** X5.  When the range of every setting with a camera parses and at least
    one setting has a camera, [execute] returns RUNNING_MODAL: it has
    built one job per such setting, in order, with the parsed frames and
    the scene's output path, has queued them and has made the operator a
    modal handler; nothing is visited or rendered yet. *)
Theorem execute_starts_batch (s0 : State) (fss : list (list Z)) :
  Forall2 (fun cs fs => parsed_frames (frame_ranges cs) = Return fs)
          (with_camera (cam_settings (scene s0))) fss ->
  fss <> [] ->
  exists msgs,
    execute s0 = (batch_state s0 fss msgs, Return RUNNING_MODAL).
Proof.
  intros Hfss Hne.
  destruct (build_jobs_prefix (cam_settings (scene s0)) _ fss s0 Hfss)
    as [H _].
  destruct (H eq_refl) as [msgs Hb]. exists msgs.
  unfold execute, bind at 1, get. unfold bind at 1. rewrite Hb.
  destruct fss as [|fs fss]; [contradiction|]. reflexivity.
Qed.

Lemma execute_starts_batch_witness :
  exists msgs,
    execute demo_state
    = (batch_state demo_state [[1; 3; 4]; [7; 8]] msgs, Return RUNNING_MODAL).
Proof.
  apply (execute_starts_batch demo_state [[1; 3; 4]; [7; 8]]).
  - repeat (constructor 2; [reflexivity|]). constructor 1.
  - discriminate.
Defined.

(** X6.  When a setting with a camera has a range that makes the parser
    raise, [execute] raises the exception of the first such setting.  The
    operator's queue is not assigned, the operator is not made a modal
    handler and nothing is reported: all that is left are the lines
    printed and the job objects built for the settings before, which
    nothing refers to. *)
Theorem execute_raises_on_broken_range (s0 : State)
    (pre : list CameraSettings) (cs : CameraSettings)
    (post : list CameraSettings) (fss : list (list Z)) (e : Exn) :
  with_camera (cam_settings (scene s0)) = (pre ++ cs :: post)%list ->
  Forall2 (fun c fs => parsed_frames (frame_ranges c) = Return fs) pre fss ->
  parsed_frames (frame_ranges cs) = Raise e ->
  exists msgs,
    execute s0
    = (with_heap (heap s0 ++ make_jobs (filepath (render (scene s0))) pre fss)
         (with_stdout (stdout s0 ++ msgs) s0),
       Raise e).
Proof.
  intros Hw Hpre He.
  destruct (build_jobs_prefix (cam_settings (scene s0)) pre fss s0 Hpre)
    as [_ H].
  destruct (H cs post e Hw He) as [msgs Hb]. exists msgs.
  unfold execute, bind at 1, get. unfold bind at 1. rewrite Hb. reflexivity.
Qed.

Lemma execute_raises_on_broken_range_witness :
  exists msgs,
    execute broken_state
    = (with_heap [new_job settingA [1; 3; 4] "/out"]
         (with_stdout msgs broken_state),
       Raise (ValueError_invalid_literal "")).
Proof.
  apply (execute_raises_on_broken_range broken_state [settingA] setting_broken
           [settingB] [[1; 3; 4]]).
  - reflexivity.
  - constructor 2; [reflexivity|constructor 1].
  - reflexivity.
Defined.

(** ** The settings list: adding, removing, and the panel *)

(** Parsing, and so the construction of a job, reads nothing of the scene
    but the output path. *)
Lemma parse_tokens_scene (tokens : list string) (acc : list Z) (sc : Scene)
    (s : State) :
  parse_tokens tokens acc (with_scene sc s)
  = (with_scene sc (fst (parse_tokens tokens acc s)),
     snd (parse_tokens tokens acc s)).
Proof.
  revert acc s. induction tokens as [|t ts IH]; intros acc s.
  - reflexivity.
  - cbn [parse_tokens]. destruct (Py.contains "-" t).
    + destruct (Py.unpack_two_ints (Py.split "-" t)) as [[a b]|e];
        [apply IH|reflexivity].
    + destruct (Py.int t) as [n|]; [apply IH|].
      unfold bind, print, modify.
      specialize (IH acc (with_stdout (stdout s ++ [MsgInvalidRange t]) s)).
      change (with_stdout (stdout (with_scene sc s) ++ [MsgInvalidRange t])
                (with_scene sc s))
        with (with_scene sc (with_stdout (stdout s ++ [MsgInvalidRange t]) s)).
      rewrite IH.
      destruct (parse_tokens ts acc _) as [s' [r|e]]; reflexivity.
Qed.

Lemma new_RenderJob_scene (cs : CameraSettings) (sc : Scene) (s : State) :
  filepath (render sc) = filepath (render (scene s)) ->
  new_RenderJob cs (with_scene sc s)
  = (with_scene sc (fst (new_RenderJob cs s)), snd (new_RenderJob cs s)).
Proof.
  intros Hp. unfold new_RenderJob, _parse_frame_ranges, bind, get, modify, ret.
  rewrite parse_tokens_scene.
  pose proof (parse_tokens_only_prints (Py.split "," (frame_ranges cs)) [] s)
    as [msgs Hm].
  destruct (parse_tokens _ [] s) as [s1 [fs|e]]; [|reflexivity].
  cbn in Hm. subst s1. cbn. rewrite Hp. reflexivity.
Qed.

Lemma build_jobs_scene (settings : list CameraSettings) (sc : Scene)
    (s : State) :
  filepath (render sc) = filepath (render (scene s)) ->
  build_jobs settings (with_scene sc s)
  = (with_scene sc (fst (build_jobs settings s)),
     snd (build_jobs settings s)).
Proof.
  revert s. induction settings as [|cs settings IH]; intros s Hp.
  - reflexivity.
  - cbn [build_jobs]. destruct (camera cs); [|apply IH, Hp].
    assert (Hp1 : filepath (render (scene (fst (new_RenderJob cs s))))
                  = filepath (render (scene s))).
    { unfold new_RenderJob, _parse_frame_ranges, bind, get, modify, ret.
      pose proof (parse_tokens_only_prints (Py.split "," (frame_ranges cs))
                    [] s) as [msgs Hm].
      destruct (parse_tokens _ [] s) as [s1 [fs|e]]; cbn in Hm; subst s1;
        reflexivity. }
    unfold bind. rewrite (new_RenderJob_scene cs sc s Hp).
    destruct (new_RenderJob cs s) as [s1 [j|e]]; [|reflexivity].
    cbn [fst snd] in *.
    rewrite (IH s1) by congruence.
    destruct (build_jobs settings s1) as [s2 [js|e]]; reflexivity.
Qed.

(** A setting without a camera at the end of the list gets no job. *)
Lemma build_jobs_default_last (settings : list CameraSettings) (s : State) :
  build_jobs (settings ++ [default_setting]) s = build_jobs settings s.
Proof.
  revert s. induction settings as [|cs settings IH]; intros s.
  - reflexivity.
  - cbn [app build_jobs]. destruct (camera cs); [|apply IH].
    unfold bind.
    destruct (new_RenderJob cs s) as [s1 [j|e]]; [|reflexivity].
    rewrite IH. reflexivity.
Qed.

(** X7.  A setting that was just added has no camera, an empty range and
    the preview on, and it goes to the end of the list.  It changes
    nothing for the render operator: [execute] returns, raises, prints,
    builds and queues as it does without the new setting. *)
Theorem added_setting_is_ignored (s : State) :
  let added := fst (SCENE_OT_AddCamSetting_execute s) in
  snd (SCENE_OT_AddCamSetting_execute s) = Return FINISHED /\
  added
  = with_scene (set_cam_settings
                  (cam_settings (scene s)
                     ++ [ {| camera := None; frame_ranges := "";
                             show_preview := true |} ]) (scene s)) s /\
  execute added
  = (with_scene (scene added) (fst (execute s)), snd (execute s)).
Proof.
  cbn zeta. split; [reflexivity|]. split; [reflexivity|].
  unfold SCENE_OT_AddCamSetting_execute, bind, modify, ret. cbn [fst].
  set (sc := set_cam_settings _ _).
  unfold execute, bind, get, modify, ret, print.
  change (cam_settings (scene (with_scene sc s)))
    with (cam_settings (scene s) ++ [default_setting])%list.
  rewrite build_jobs_default_last.
  rewrite (build_jobs_scene (cam_settings (scene s)) sc s eq_refl).
  destruct (build_jobs (cam_settings (scene s)) s) as [s1 [[|j js]|e]];
    reflexivity.
Qed.

Lemma draw_settings_buttons (i : nat) (settings : list CameraSettings) :
  flat_map buttons (draw_settings i settings)
  = map (fun k => ("scene.remove_cam_setting", Some (Z.of_nat k)))
        (seq i (length settings)).
Proof.
  revert i. induction settings as [|cs settings IH]; intros i.
  - reflexivity.
  - cbn. f_equal. apply IH.
Qed.

(** X8.  The panel shows one remove button per setting, carrying the
    position of the setting counted from 0, and after them the buttons
    that add a setting and start the render.  Pressing the remove button
    of a setting takes exactly that setting out of the list: the settings
    before and after it stay, in their order. *)
Theorem remove_button_removes_its_setting (s : State) :
  flat_map buttons (CustomRenderPanel_draw s)
  = (map (fun k => ("scene.remove_cam_setting", Some (Z.of_nat k)))
         (seq 0 (length (cam_settings (scene s))))
       ++ [("scene.add_cam_setting", None);
           ("render.cheese_batch_render", None)])%list /\
  forall k, (k < length (cam_settings (scene s)))%nat ->
    exists run_operator,
      press ("scene.remove_cam_setting", Some (Z.of_nat k))
      = Some run_operator /\
      run_operator s
      = (with_scene
           (set_cam_settings
              (take k (cam_settings (scene s))
                 ++ drop (S k) (cam_settings (scene s))) (scene s)) s,
         Return FINISHED).
Proof.
  split.
  - unfold CustomRenderPanel_draw. rewrite flat_map_app.
    rewrite draw_settings_buttons. reflexivity.
  - intros k Hk. exists (SCENE_OT_RemoveCamSetting_execute (Z.of_nat k)).
    split; [reflexivity|].
    unfold SCENE_OT_RemoveCamSetting_execute, bind, modify, ret,
      collection_remove.
    destruct (Z.leb_spec 0 (Z.of_nat k)) as [_|Hneg]; [|lia].
    rewrite Nat2Z.id, delete_take_drop. reflexivity.
Qed.

Lemma delete_last {A : Type} (l : list A) (x : A) :
  delete (length l) (l ++ [x])%list = l.
Proof.
  induction l as [|y l IH]; [reflexivity|]. cbn. f_equal. exact IH.
Qed.

(** X9.  Removing the last setting right after adding one gives back the
    state from before; an added setting is always the last one. *)
Theorem add_then_remove_last (s : State) :
  fst (SCENE_OT_RemoveCamSetting_execute
         (Z.of_nat (length (cam_settings (scene s))))
         (fst (SCENE_OT_AddCamSetting_execute s)))
  = s /\
  last (cam_settings (scene (fst (SCENE_OT_AddCamSetting_execute s))))
  = Some default_setting.
Proof.
  split.
  - unfold SCENE_OT_RemoveCamSetting_execute, SCENE_OT_AddCamSetting_execute,
      bind, modify, ret, collection_remove.
    cbn [fst scene cam_settings with_scene set_cam_settings].
    destruct (Z.leb_spec 0 (Z.of_nat (length (cam_settings (scene s)))))
      as [_|Hneg]; [|lia].
    rewrite Nat2Z.id, delete_last. destruct s as [[] ]; reflexivity.
  - cbn. apply last_snoc.
Qed.

(** * The transitions of a batch *)


Section BatchCases.
Context {host : Host}.
Variables (base : nat) (settings : list CameraSettings) (P0 : string)
          (O0 : bool) (tr0 : list Action) (plan : list (nat * Z)).
Hypothesis Hroom :
  forall entry, fits entry (if O0 then 0%nat else length plan).




End BatchCases.

(** ** The files and the renders of a batch *)

Lemma render_calls_app (a b : list Action) :
  render_calls (a ++ b) = (render_calls a ++ render_calls b)%list.
Proof. apply flat_map_app. Qed.

Lemma render_calls_frame_sets (job : nat) (fs : list Z) :
  render_calls (map (FrameSet job) fs) = [].
Proof. induction fs as [|f fs IH]; [reflexivity|exact IH]. Qed.

Lemma isfile_In (p : string) (s : State) :
  isfile p s = true <-> In p (disk s).
Proof.
  unfold isfile. rewrite existsb_exists. split.
  - intros (x & Hin & Heq). apply String.eqb_eq in Heq. subst x. exact Hin.
  - intros Hin. exists p. split; [exact Hin|apply String.eqb_refl].
Qed.

Section BatchFiles.
Context {host : Host}.
Variables (base : nat) (settings : list CameraSettings) (P0 F0 : string)
          (O0 : bool) (CS0 : list CameraSettings) (D0 : list string).



End BatchFiles.

Section BatchFilesSteps.
Context {host : Host}.
Variables (base : nat) (settings : list CameraSettings) (P0 : string)
          (O0 : bool) (tr0 : list Action) (plan : list (nat * Z)).
Variables (F0 : string) (CS0 : list CameraSettings) (D0 : list string).
Hypothesis Hroom :
  forall entry, fits entry (if O0 then 0%nat else length plan).






End BatchFilesSteps.

(** ** The files and the renders of a whole batch *)




Section WholeBatch.
Context {host : Host}.






End WholeBatch.








(** ** The end of a batch *)

Section BatchEnds.
Context {host : Host}.
Variables (base : nat) (settings : list CameraSettings) (P0 : string)
          (O0 : bool) (tr0 : list Action) (plan : list (nat * Z)).
Hypothesis Hroom :
  forall entry, fits entry (if O0 then 0%nat else length plan).

(** The host calls a handler with the scene alone. *)
Hypothesis Hargs : handler_arguments = 1%nat.








End BatchEnds.


(** ** The order in which the jobs finish *)

Section BatchFinishes.
Context {host : Host}.
Variables (base : nat) (settings : list CameraSettings) (P0 : string)
          (O0 : bool) (tr0 : list Action) (plan : list (nat * Z)).
Hypothesis Hroom :
  forall entry, fits entry (if O0 then 0%nat else length plan).




End BatchFinishes.


(** ** A batch on any host *)

Lemma not_finished_last (l ext : list Action) (a : Action) :
  (forall job, a <> Finish job) ->
  ~ ((l ++ ext ++ [a])%list = [] \/
     exists before job, (l ++ ext ++ [a])%list = (before ++ [Finish job])%list).
Proof.
  intros Ha [E|(before & job & E)].
  - apply app_eq_nil in E as [_ E]. apply app_eq_nil in E as [_ E].
    discriminate.
  - rewrite !app_assoc in E. apply app_inj_tail in E as [_ E].
    exact (Ha job E).
Qed.

Lemma frame_sets_not_finished_last (l : list Action) (job : nat)
    (fs : list Z) :
  fs <> [] ->
  ~ ((l ++ map (FrameSet job) fs)%list = [] \/
     exists before job', (l ++ map (FrameSet job) fs)%list
                         = (before ++ [Finish job'])%list).
Proof.
  intros Hne.
  destruct (exists_last Hne) as (fs' & g & ->).
  rewrite map_app. cbn [map].
  apply (not_finished_last l (map (FrameSet job) fs') (FrameSet job g)).
  intros job'. discriminate.
Qed.

Section SafeProofs.
Context {host : Host}.
Variables (base : nat) (settings : list CameraSettings) (P0 F0 : string)
          (tr0 : list Action) (plan : list (nat * Z)).

(** The invariant does not read what the add-on prints or reports, the
    files, or whether the operator is a modal handler. *)
Lemma batch_safe_same (k : nat) (new : list Action) (s s' : State) :
  scene s' = scene s -> op_jobs s' = op_jobs s ->
  op_current_job s' = op_current_job s -> heap s' = heap s ->
  trace s' = trace s -> render_post s' = render_post s ->
  in_flight s' = in_flight s ->
  batch_safe base settings P0 F0 tr0 plan k new s ->
  batch_safe base settings P0 F0 tr0 plan k new s'.
Proof.
  intros Hsc Hq Hc Hh Ht Hrp Hfl [S1 S2 S3 S4 S5 S6 S7 S8 S9 S10].
  constructor; try assumption; try congruence.
  - intros i cs Hi. rewrite Hh. exact (S4 i cs Hi).
  - intros i Hi. unfold job_frames. rewrite Hh. exact (S5 i Hi).
  - rewrite Hrp, Hfl, Hsc, Hh. exact S9.
  - rewrite Hsc. exact S10.
Qed.

(** The job in hand of a batch. *)
Lemma batch_safe_job (k' : nat) (new : list Action) (s : State) :
  batch_safe base settings P0 F0 tr0 plan (S k') new s ->
  exists j cam,
    settings !! k' = Some (cam_setting j) /\
    heap s !! (base + k')%nat = Some j /\
    camera (cam_setting j) = Some cam /\
    is_cancelled j = false /\ original_filepath j = P0.
Proof.
  intros Sf. pose proof (safe_started _ _ _ _ _ _ _ _ _ Sf) as Hk.
  destruct (lookup_lt_is_Some_2 settings k') as [cs Hcs]; [lia|].
  destruct (safe_jobs _ _ _ _ _ _ _ _ _ Sf k' cs Hcs)
    as (j & cam & Hj & Hcs1 & Hcam & Hcn & Hor).
  exists j, cam. rewrite Hcs1. repeat split; assumption.
Qed.

Lemma current_job_idle_safe (k : nat) (new : list Action) (s : State) :
  batch_safe base settings P0 F0 tr0 plan k new s ->
  current_job_idle s = (s, Return (current_idle s)).
Proof.
  intros Sf. unfold current_job_idle, current_idle, bind, get.
  rewrite (safe_current _ _ _ _ _ _ _ _ _ Sf).
  destruct k as [|k']; [reflexivity|]. cbn [cur_of].
  destruct (batch_safe_job k' new s Sf) as (j & cam & _ & Hj & _).
  unfold get_job. rewrite Hj. reflexivity.
Qed.

(** The job in hand changes: its setting, its path and its flag stay and
    it gets no new frame. *)
Lemma batch_safe_put (k' : nat) (new new' : list Action) (s s' : State)
    (j j' : RenderJob) :
  batch_safe base settings P0 F0 tr0 plan (S k') new s ->
  heap s !! (base + k')%nat = Some j ->
  heap s' = <[(base + k')%nat := j']> (heap s) ->
  cam_setting j' = cam_setting j -> is_cancelled j' = is_cancelled j ->
  original_filepath j' = original_filepath j ->
  incl (frames j') (frames j) ->
  op_jobs s' = op_jobs s -> op_current_job s' = op_current_job s ->
  file_format (render (scene s')) = file_format (render (scene s)) ->
  trace s' = (tr0 ++ new')%list ->
  Forall (fun p => planned_call base settings P0 F0 (fst p) (snd p) /\
                   In (fst p, rc_frame (snd p)) plan)
         (render_calls new') ->
  ((render_post s' = [] /\ in_flight s' = []) \/
   (is_running j' = true /\ render_post s' = [(base + k')%nat] /\
    (length (in_flight s') <= 1)%nat /\
    scene_camera (scene s') = camera (cam_setting j))) ->
  (new' = [] \/ (exists before job, new' = (before ++ [Finish job])%list) ->
   filepath (render (scene s')) = P0) ->
  batch_safe base settings P0 F0 tr0 plan (S k') new' s'.
Proof.
  intros [S1 S2 S3 S4 S5 S6 S7 S8 S9 S10] Hj Hh Hcs Hcn Hor Hfr Hq Hc Hf Ht
    Hcalls Hhand Hrest.
  pose proof (lookup_lt_Some _ _ _ Hj) as Hlt.
  constructor; try assumption; try congruence.
  - intros i cs Hi.
    destruct (S4 i cs Hi) as (j1 & cam1 & Hl & H1 & H2 & H3 & H4).
    rewrite Hh. destruct (decide (base + i = base + k')%nat) as [E|E].
    + rewrite E in Hl |- *. rewrite Hj in Hl. injection Hl as <-.
      rewrite list_lookup_insert_eq by exact Hlt.
      exists j', cam1. repeat split; congruence.
    + rewrite list_lookup_insert_ne by congruence.
      exists j1, cam1. repeat split; assumption.
  - intros i Hi. destruct (decide (base + i = base + k')%nat) as [E|E].
    + rewrite E. rewrite (job_frames_insert_eq s s' _ j' Hh Hlt).
      intros p Hp. apply in_map_iff in Hp as (f & <- & Hf').
      apply (S5 k'); [lia|]. unfold job_frames. rewrite Hj.
      apply in_map. apply Hfr. exact Hf'.
    + rewrite (job_frames_insert_ne s s' _ _ j' Hh E). exact (S5 i Hi).
  - destruct Hhand as [Hidle|(Hr & Hrp & Hfl & Hsc)]; [left; exact Hidle|].
    right. exists (base + k')%nat, j'. split; [reflexivity|].
    split; [rewrite Hh; apply list_lookup_insert_eq; exact Hlt|].
    split; [exact Hr|]. split; [exact Hrp|]. split; [exact Hfl|].
    rewrite Hcs. exact Hsc.
Qed.

(** However the job in hand goes through its frames, the invariant is
    kept. *)
Lemma frames_outcome_safe (k' : nat) (new : list Action) (sb s' : State)
    (r : Outcome unit) (j : RenderJob) (cam : Camera) :
  batch_safe base settings P0 F0 tr0 plan (S k') new sb ->
  heap sb !! (base + k')%nat = Some j ->
  camera (cam_setting j) = Some cam ->
  render_post sb = [] -> in_flight sb = [] ->
  scene_camera (scene sb) = Some cam ->
  frames_outcome (base + k') j (cam_name cam) (frames j) sb s' r ->
  exists new',
    batch_safe base settings P0 F0 tr0 plan (S k') new' s' /\
    modal_handler s' = modal_handler sb.
Proof.
  intros Sf Hj Hcam Hrp Hfl Hsc Hout.
  destruct (batch_safe_job k' new sb Sf)
    as (j1 & cam1 & Hcs & Hj1 & _ & Hcn & Hor).
  rewrite Hj in Hj1. injection Hj1 as <-.
  pose proof (safe_trace _ _ _ _ _ _ _ _ _ Sf) as Htr0.
  pose proof (safe_format _ _ _ _ _ _ _ _ _ Sf) as Hfmt.
  pose proof (safe_calls _ _ _ _ _ _ _ _ _ Sf) as Hcalls.
  pose proof (safe_restored _ _ _ _ _ _ _ _ _ Sf) as Hrest.
  pose proof (safe_started _ _ _ _ _ _ _ _ _ Sf) as Hk.
  assert (Hplan : forall f, In f (frames j) -> In ((base + k')%nat, f) plan).
  { intros f Hf. apply (safe_frames _ _ _ _ _ _ _ _ _ Sf k'); [lia|].
    unfold job_frames. rewrite Hj. apply in_map. exact Hf. }
  destruct Hout as [Hres | visited rest asked Hsplit Hnone Hasked Htr Hheap
                             Hrp' Hfl' Hfp Hun].
  - destruct Hres as [sk f rest Hsplit _ _ Htr Hheap Hfl' Hrp' _ Hfp Hun
                     | _ Htr Hheap Hfl' Hrp' Hfp Hun];
      destruct Hun as (U1 & _ & U3 & _ & _ & _ & U7 & U8 & U9).
    + (* a render is requested *)
      eexists. split; [|exact U7].
      eapply (batch_safe_put k' new _ sb s' j _ Sf Hj Hheap);
        try reflexivity; try assumption.
      * cbn. rewrite Hsplit. intros x Hx. apply in_or_app. right. right.
        exact Hx.
      * rewrite Htr, Htr0, <- app_assoc. reflexivity.
      * rewrite !render_calls_app, render_calls_frame_sets. cbn.
        apply Forall_app. split; [exact Hcalls|].
        constructor; [|constructor]. cbn. split.
        -- exists k', (cam_setting j), cam. cbn.
           split; [reflexivity|]. split; [exact Hcs|]. split; [exact Hcam|].
           split; [exact Hsc|]. split; [reflexivity|].
           unfold frame_path, planned_path. rewrite Hor, Hfmt. reflexivity.
        -- apply Hplan. rewrite Hsplit. apply in_or_app. right. left.
           reflexivity.
      * right. split; [reflexivity|]. split; [rewrite Hrp', Hrp; reflexivity|].
        split; [rewrite Hfl', Hfl; cbn; lia|].
        rewrite U1, Hsc, Hcam. reflexivity.
      * intros Hlast. exfalso. revert Hlast. apply not_finished_last.
        intros job'. discriminate.
    + (* the job finishes *)
      eexists. split; [|exact U7].
      eapply (batch_safe_put k' new _ sb s' j _ Sf Hj Hheap);
        try reflexivity; try assumption.
      * cbn. intros x [].
      * rewrite Htr, Htr0, <- app_assoc. reflexivity.
      * rewrite !render_calls_app, render_calls_frame_sets. cbn.
        rewrite app_nil_r. exact Hcalls.
      * left. split; congruence.
      * intros _. rewrite Hfp. exact Hor.
  - (* a call has found the stack full *)
    destruct Hun as (U1 & _ & U3 & _ & _ & _ & U7 & U8 & U9).
    eexists. split; [|exact U7].
    eapply (batch_safe_put k' new _ sb s' j _ Sf Hj Hheap);
      try reflexivity; try assumption.
    + cbn. rewrite Hsplit. intros x Hx. apply in_or_app. right. exact Hx.
    + rewrite Htr, Htr0, <- app_assoc. reflexivity.
    + rewrite render_calls_app, render_calls_frame_sets, app_nil_r.
      exact Hcalls.
    + destruct asked.
      * right. split; [reflexivity|].
        split; [rewrite Hrp', Hrp; reflexivity|].
        split; [rewrite Hfl', Hfl; cbn; lia|].
        rewrite U1, Hsc, Hcam. reflexivity.
      * left. rewrite Hrp', Hfl', Hrp, Hfl. split; reflexivity.
    + intros Hlast. destruct visited as [|v visited].
      * rewrite (Hnone eq_refl). apply Hrest. cbn in Hlast.
        rewrite app_nil_r in Hlast. exact Hlast.
      * exfalso. revert Hlast. apply frame_sets_not_finished_last.
        discriminate.
Qed.

(** [modal] keeps the invariant, whether it returns or raises. *)
Lemma modal_safe (event : EventType) (k : nat) (new : list Action)
    (s : State) :
  batch_safe base settings P0 F0 tr0 plan k new s ->
  exists s' r k1 new1,
    modal event s = (s', r) /\
    batch_safe base settings P0 F0 tr0 plan k1 new1 s' /\
    modal_handler s' = modal_handler s.
Proof.
  intros Sf. destruct event.
  2:{ exists s, (Return PASS_THROUGH), k, new.
      split; [reflexivity|]. split; [exact Sf|reflexivity]. }
  unfold modal, bind at 1. rewrite (current_job_idle_safe k new s Sf).
  pose proof (safe_started _ _ _ _ _ _ _ _ _ Sf) as Hk.
  pose proof (safe_queue _ _ _ _ _ _ _ _ _ Sf) as Hq.
  pose proof (safe_current _ _ _ _ _ _ _ _ _ Sf) as Hc.
  destruct (current_idle s) eqn:Hidle.
  2:{ exists s, (Return PASS_THROUGH), k, new.
      split; [reflexivity|]. split; [exact Sf|reflexivity]. }
  assert (Hnone : render_post s = [] /\ in_flight s = []).
  { destruct (safe_handler _ _ _ _ _ _ _ _ _ Sf)
      as [H|(cur & j & Hcur & Hj & Hr & _)]; [exact H|].
    unfold current_idle in Hidle. rewrite Hc, Hcur, Hj, Hr in Hidle.
    discriminate. }
  destruct Hnone as [Hrp Hfl].
  unfold bind at 1, get.
  destruct (length settings - k)%nat as [|m] eqn:Hm.
  - (* the queue is empty: cancel *)
    rewrite Hq. cbn [seq]. unfold cancel, bind at 1, get. rewrite Hc.
    destruct k as [|k']; cbn [cur_of].
    + eexists _, (Return CANCELLED), 0%nat, new.
      split; [reflexivity|]. cbn.
      split; [eapply batch_safe_same; [..|exact Sf]; reflexivity|reflexivity].
    + destruct (batch_safe_job k' new s Sf)
        as (j & cam & Hcs & Hj & Hcam & Hcn & Hor).
      unfold bind at 1. unfold bind at 1.
      rewrite (finish_with_camera (base + k') j cam s Hj Hcam).
      eexists _, (Return CANCELLED), (S k'), (new ++ [Finish (base + k')%nat])%list.
      split; [reflexivity|]. cbn. split; [|reflexivity].
      eapply (batch_safe_put k' new _ s _ j (set_is_running false j) Sf Hj);
        try reflexivity.
      * intros x Hx. exact Hx.
      * cbn. rewrite (safe_trace _ _ _ _ _ _ _ _ _ Sf), <- app_assoc.
        reflexivity.
      * rewrite render_calls_app. cbn. rewrite app_nil_r.
        exact (safe_calls _ _ _ _ _ _ _ _ _ Sf).
      * left. split; assumption.
      * intros _. exact Hor.
  - (* the next job is taken from the queue and started *)
    rewrite Hq. cbn [seq].
    assert (Hkn : (k < length settings)%nat) by lia.
    destruct (lookup_lt_is_Some_2 settings k Hkn) as [cs Hcs].
    destruct (safe_jobs _ _ _ _ _ _ _ _ _ Sf k cs Hcs)
      as (j & cam & Hj & Hcs1 & Hcam & Hcn & Hor).
    rewrite <- Hcs1 in Hcam.
    unfold bind at 1, modify. unfold bind at 1. unfold bind at 1.
    cbn -[start].
    set (s1 := with_op_current_job _ _).
    assert (Hj1 : heap s1 !! (base + k)%nat = Some j) by exact Hj.
    rewrite (start_with_camera (base + k) j cam s1 Hj1 Hcam).
    set (sb := with_stdout _ _).
    assert (Sb : batch_safe base settings P0 F0 tr0 plan (S k) new sb).
    { destruct Sf as [S1 S2 S3 S4 S5 S6 S7 S8 S9 S10]. constructor;
        try assumption.
      - cbn. replace (length settings - S k)%nat with m by lia.
        f_equal. lia.
      - reflexivity.
      - left. split; assumption. }
    assert (Hjb : heap sb !! (base + k)%nat = Some j) by exact Hj.
    rewrite (render_next_frame_frames from_start _ j sb Hjb).
    destruct (render_frames_outcome from_start (base + k) cam (frames j) 0 j
                sb Hjb Hcn Hcam eq_refl) as (s' & r & Hrun & Hout).
    destruct (frames_outcome_safe k new sb s' r j cam Sb Hjb Hcam Hrp Hfl
                eq_refl Hout) as (new' & Sf' & Hm').
    rewrite Hrun.
    destruct Hout as [_|].
    + eexists _, _, (S k), new'. split; [reflexivity|].
      split; [exact Sf'|exact Hm'].
    + eexists _, _, (S k), new'. split; [reflexivity|].
      split; [exact Sf'|exact Hm'].
Qed.

(** The host finishing the render in flight keeps the invariant, whether
    the handler returns or raises. *)
Lemma host_render_post_safe (k : nat) (new : list Action) (s : State) :
  batch_safe base settings P0 F0 tr0 plan k new s ->
  exists k1 new1,
    batch_safe base settings P0 F0 tr0 plan k1 new1 (host_render_post s) /\
    modal_handler (host_render_post s) = modal_handler s.
Proof.
  intros Sf. unfold host_render_post.
  destruct (in_flight s) as [|call rest] eqn:Hfl.
  { exists k, new. split; [exact Sf|reflexivity]. }
  destruct (safe_handler _ _ _ _ _ _ _ _ _ Sf)
    as [[_ H]|(cur & j & Hcur & Hj & Hr & Hrp & Hlen & Hsc)];
    [congruence|].
  assert (rest = []) as ->.
  { rewrite Hfl in Hlen. destruct rest; [reflexivity|cbn in Hlen; lia]. }
  apply cur_of_Some in Hcur as (k' & -> & ->).
  destruct (batch_safe_job k' new s Sf)
    as (j1 & cam & Hcs & Hj1 & Hcam & Hcn & Hor).
  rewrite Hj in Hj1. injection Hj1 as <-.
  set (s1 := with_disk _ _).
  change (render_post s1) with (render_post s). rewrite Hrp.
  unfold call_handlers. cbn [fold_left]. unfold call_handler.
  destruct (handler_arguments =? 1)%nat.
  2:{ cbn [fst raise]. exists (S k'), new. split; [|reflexivity].
      destruct Sf as [S1 S2 S3 S4 S5 S6 S7 S8 S9 S10].
      constructor; try assumption.
      right. exists (base + k')%nat, j. repeat split; try assumption.
      cbn. lia. }
  assert (Hl : list_remove (base + k') (render_post s1) = Some []).
  { change (render_post s1) with (render_post s). rewrite Hrp. cbn.
    rewrite Nat.eqb_refl. reflexivity. }
  rewrite (render_post_handler_with_camera (base + k') j cam [] s1 Hj Hcam
             Hcn Hl).
  set (sb := with_heap _ _).
  assert (Hjb : heap sb !! (base + k')%nat = Some (set_is_running false j)).
  { cbn. apply list_lookup_insert_eq. exact (lookup_lt_Some _ _ _ Hj). }
  assert (Sb : batch_safe base settings P0 F0 tr0 plan (S k') new sb).
  { eapply (batch_safe_put k' new new s sb j (set_is_running false j) Sf Hj);
      try reflexivity.
    - intros x Hx. exact Hx.
    - exact (safe_trace _ _ _ _ _ _ _ _ _ Sf).
    - exact (safe_calls _ _ _ _ _ _ _ _ _ Sf).
    - left. split; reflexivity.
    - exact (safe_restored _ _ _ _ _ _ _ _ _ Sf). }
  rewrite (render_next_frame_frames from_handler _ _ sb Hjb).
  change (frames (set_is_running false j)) with (frames j).
  destruct (render_frames_outcome from_handler (base + k') cam (frames j) 0
              (set_is_running false j) sb Hjb Hcn Hcam eq_refl)
    as (s' & r & Hrun & Hout).
  assert (Hscb : scene_camera (scene sb) = Some cam).
  { change (scene sb) with (scene s). rewrite Hsc. exact Hcam. }
  destruct (frames_outcome_safe k' new sb s' r (set_is_running false j) cam
              Sb Hjb Hcam eq_refl eq_refl Hscb Hout) as (new' & Sf' & Hm').
  rewrite Hrun. cbn [fst]. exists (S k'), new'.
  split; [exact Sf'|exact Hm'].
Qed.

Lemma step_safe (s : State) (ev : HostEvent) (k : nat) (new : list Action) :
  batch_safe base settings P0 F0 tr0 plan k new s ->
  exists k1 new1, batch_safe base settings P0 F0 tr0 plan k1 new1 (step s ev).
Proof.
  intros Sf. destruct ev as [event|].
  - unfold step. destruct (modal_handler s); [|exists k, new; exact Sf].
    destruct (modal_safe event k new s Sf)
      as (s' & r & k1 & new1 & Hrun & Sf' & _).
    rewrite Hrun. exists k1, new1.
    destruct r as [[]|e]; try exact Sf';
      (eapply batch_safe_same; [..|exact Sf']; reflexivity).
  - destruct (host_render_post_safe k new s Sf) as (k1 & new1 & Sf' & _).
    exists k1, new1. exact Sf'.
Qed.

Lemma run_safe (evs : list HostEvent) (s : State) (k : nat)
    (new : list Action) :
  batch_safe base settings P0 F0 tr0 plan k new s ->
  exists k1 new1, batch_safe base settings P0 F0 tr0 plan k1 new1 (run s evs).
Proof.
  revert s k new. induction evs as [|ev evs IH]; intros s k new Sf.
  - exists k, new. exact Sf.
  - cbn [run fold_left]. destruct (step_safe s ev k new Sf) as (k1 & new1 & S1).
    exact (IH _ k1 new1 S1).
Qed.

End SafeProofs.

(** [execute] establishes the invariant. *)
Lemma batch_state_safe {host : Host} (s0 : State) (fss : list (list Z))
    (msgs : list Msg) :
  fresh s0 ->
  length (with_camera (cam_settings (scene s0))) = length fss ->
  batch_safe (length (heap s0)) (with_camera (cam_settings (scene s0)))
    (filepath (render (scene s0))) (file_format (render (scene s0)))
    (trace s0) (batch_plan (length (heap s0)) fss) 0 []
    (batch_state s0 fss msgs).
Proof.
  intros (Hcur & Hfl & Hrp) Hlen. constructor.
  - lia.
  - cbn. rewrite Nat.add_0_r, Nat.sub_0_r, Hlen. reflexivity.
  - exact Hcur.
  - intros i cs Hi.
    destruct (with_camera_has_camera _ i cs Hi) as [cam Hcam].
    destruct (make_jobs_lookup (filepath (render (scene s0))) _ fss i cs Hlen
                Hi) as (fs & _ & Hjob).
    exists (new_job cs fs (filepath (render (scene s0)))), cam.
    split; [|repeat split; assumption].
    cbn. rewrite lookup_app_r by lia.
    replace (length (heap s0) + i - length (heap s0))%nat with i by lia.
    exact Hjob.
  - intros i Hi.
    rewrite <- (queued_frames_plan (filepath (render (scene s0)))
                  (with_camera (cam_settings (scene s0))) fss (heap s0)
                  (batch_state s0 fss msgs) Hlen eq_refl).
    intros p Hp. apply in_flat_map. exists (length (heap s0) + i)%nat.
    split; [|exact Hp]. apply in_seq. lia.
  - cbn. rewrite app_nil_r. reflexivity.
  - reflexivity.
  - constructor.
  - left. split; assumption.
  - intros _. reflexivity.
Qed.

Section BatchOnAnyHost.
Context {host : Host}.

(** Every state of a batch satisfies the invariant, on any host. *)
Lemma batch_reachable_safe (s0 s1 : State) (evs : list HostEvent) :
  fresh s0 -> execute s0 = (s1, Return RUNNING_MODAL) ->
  exists fss msgs k new,
    Forall2 (fun cs fs => parsed_frames (frame_ranges cs) = Return fs)
            (with_camera (cam_settings (scene s0))) fss /\
    s1 = batch_state s0 fss msgs /\
    batch_safe (length (heap s0)) (with_camera (cam_settings (scene s0)))
      (filepath (render (scene s0))) (file_format (render (scene s0)))
      (trace s0) (batch_plan (length (heap s0)) fss) k new (run s1 evs).
Proof.
  intros Hfresh Hex.
  apply execute_running in Hex as (fss & msgs & Hfss & Hne & ->).
  pose proof (Forall2_length _ _ _ Hfss) as Hlen.
  destruct (run_safe _ _ _ _ _ _ evs _ 0%nat []
              (batch_state_safe s0 fss msgs Hfresh Hlen)) as (k & new & Sf).
  exists fss, msgs, k, new. split; [exact Hfss|]. split; [reflexivity|exact Sf].
Qed.

(** X10.  Every render a batch asks for is planned: it is asked for by the
    job of a setting with a camera, for a frame of that setting's parsed
    range, with the setting's camera as the scene's camera, in the context
    the setting's preview box selects (INVOKE_DEFAULT with the preview,
    EXEC_DEFAULT without), and with the output path made of the path the
    scene had when the batch began, the camera's name, the frame and the
    file format. *)
Theorem batch_renders_are_planned (s0 s1 : State) (evs : list HostEvent) :
  fresh s0 -> execute s0 = (s1, Return RUNNING_MODAL) ->
  exists fss,
    Forall2 (fun cs fs => parsed_frames (frame_ranges cs) = Return fs)
            (with_camera (cam_settings (scene s0))) fss /\
    forall job call,
      In (Render job call) (trace (run s1 evs)) ->
      In (Render job call) (trace s0) \/
      (planned_call (length (heap s0)) (with_camera (cam_settings (scene s0)))
         (filepath (render (scene s0))) (file_format (render (scene s0)))
         job call /\
       In (job, rc_frame call) (batch_plan (length (heap s0)) fss)).
Proof.
  intros Hfresh Hex.
  destruct (batch_reachable_safe s0 s1 evs Hfresh Hex)
    as (fss & msgs & k & new & Hfss & _ & Sf).
  exists fss. split; [exact Hfss|]. intros job call Hin.
  rewrite (safe_trace _ _ _ _ _ _ _ _ _ Sf) in Hin.
  apply in_app_or in Hin as [Hin|Hin]; [left; exact Hin|right].
  assert (Hrc : In (job, call) (render_calls new)).
  { unfold render_calls. apply in_flat_map. exists (Render job call).
    split; [exact Hin|left; reflexivity]. }
  pose proof (safe_calls _ _ _ _ _ _ _ _ _ Sf) as Hall.
  rewrite List.Forall_forall in Hall. exact (Hall _ Hrc).
Qed.

(** C10.  The jobs of a batch are all constructed by [execute], before any
    of them is started, and each records the output path the scene has
    then; each keeps that path as the one it restores, on any host and
    whatever happens to the batch; the scene has that path whenever the
    last thing a job has done is to finish, and so after the last job has
    finished; and it has it once the operator has stopped, if the stack
    has room for the frames to pass over. *)
Theorem batch_restores_filepath (s0 s1 : State) (evs : list HostEvent) :
  fresh s0 -> execute s0 = (s1, Return RUNNING_MODAL) ->
  restores s0 s1 (run s1 evs).
Proof.
  intros Hfresh Hex.
  destruct (batch_reachable_safe s0 s1 evs Hfresh Hex)
    as (fss & msgs & k & new & Hfss & Hs1 & Sf).
  pose proof (Forall2_length _ _ _ Hfss) as Hlen.
  set (s := run s1 evs) in *.
  assert (Hidx : forall job,
            In job (op_jobs s1) ->
            exists i cs, job = (length (heap s0) + i)%nat /\
                         with_camera (cam_settings (scene s0)) !! i = Some cs).
  { intros job Hin. rewrite Hs1 in Hin. cbn in Hin. apply in_seq in Hin.
    destruct (lookup_lt_is_Some_2 (with_camera (cam_settings (scene s0)))
                (job - length (heap s0))) as [cs Hcs]; [lia|].
    exists (job - length (heap s0))%nat, cs. split; [lia|exact Hcs]. }
  split; [|split; [|split; [|split]]].
  - rewrite Hs1. destruct Hfresh as (Hcur & _). repeat split. exact Hcur.
  - intros job Hin. destruct (Hidx job Hin) as (i & cs & -> & Hcs).
    destruct (make_jobs_lookup (filepath (render (scene s0))) _ fss i cs Hlen
                Hcs) as (fs & _ & Hjob).
    exists (new_job cs fs (filepath (render (scene s0)))).
    split; [|split; reflexivity].
    rewrite Hs1. cbn. rewrite lookup_app_r by lia.
    replace (length (heap s0) + i - length (heap s0))%nat with i by lia.
    exact Hjob.
  - intros job Hin. destruct (Hidx job Hin) as (i & cs & -> & Hcs).
    destruct (safe_jobs _ _ _ _ _ _ _ _ _ Sf i cs Hcs)
      as (j & cam & Hj & _ & _ & _ & Hor).
    exists j. split; assumption.
  - intros before job Htr.
    apply (safe_restored _ _ _ _ _ _ _ _ _ Sf).
    rewrite (safe_trace _ _ _ _ _ _ _ _ _ Sf) in Htr.
    destruct new as [|a new'] using rev_ind; [left; reflexivity|right].
    rewrite app_assoc in Htr. apply app_inj_tail in Htr as [_ ->].
    exists new', job. reflexivity.
  - intros Hroom Hoff.
    destruct (batch_reachable s0 s1 evs Hfresh Hex Hroom)
      as (fss' & msgs' & _ & _ & _ & k' & new' & C & St & Hm).
    destruct (Hm Hoff) as (_ & _ & Hrp).
    destruct St as [_ _ I3 _ | ? ? ? ? _ _ _ _ R5 _ _
                   | ? ? ? ? _ _ _ _ _ T5 _ _]; [exact I3|congruence..].
Qed.

End BatchOnAnyHost.

(** ** Where the claims fail *)

Section Overflow.
Context {host : Host}.

(** One turn of [render_next_frame] on a frame whose file is there and
    must be kept: a call finds the stack full, or the method calls itself
    on the rest of the list, one call deeper. *)
Lemma skip_step (entry : Entry) (depth : nat) (self : nat) (j : RenderJob)
    (cam : Camera) (f : Z) (rest : list Z) (s : State) :
  heap s !! self = Some j -> is_cancelled j = false ->
  camera (cam_setting j) = Some cam ->
  already_rendered (frame_path j (cam_name cam) f s) s = true ->
  snd (render_frames entry depth self (f :: rest) s) = Raise RecursionError \/
  ((depth <= stack_cap entry call_render_next_frame)%nat /\
   render_frames entry depth self (f :: rest) s
   = render_frames entry (S depth) self rest
       (with_stdout (stdout s ++ [MsgSkipping f (cam_name cam)])
          (visit_state self j rest f (frame_path j (cam_name cam) f s) s))).
Proof.
  intros Hj Hc Hcam Hthere.
  pose proof (lookup_lt_Some _ _ _ Hj) as Hlt.
  unfold already_rendered in Hthere. apply andb_prop in Hthere as [Hov Hfile].
  apply negb_true_iff in Hov. unfold isfile, frame_path in Hfile.
  remember (render_frames entry depth self (f :: rest) s) as X eqn:HX.
  cbn [render_frames] in HX.
  unfold bind at 1 in HX. unfold get_job at 1 in HX. rewrite Hj, Hc in HX.
  unfold bind, put_job, record, modify, get, camera_name, enter, ret in HX.
  rewrite Hcam in HX. unfold ret, raise in HX.
  cbn -[render_frames Nat.leb] in HX.
  destruct (depth <=? stack_cap entry call_os_path_join)%nat;
    [|left; rewrite HX; reflexivity].
  cbn -[render_frames Nat.leb] in HX. rewrite Hov in HX.
  cbn -[render_frames Nat.leb] in HX.
  destruct (depth <=? stack_cap entry (call_bpy_path_abspath _))%nat;
    [|left; rewrite HX; reflexivity].
  cbn -[render_frames Nat.leb] in HX.
  destruct (depth <=? stack_cap entry call_os_path_isfile)%nat;
    [|left; rewrite HX; reflexivity].
  cbn -[render_frames Nat.leb] in HX. rewrite Hfile in HX.
  destruct (depth <=? stack_cap entry call_render_next_frame)%nat eqn:Hself;
    [|left; rewrite HX; reflexivity].
  right. split; [apply Nat.leb_le; exact Hself|exact HX].
Qed.

(** A run of frames whose files are all there, longer than the stack has
    room for calls of [render_next_frame]: the call raises
    [RecursionError]. *)
Lemma skipping_overflows (entry : Entry) (self : nat) (cam : Camera)
    (fs : list Z) :
  forall (depth : nat) (j : RenderJob) (s : State),
  heap s !! self = Some j -> is_cancelled j = false ->
  camera (cam_setting j) = Some cam ->
  Forall (fun f => already_rendered (frame_path j (cam_name cam) f s) s = true)
         fs ->
  fs <> [] ->
  (stack_cap entry call_render_next_frame + 2 <= depth + length fs)%nat ->
  snd (render_frames entry depth self fs s) = Raise RecursionError.
Proof.
  induction fs as [|f rest IH]; intros depth j s Hj Hc Hcam Hall Hne Hlen;
    [contradiction|].
  pose proof (lookup_lt_Some _ _ _ Hj) as Hlt.
  apply Forall_cons_iff in Hall as [Hf Hrest].
  destruct (skip_step entry depth self j cam f rest s Hj Hc Hcam Hf)
    as [Hraise|[Hroom Hgo]]; [exact Hraise|].
  rewrite Hgo. destruct rest as [|g rest].
  { cbn in Hlen. lia. }
  apply (IH (S depth) (set_frames (g :: rest) j)).
  - cbn. apply list_lookup_insert_eq. exact Hlt.
  - exact Hc.
  - exact Hcam.
  - eapply List.Forall_impl; [|exact Hrest]. intros x Hx. exact Hx.
  - discriminate.
  - cbn [length] in Hlen |- *. lia.
Qed.

(** When a call finds the stack full, frames were visited, and nothing
    else was done. *)
Lemma frames_overflow_trace (self : nat) (j : RenderJob) (name : string)
    (fs : list Z) (s s' : State) (e : Exn) :
  frames_outcome self j name fs s s' (Raise e) ->
  exists visited,
    trace s' = (trace s ++ map (FrameSet self) visited)%list /\
    in_flight s' = in_flight s.
Proof.
  intros H. remember (Raise e) as r eqn:Hr.
  destruct H as [|visited rest asked _ _ _ Htr _ _ Hfl _ _]; [discriminate|].
  exists visited. split; assumption.
Qed.

Lemma run_app (s : State) (a b : list HostEvent) :
  run s (a ++ b) = run (run s a) b.
Proof. unfold run. apply fold_left_app. Qed.

(** A state in which the job in hand is marked running and no render is
    in flight stays as it is, whatever the events. *)
Lemma stalled_stays (s : State) (evs : list HostEvent) :
  in_flight s = [] -> current_job_idle s = (s, Return false) ->
  run s evs = s.
Proof.
  intros Hfl Hidle. induction evs as [|ev evs IH]; [reflexivity|].
  cbn [run fold_left].
  assert (E : step s ev = s).
  { destruct ev as [[]|]; cbn [step].
    - unfold modal, bind at 1. rewrite Hidle.
      destruct (modal_handler s); reflexivity.
    - destruct (modal_handler s); reflexivity.
    - unfold host_render_post. rewrite Hfl. reflexivity. }
  rewrite E. exact IH.
Qed.

End Overflow.

(** C5, at an input where it fails.  The job of [skipping_state] has the
    frames 1 to 1000, and the file of each is there while overwriting is
    off.  On a host with room for 990 nested calls, [render_next_frame]
    passes over frame after frame, each time one call deeper, until a
    call finds the stack full: it raises [RecursionError] without having
    gone through the list; no render is requested, and the job does not
    finish. *)
Theorem skipping_many_frames_raises :
  let r := @render_next_frame posix_host from_start 0 skipping_state in
  snd r = Raise RecursionError /\
  rendered (trace (fst r)) = [] /\ finished (trace (fst r)) = [] /\
  in_flight (fst r) = [].
Proof.
  cbn zeta.
  set (j := new_job setting_long many_frames "/out").
  assert (Hj : heap skipping_state !! 0%nat = Some j) by reflexivity.
  assert (Hraise : snd (@render_frames posix_host from_start 0 0 many_frames
                          skipping_state) = Raise RecursionError).
  { apply (@skipping_overflows posix_host from_start 0 camA many_frames 0 j
             skipping_state Hj eq_refl eq_refl).
    - apply List.Forall_forall. intros f Hf.
      unfold already_rendered. apply andb_true_intro.
      split; [reflexivity|]. apply isfile_In.
      apply (in_map (fun f => posix_join "/out" (frame_filename "CamA" f "PNG"))
               many_frames f Hf).
    - discriminate.
    - unfold many_frames. rewrite count_up_length.
      change (stack_cap from_start call_render_next_frame) with 990%nat. lia. }
  rewrite (@render_next_frame_frames posix_host from_start 0 j skipping_state
             Hj).
  change (frames j) with many_frames.
  destruct (@render_frames_outcome posix_host from_start 0 camA many_frames 0
              j skipping_state Hj eq_refl eq_refl eq_refl)
    as (s' & r & Hrun & Hout).
  rewrite Hrun in Hraise |- *. cbn [fst snd] in Hraise |- *. subst r.
  split; [reflexivity|].
  destruct (frames_overflow_trace _ _ _ _ _ _ _ Hout)
    as (visited & Htr & Hfl).
  rewrite Htr, Hfl.
  change (trace skipping_state) with (@nil Action).
  cbn [app]. rewrite rendered_frame_sets, finished_frame_sets.
  repeat split.
Qed.

(** C4, at an input where it fails.  The host calls a handler with the
    scene and the dependency graph, as Blender does since version 2.81,
    and [render_post_handler] is a bound method that takes the scene
    alone: the call raises [TypeError] before the body runs.  So in the
    batch of [demo_state], once the first render has ended the handler is
    still registered and the job still marked running, and no event
    changes that: [modal] passes every timer event through.  The
    first camera's frame 1 is the only frame ever rendered, its other
    frames and the second camera are never taken up, and the operator
    never stops. *)
Theorem batch_stalls_after_first_render (evs : list HostEvent) :
  let s1 := fst (execute demo_state) in
  let s := @run current_host s1 ([Window TIMER; RenderPost] ++ evs) in
  snd (execute demo_state) = Return RUNNING_MODAL /\
  (forall st, snd (@call_handler current_host 0 st)
              = Raise (TypeError_arguments 2)) /\
  rendered (trace s) = [(0%nat, 1)] /\
  finished (trace s) = [] /\
  remaining s = [(0%nat, 3); (0%nat, 4); (1%nat, 7); (1%nat, 8)] /\
  op_current_job s = Some 0%nat /\ op_jobs s = [1%nat] /\
  current_idle s = false /\
  in_flight s = [] /\ render_post s = [0%nat] /\
  modal_handler s = true /\
  disk s = ["/out/CamA_frame1.png"; "/out/CamA_frame3.png"] /\
  filepath (render (scene s)) = "/out/CamA_frame1.png".
Proof.
  cbn zeta. rewrite (@run_app current_host).
  set (s2 := @run current_host (fst (execute demo_state))
               [Window TIMER; RenderPost]).
  assert (Hfl : in_flight s2 = []) by reflexivity.
  assert (Hidle : current_job_idle s2 = (s2, Return false)) by reflexivity.
  rewrite (@stalled_stays current_host s2 evs Hfl Hidle).
  repeat split.
Qed.

(** ** The example batch *)

Lemma batch_restores_filepath_witness :
  @restores posix_host demo_state (fst (execute demo_state))
    (@run posix_host (fst (execute demo_state)) demo_events).
Proof.
  apply (@batch_restores_filepath posix_host demo_state
           (fst (execute demo_state)) demo_events).
  - repeat split.
  - reflexivity.
Defined.

Lemma batch_renders_are_planned_witness :
  exists fss,
    Forall2 (fun cs fs => parsed_frames (frame_ranges cs) = Return fs)
            (with_camera (cam_settings (scene demo_state))) fss /\
    forall job call,
      In (Render job call)
         (trace (@run posix_host (fst (execute demo_state)) demo_events)) ->
      In (Render job call) (trace demo_state) \/
      (@planned_call posix_host (length (heap demo_state))
         (with_camera (cam_settings (scene demo_state)))
         (filepath (render (scene demo_state)))
         (file_format (render (scene demo_state))) job call /\
       In (job, rc_frame call) (batch_plan (length (heap demo_state)) fss)).
Proof.
  apply (@batch_renders_are_planned posix_host demo_state
           (fst (execute demo_state)) demo_events).
  - repeat split.
  - reflexivity.
Defined.







(** The complete run of the example on a host that calls a handler with
    the scene alone: the frames are visited camera by camera in parsed
    order, frame 3 of the first camera is passed over, the operator has
    stopped and the output path is the one of the beginning. *)
Example demo_run :
  let s := @run posix_host (fst (execute demo_state)) demo_events in
  visits (trace s) = [(0%nat, 1); (0%nat, 3); (0%nat, 4); (1%nat, 7); (1%nat, 8)] /\
  rendered (trace s) = [(0%nat, 1); (0%nat, 4); (1%nat, 7); (1%nat, 8)] /\
  finished (trace s) = [0%nat; 1%nat; 1%nat] /\
  modal_handler s = false /\
  filepath (render (scene s)) = "/out".
Proof. repeat split. Qed.

(** The files of the example after its run: the file that was there and
    the four that were rendered, the newest first. *)
Example demo_files :
  disk (@run posix_host (fst (execute demo_state)) demo_events)
  = ["/out/CamB_frame8.png"; "/out/CamB_frame7.png"; "/out/CamA_frame4.png";
     "/out/CamA_frame1.png"; "/out/CamA_frame3.png"].
Proof. reflexivity. Qed.

(** The example stops in its fifth cycle; the bound is eight. *)
Example demo_cycles :
  map (fun n => modal_handler
                  (@run posix_host (fst (execute demo_state)) (cycles n)))
      [0; 4; 5; 8]%nat
  = [true; true; false; false].
Proof. reflexivity. Qed.

(** The file the example hosts write for a frame in the OPEN_EXR format:
    the add-on looks for [.open_exr], the host writes [.open_exr.exr]. *)
Example written_exr :
  @written_still posix_host "OPEN_EXR"
    (@planned_path posix_host "/out" "OPEN_EXR" "CamA" 1)
  = "/out/CamA_frame1.open_exr.exr".
Proof. reflexivity. Qed.

(** ** The sequencing of a batch on a host with room on the stack *)

Section Sequencing.
Context {host : Host}.



End Sequencing.



(** In that state the job in hand is marked running and one render is in
    flight. *)
Example demo_in_flight :
  let s := @run posix_host (fst (execute demo_state)) [Window TIMER] in
  current_idle s = false /\ op_jobs s = [1%nat] /\
  in_flight s
  = [ {| rc_context := INVOKE_DEFAULT; rc_camera := Some camA;
         rc_frame := 1; rc_filepath := "/out/CamA_frame1.png" |} ].
Proof. repeat split. Qed.
